(** * CREST: the GCS shell geometry, the image modifier pipeline, the map
      sequence plot container and the time synchroniser

    A shallow embedding of the computational core of CREST
    ([crest/models/base/gcs.py], [crest/utils/transform.py],
    [crest/utils/image/difference.py],
    [crest/components/plot/map_sequence/plot.py], [crest/apps/jux.py])
    together with the properties its specification states about it.

    Conventions of the embedding.
    - A Python call either returns or raises: fallible code lives in the
      [result] monad, [Ok v] for a return and [Raise e] for an exception.
    - A numpy float is an extended real [npfloat]: a real number, a signed
      infinity or NaN.  Arithmetic is exact on finite values (rounding is
      not modelled) and follows IEEE 754 at the special values; there is one
      zero, read as +0.0.
    - An astropy [Quantity] is its value in SI units (rad, m). *)

From Stdlib Require Import Reals Lra Lia ZArith List String Bool.
From Stdlib Require RNsatz.
Import ListNotations.

Set Implicit Arguments.

(** ** Exceptions and the result monad *)

Inductive exn : Type :=
| ValueError (msg : string)
| IndexError
| TypeError
| RuntimeWarning (msg : string).

Inductive result (A : Type) : Type :=
| Ok (a : A)
| Raise (e : exn).

Arguments Ok {A} a.
Arguments Raise {A} e.

Definition bind {A B : Type} (m : result A) (f : A -> result B) : result B :=
  match m with
  | Ok a => f a
  | Raise e => Raise e
  end.

Notation "x <- m ;; k" := (bind m (fun x => k))
  (at level 61, m at next level, right associativity).

Definition raises {A : Type} (m : result A) : Prop :=
  exists e, m = Raise e.

(** Python indexing of a sequence by an integer: a negative index counts
    from the end, an index out of range raises [IndexError]. *)
Definition py_getitem {A : Type} (l : list A) (i : Z) : result A :=
  let n := Z.of_nat (List.length l) in
  let j := if (i <? 0)%Z then (i + n)%Z else i in
  if ((0 <=? j) && (j <? n))%Z
  then match nth_error l (Z.to_nat j) with
       | Some a => Ok a
       | None => Raise IndexError
       end
  else Raise IndexError.

(** ** numpy floats *)

Inductive npfloat : Type :=
| Fin (x : R)
| Inf (negative : bool)
| NaN.

Definition Rltb (x y : R) : bool := if Rlt_dec x y then true else false.
Definition Rleb (x y : R) : bool := if Rle_dec x y then true else false.
Definition Reqb (x y : R) : bool := if Req_dec_T x y then true else false.

Module NP.

Local Open Scope R_scope.

Definition neg (a : npfloat) : npfloat :=
  match a with
  | Fin x => Fin (- x)
  | Inf s => Inf (negb s)
  | NaN => NaN
  end.

Definition add (a b : npfloat) : npfloat :=
  match a, b with
  | Fin x, Fin y => Fin (x + y)
  | Fin _, Inf s => Inf s
  | Inf s, Fin _ => Inf s
  | Inf s, Inf t => if Bool.eqb s t then Inf s else NaN
  | _, _ => NaN
  end.

Definition sub (a b : npfloat) : npfloat := add a (neg b).

Definition mul (a b : npfloat) : npfloat :=
  match a, b with
  | Fin x, Fin y => Fin (x * y)
  | Fin x, Inf s => if Reqb x 0 then NaN else Inf (xorb (Rltb x 0) s)
  | Inf s, Fin y => if Reqb y 0 then NaN else Inf (xorb s (Rltb y 0))
  | Inf s, Inf t => Inf (xorb s t)
  | _, _ => NaN
  end.

Definition div (a b : npfloat) : npfloat :=
  match a, b with
  | Fin x, Fin y =>
      if Reqb y 0
      then (if Reqb x 0 then NaN else Inf (Rltb x 0))
      else Fin (x / y)
  | Fin _, Inf _ => Fin 0
  | Inf s, Fin y => Inf (xorb s (Rltb y 0))
  | _, _ => NaN
  end.

Definition sqrt (a : npfloat) : npfloat :=
  match a with
  | Fin x => if Rltb x 0 then NaN else Fin (R_sqrt.sqrt x)
  | Inf false => Inf false
  | _ => NaN
  end.

Definition sin (a : npfloat) : npfloat :=
  match a with
  | Fin x => Fin (Rtrigo_def.sin x)
  | _ => NaN
  end.

Definition cos (a : npfloat) : npfloat :=
  match a with
  | Fin x => Fin (Rtrigo_def.cos x)
  | _ => NaN
  end.

Definition tan (a : npfloat) : npfloat := div (sin a) (cos a).

Definition arcsin (a : npfloat) : npfloat :=
  match a with
  | Fin x => if Rleb (-1) x && Rleb x 1 then Fin (asin x) else NaN
  | _ => NaN
  end.

(** Comparisons: anything compared with NaN is false. *)
Definition le (a b : npfloat) : bool :=
  match a, b with
  | Fin x, Fin y => Rleb x y
  | Fin _, Inf s => negb s
  | Inf s, Fin _ => s
  | Inf s, Inf t => s || negb t
  | _, _ => false
  end.

Definition lt (a b : npfloat) : bool :=
  match a, b with
  | Fin x, Fin y => Rltb x y
  | Fin _, Inf s => negb s
  | Inf s, Fin _ => s
  | Inf s, Inf t => s && negb t
  | _, _ => false
  end.

Definition ge (a b : npfloat) : bool := le b a.
Definition gt (a b : npfloat) : bool := lt b a.

Definition pi : npfloat := Fin PI.

Definition isfinite (a : npfloat) : bool :=
  match a with Fin _ => true | _ => false end.

End NP.

Declare Scope np_scope.
Delimit Scope np_scope with np.
Bind Scope np_scope with npfloat.
Notation "a + b" := (NP.add a b) : np_scope.
Notation "a - b" := (NP.sub a b) : np_scope.
Notation "a * b" := (NP.mul a b) : np_scope.
Notation "a / b" := (NP.div a b) : np_scope.
Notation "- a" := (NP.neg a) : np_scope.

(** ** [crest/utils/transform.py]: class RotationTransform *)

Module RotationTransform.

Local Open Scope np_scope.

(** A two-dimensional numpy array, row by row. *)
Definition matrix : Type := list (list npfloat).

(** Rotation about the x axis. *)
Definition x (angle : npfloat) : matrix :=
  let '(c, s) := (NP.cos angle, NP.sin angle) in
  [[Fin 1; Fin 0; Fin 0]; [Fin 0; c; - s]; [Fin 0; s; c]].

(** Rotation about the y axis. *)
Definition y (angle : npfloat) : matrix :=
  let '(c, s) := (NP.cos angle, NP.sin angle) in
  [[c; Fin 0; s]; [Fin 0; Fin 1; Fin 0]; [- s; Fin 0; c]].

(** Rotation about the z axis. *)
Definition z (angle : npfloat) : matrix :=
  let '(c, s) := (NP.cos angle, NP.sin angle) in
  [[c; - s; Fin 0]; [s; c; Fin 0]; [Fin 0; Fin 0; Fin 1]].

(** [np.dot] of two-dimensional arrays: entry (i, j) is the sum over k of
    [a[i][k] * b[k][j]]; the row length of [a] must be the number of rows
    of [b]. *)
Definition column (j : nat) (m : matrix) : list npfloat :=
  map (fun row => nth j row NaN) m.

Fixpoint inner (u v : list npfloat) : npfloat :=
  match u, v with
  | [a], [b] => a * b
  | a :: u', b :: v' => a * b + inner u' v'
  | _, _ => Fin 0
  end.

Definition ncols (m : matrix) : nat :=
  match m with
  | [] => 0
  | row :: _ => List.length row
  end.

Definition aligned (a b : matrix) : bool :=
  forallb (fun row => Nat.eqb (List.length row) (List.length b)) a.

Definition dot (a b : matrix) : result matrix :=
  if aligned a b
  then Ok (map (fun row => map (fun j => inner row (column j b))
                             (seq 0 (ncols b))) a)
  else Raise (ValueError "shapes not aligned").

End RotationTransform.

(** ** [crest/models/base/gcs.py]: class GCSGeometry *)

Module GCS.

Record GCSGeometry : Type := mkGCSGeometry {
  _half_angle : npfloat;
  _aspect_ratio : npfloat;
  _leading_edge : npfloat;
  _cone_height : npfloat
}.

Local Open Scope np_scope.

(** [leading_edge*np.cos(_alpha)*(1.0 - aspect_ratio)/(1.0 + np.sin(_alpha))] *)
Definition compute_cone_height (half_angle aspect_ratio leading_edge : npfloat)
  : npfloat :=
  let _alpha := half_angle in
  leading_edge * NP.cos _alpha * (Fin 1 - aspect_ratio) / (Fin 1 + NP.sin _alpha).

(** [cone_height*(1.0 + np.sin(_alpha))/(np.cos(_alpha)*(1.0 - aspect_ratio))] *)
Definition compute_leading_edge (half_angle aspect_ratio cone_height : npfloat)
  : npfloat :=
  let _alpha := half_angle in
  cone_height * (Fin 1 + NP.sin _alpha) / (NP.cos _alpha * (Fin 1 - aspect_ratio)).

Definition half_angle (self : GCSGeometry) : npfloat := _half_angle self.
Definition aspect_ratio (self : GCSGeometry) : npfloat := _aspect_ratio self.
Definition cone_height (self : GCSGeometry) : npfloat := _cone_height self.
Definition leading_edge (self : GCSGeometry) : npfloat := _leading_edge self.

Definition with_half_angle (self : GCSGeometry) (v : npfloat) : GCSGeometry :=
  mkGCSGeometry v (_aspect_ratio self) (_leading_edge self) (_cone_height self).
Definition with_aspect_ratio (self : GCSGeometry) (v : npfloat) : GCSGeometry :=
  mkGCSGeometry (_half_angle self) v (_leading_edge self) (_cone_height self).
Definition with_leading_edge (self : GCSGeometry) (v : npfloat) : GCSGeometry :=
  mkGCSGeometry (_half_angle self) (_aspect_ratio self) v (_cone_height self).
Definition with_cone_height (self : GCSGeometry) (v : npfloat) : GCSGeometry :=
  mkGCSGeometry (_half_angle self) (_aspect_ratio self) (_leading_edge self) v.

(** The setter of the [cone_height] property: store the value, then compute
    and store the leading edge. *)
Definition cone_height_setter (self : GCSGeometry) (value : npfloat)
  : result GCSGeometry :=
  let self := with_cone_height self value in
  Ok (with_leading_edge self
        (compute_leading_edge (half_angle self) (aspect_ratio self) value)).

(** The setter of the [leading_edge] property: store the value, then compute
    and store the cone height. *)
Definition leading_edge_setter (self : GCSGeometry) (value : npfloat)
  : result GCSGeometry :=
  let self := with_leading_edge self value in
  Ok (with_cone_height self
        (compute_cone_height (half_angle self) (aspect_ratio self) value)).

(** The setter of the [half_angle] property: store the value, then
    [self.leading_edge = self._leading_edge]. *)
Definition half_angle_setter (self : GCSGeometry) (value : npfloat)
  : result GCSGeometry :=
  let self := with_half_angle self value in
  leading_edge_setter self (_leading_edge self).

(** The setter of the [aspect_ratio] property: store the value, then
    [self.leading_edge = self._leading_edge]. *)
Definition aspect_ratio_setter (self : GCSGeometry) (value : npfloat)
  : result GCSGeometry :=
  let self := with_aspect_ratio self value in
  leading_edge_setter self (_leading_edge self).

(** [GCSGeometry.__init__].  The two lengths are not yet assigned when the
    setter is called; the setter assigns both before [__init__] returns and
    reads neither, so the placeholder below is never observed. *)
Definition __init__ (half_angle aspect_ratio : npfloat)
    (leading_edge cone_height : option npfloat) : result GCSGeometry :=
  let self := mkGCSGeometry half_angle aspect_ratio NaN NaN in
  match leading_edge, cone_height with
  | None, None =>
      Raise (ValueError "Leading edge or cone height need to be provided")
  | Some _, Some _ =>
      Raise (ValueError "Leading edge or cone height need to be provided")
  | None, Some h => cone_height_setter self h
  | Some l, None => leading_edge_setter self l
  end.

(** Height of the conical leg. *)
Definition h (self : GCSGeometry) : npfloat := _cone_height self.

(** Radius of the generating circle: [self.h*np.tan(self.half_angle)]. *)
Definition rho (self : GCSGeometry) : npfloat := h self * NP.tan (half_angle self).

(** The y-coordinate of the centre of the generating circle:
    [self.h/np.cos(self.half_angle)]. *)
Definition b (self : GCSGeometry) : npfloat := h self / NP.cos (half_angle self).

(** The cone opening angle: [np.arcsin(self.aspect_ratio)]. *)
Definition delta (self : GCSGeometry) : npfloat := NP.arcsin (aspect_ratio self).



(** [(self.rho + self.b*k_sqr*np.sin(beta))/(1.0 - k_sqr)] *)
Definition X0 (self : GCSGeometry) (beta : npfloat) : result npfloat :=
  let k_sqr := aspect_ratio self * aspect_ratio self in
  Ok ((rho self + b self * k_sqr * NP.sin beta) / (Fin 1 - k_sqr)).

(** [R_sqr = X0**2 + (k_sqr*b*b - rho*rho)/(1.0 - k_sqr)], then
    [np.sqrt(R_sqr)]; [x**2] is [x*x]. *)
Definition R (self : GCSGeometry) (beta : npfloat) : result npfloat :=
  X0 <- X0 self beta ;;
  let b := b self in
  let rho := rho self in
  let k_sqr := aspect_ratio self * aspect_ratio self in
  let R_sqr := X0 * X0 + (k_sqr * b * b - rho * rho) / (Fin 1 - k_sqr) in
  Ok (NP.sqrt R_sqr).

Definition vec3 : Type := (npfloat * npfloat * npfloat)%type.

(** The three tests of [cross_section_circle]. *)
Definition in_rhs_leg (_hang _beta : npfloat) : bool :=
  NP.ge _beta (- Fin 0.5 * NP.pi) && NP.le _beta (- _hang).

Definition in_lhs_leg (_hang _beta : npfloat) : bool :=
  NP.ge _beta (NP.pi + _hang) && NP.le _beta (Fin 3 * NP.pi / Fin 2).

Definition in_curved_section (_hang _beta : npfloat) : bool :=
  NP.gt _beta (- _hang) && NP.lt _beta (NP.pi + _hang).

(** [cross_section_circle]: centre, radius and normal of the circular cross
    section at azimuth [beta]. *)
Definition cross_section_circle (self : GCSGeometry) (beta : npfloat)
  : result (vec3 * npfloat * vec3) :=
  let _beta := beta in
  let _hang := half_angle self in
  if in_rhs_leg _hang _beta then
    let OQ := h self - rho self * NP.tan (- (_beta + _hang)) in
    let radius := OQ * NP.tan (delta self) in
    let center := (OQ * NP.sin _hang, OQ * NP.cos _hang, Fin 0) in
    let normal := (NP.sin _hang, NP.cos _hang, Fin 0) in
    Ok (center, radius, normal)
  else if in_lhs_leg _hang _beta then
    let OQ := h self - rho self * NP.tan (_beta - _hang - NP.pi) in
    let radius := OQ * NP.tan (delta self) in
    let center := (- OQ * NP.sin _hang, OQ * NP.cos _hang, Fin 0) in
    let normal := (NP.sin _hang, - NP.cos _hang, Fin 0) in
    Ok (center, radius, normal)
  else if in_curved_section _hang _beta then
    radius <- R self beta ;;
    X0b <- X0 self beta ;;
    let center := (X0b * NP.cos _beta, X0b * NP.sin _beta + b self, Fin 0) in
    let normal := (- NP.sin _beta, NP.cos _beta, Fin 0) in
    Ok (center, radius, normal)
  else
    Raise (ValueError "Unexpected beta angle").

(** *** class GCSModel(GCSGeometry) *)

Record GCSModel : Type := mkGCSModel {
  geometry : GCSGeometry;
  _longitude : npfloat;
  _latitude : npfloat;
  _tilt : npfloat;
  _rot_x : RotationTransform.matrix;
  _rot_y : RotationTransform.matrix;
  _rot_z : RotationTransform.matrix
}.

Definition longitude (self : GCSModel) : npfloat := _longitude self.
Definition latitude (self : GCSModel) : npfloat := _latitude self.
Definition tilt (self : GCSModel) : npfloat := _tilt self.

(** Store the longitude and the rotation about z by [-0.5*np.pi + longitude]. *)
Definition longitude_setter (self : GCSModel) (value : npfloat) : GCSModel :=
  mkGCSModel (geometry self) value (_latitude self) (_tilt self)
    (_rot_x self) (_rot_y self)
    (RotationTransform.z (- Fin 0.5 * NP.pi + value)).

(** Store the latitude and the rotation about x. *)
Definition latitude_setter (self : GCSModel) (value : npfloat) : GCSModel :=
  mkGCSModel (geometry self) (_longitude self) value (_tilt self)
    (RotationTransform.x value) (_rot_y self) (_rot_z self).

(** Store the tilt and the rotation about y. *)
Definition tilt_setter (self : GCSModel) (value : npfloat) : GCSModel :=
  mkGCSModel (geometry self) (_longitude self) (_latitude self) value
    (_rot_x self) (RotationTransform.y value) (_rot_z self).

(** [GCSModel.__init__]: the geometry from the leading edge, then the three
    angle setters; no angle or rotation is read before its setter ran. *)
Definition GCSModel__init__ (half_angle aspect_ratio : npfloat)
    (leading_edge : option npfloat) (longitude latitude tilt : npfloat)
  : result GCSModel :=
  g <- __init__ half_angle aspect_ratio leading_edge None ;;
  let self := mkGCSModel g NaN NaN NaN [] [] [] in
  let self := longitude_setter self longitude in
  let self := latitude_setter self latitude in
  let self := tilt_setter self tilt in
  Ok self.

(** [np.dot(self._rot_z, np.dot(self._rot_y, self._rot_x))] *)
Definition tmatrix (self : GCSModel) : result RotationTransform.matrix :=
  yx <- RotationTransform.dot (_rot_y self) (_rot_x self) ;;
  RotationTransform.dot (_rot_z self) yx.

(** The calls a client can make on a model after construction: the setters
    of the geometry it inherits and of its three angles. *)
Inductive call : Type :=
| SetHalfAngle (value : npfloat)
| SetAspectRatio (value : npfloat)
| SetLeadingEdge (value : npfloat)
| SetConeHeight (value : npfloat)
| SetLongitude (value : npfloat)
| SetLatitude (value : npfloat)
| SetTilt (value : npfloat).

Definition with_geometry (self : GCSModel) (g : GCSGeometry) : GCSModel :=
  mkGCSModel g (_longitude self) (_latitude self) (_tilt self)
    (_rot_x self) (_rot_y self) (_rot_z self).

Definition run_call (self : GCSModel) (c : call) : result GCSModel :=
  match c with
  | SetHalfAngle v =>
      g <- half_angle_setter (geometry self) v ;; Ok (with_geometry self g)
  | SetAspectRatio v =>
      g <- aspect_ratio_setter (geometry self) v ;; Ok (with_geometry self g)
  | SetLeadingEdge v =>
      g <- leading_edge_setter (geometry self) v ;; Ok (with_geometry self g)
  | SetConeHeight v =>
      g <- cone_height_setter (geometry self) v ;; Ok (with_geometry self g)
  | SetLongitude v => Ok (longitude_setter self v)
  | SetLatitude v => Ok (latitude_setter self v)
  | SetTilt v => Ok (tilt_setter self v)
  end.

Fixpoint run_calls (self : GCSModel) (cs : list call) : result GCSModel :=
  match cs with
  | [] => Ok self
  | c :: cs' => self' <- run_call self c ;; run_calls self' cs'
  end.

End GCS.

(** ** [crest/utils/image/difference.py] and
       [crest/components/plot/map_sequence/plot.py] *)

Module Plot.

(** State of a [DifferenceImageModifier]: [ImageModifierBase._is_enabled]
    and [_reference_frame] ([None] until it is set). *)
Record DifferenceImageModifier : Type := mkDifferenceImageModifier {
  _is_enabled : bool;
  _reference_frame : option Z
}.

(** [DifferenceImageModifier.__init__] *)
Definition DifferenceImageModifier__init__ : DifferenceImageModifier :=
  mkDifferenceImageModifier false None.

Definition is_enabled (self : DifferenceImageModifier) : bool := _is_enabled self.

Definition reference_frame (self : DifferenceImageModifier) : option Z :=
  _reference_frame self.

(** [not (self.reference_frame is None or self.reference_frame < 0)] *)
Definition is_valid_reference_frame (self : DifferenceImageModifier) : bool :=
  negb (match reference_frame self with
        | None => true
        | Some r => (r <? 0)%Z
        end).

(** [ColorbarState]: a colormap name, ["default"] at first, and the two
    colour limits. *)
Record ColorbarState : Type := mkColorbarState {
  cmap : option string;
  vmin : option npfloat;
  vmax : option npfloat
}.

Definition ColorbarState__init__ : ColorbarState :=
  mkColorbarState (Some "default"%string) None None.

Section MapSequencePlot.

(** What numpy and matplotlib provide.  [ndarray] is an array of pixel
    values; [nd_sub] is numpy's [-] on arrays, which raises when the shapes
    do not broadcast; [nd_border] is
    [np.concatenate([data[0, :], data[-1, :], data[:, 0], data[:, -1]])];
    [nd_min] and [nd_max] are [A.min()] and [A.max()], absent on an array
    of size 0; [median_rgba cmap vmin vmax A] is
    [np.median(cmap(norm(A)), axis=0)] for the norm with these limits. *)
Variable ndarray : Type.
Variable nd_sub : ndarray -> ndarray -> result ndarray.
Variable nd_border : ndarray -> result ndarray.
Variable nd_min nd_max : ndarray -> option npfloat.
Variable color : Type.
Variable median_rgba :
  option string -> option npfloat -> option npfloat -> ndarray -> result color.

(** A sunpy map: its pixel data and its own colormap. *)
Record Map : Type := mkMap {
  data : ndarray;
  map_cmap : string
}.

(** The matplotlib image: its array, its colormap and the limits of its
    norm. *)
Record AxesImage : Type := mkAxesImage {
  im_data : ndarray;
  im_cmap : option string;
  norm_vmin : option npfloat;
  norm_vmax : option npfloat
}.

Definition set_data (im : AxesImage) (A : ndarray) : AxesImage :=
  mkAxesImage A (im_cmap im) (norm_vmin im) (norm_vmax im).

Definition set_cmap (im : AxesImage) (c : option string) : AxesImage :=
  mkAxesImage (im_data im) c (norm_vmin im) (norm_vmax im).

(** [set_clim]: a limit given as [None] leaves the norm's limit as it is. *)
Definition set_clim (im : AxesImage) (lo hi : option npfloat) : AxesImage :=
  mkAxesImage (im_data im) (im_cmap im)
    (match lo with Some _ => lo | None => norm_vmin im end)
    (match hi with Some _ => hi | None => norm_vmax im end).

(** Calling the norm on an array first fills in a limit that is still
    [None] from the array. *)
Definition autoscale_None (im : AxesImage) (A : ndarray) : AxesImage :=
  mkAxesImage (im_data im) (im_cmap im)
    (match norm_vmin im with Some v => Some v | None => nd_min A end)
    (match norm_vmax im with Some v => Some v | None => nd_max A end).

(** The colorbar: the colormap and limits it was last updated to. *)
Record Colorbar : Type := mkColorbar {
  cb_cmap : option string;
  cb_vmin : option npfloat;
  cb_vmax : option npfloat
}.

Definition update_normal (im : AxesImage) : Colorbar :=
  mkColorbar (im_cmap im) (norm_vmin im) (norm_vmax im).

(** A [MapSequencePlotContainer] whose figure exists ([create] has run). *)
Record MapSequencePlotContainer : Type := mkMapSequencePlotContainer {
  map_sequence : list Map;
  im : AxesImage;
  ax_facecolor : color;
  cbar : option Colorbar;
  colorbar_state : ColorbarState;
  current_frame_index : Z;
  modifiers : list DifferenceImageModifier;
  draw_pending : bool
}.

Definition num_frames (self : MapSequencePlotContainer) : Z :=
  Z.of_nat (List.length (map_sequence self)).

(** [DifferenceImageModifier.__call__(map_meta, map_data, plot_container)];
    [map_meta] is always [None] and is left out. *)
Definition __call__ (self : DifferenceImageModifier) (map_data : ndarray)
    (plot_container : MapSequencePlotContainer) : result ndarray :=
  if negb (is_enabled self) || negb (is_valid_reference_frame self)
  then Ok map_data
  else
    match reference_frame self with
    | None => Raise TypeError (* not reached: [None] is not valid *)
    | Some r =>
        reference_map <- py_getitem (map_sequence plot_container) r ;;
        nd_sub map_data (data reference_map)
    end.

(** [get_map_data]: a copy of the frame's data, run through the modifiers
    in order. *)
Fixpoint run_modifiers (ms : list DifferenceImageModifier) (map_data : ndarray)
    (self : MapSequencePlotContainer) : result ndarray :=
  match ms with
  | [] => Ok map_data
  | modifier :: ms' =>
      map_data <- __call__ modifier map_data self ;;
      run_modifiers ms' map_data self
  end.

Definition get_map_data (self : MapSequencePlotContainer) (frame_index : Z)
  : result ndarray :=
  m <- py_getitem (map_sequence self) frame_index ;;
  let map_data := data m in
  run_modifiers (modifiers self) map_data self.

(** [np.clip(a, a_min, a_max)] is [minimum(a_max, maximum(a, a_min))]. *)
Definition clip (a a_min a_max : Z) : Z := Z.min a_max (Z.max a a_min).

(** [update_to_frame] *)
Definition update_to_frame (self : MapSequencePlotContainer) (frame_index : Z)
  : result MapSequencePlotContainer :=
  let frame := clip frame_index 0 (num_frames self - 1) in
  data <- get_map_data self frame ;;
  let im := set_data (im self) data in
  let cs := colorbar_state self in
  im <- (if match cmap cs with
            | Some name => String.eqb name "default"
            | None => false
            end
         then m <- py_getitem (map_sequence self) (current_frame_index self) ;;
              Ok (set_cmap im (Some (map_cmap m)))
         else Ok (set_cmap im (cmap cs))) ;;
  let im := set_clim im (vmin cs) (vmax cs) in
  border_pixels <- nd_border data ;;
  let im := autoscale_None im border_pixels in
  facecolor <- median_rgba (im_cmap im) (norm_vmin im) (norm_vmax im)
                 border_pixels ;;
  let cbar := match cbar self with
              | Some _ => Some (update_normal im)
              | None => None
              end in
  Ok (mkMapSequencePlotContainer (map_sequence self) im facecolor cbar
        (colorbar_state self) frame (modifiers self) true).

(** What a viewer sees of a container: the image (data, colormap, colour
    limits), the face colour, the colorbar and the displayed frame index. *)
Definition visible_state (self : MapSequencePlotContainer)
  : AxesImage * color * option Colorbar * Z :=
  (im self, ax_facecolor self, cbar self, current_frame_index self).

End MapSequencePlot.

End Plot.

(** ** [crest/apps/jux.py]: the frame-change handler of [ImagesAndModels.ui] *)

Module Jux.

Local Open Scope Z_scope.

(** The values the local variable [target] of [on_frame_change] holds: the
    datetime of a frame (as a count of time units since an epoch) or an
    integer frame index. *)
Inductive pyvalue : Type :=
| PyDatetime (t : Z)
| PyInt (n : Z).

(** [datetimes[pidx] - target] on an array of datetimes: a datetime minus a
    datetime is a timedelta; a datetime minus an integer is a [TypeError]. *)
Definition array_minus (datetimes : list Z) (target : pyvalue)
  : result (list Z) :=
  match target with
  | PyDatetime t => Ok (map (fun d => d - t) datetimes)
  | PyInt _ =>
      match datetimes with
      | [] => Ok []
      | _ :: _ => Raise TypeError
      end
  end.

(** [np.abs] on an array of timedeltas. *)
Definition np_abs (a : list Z) : list Z := map Z.abs a.

(** [argmin]: the index of the first occurrence of the minimum; it raises
    [ValueError] on an empty array. *)
Fixpoint argmin_from (best_index : nat) (best : Z) (next_index : nat)
    (a : list Z) : nat :=
  match a with
  | [] => best_index
  | x :: a' =>
      if x <? best
      then argmin_from next_index x (S next_index) a'
      else argmin_from best_index best (S next_index) a'
  end.

Definition argmin (a : list Z) : result nat :=
  match a with
  | [] => Raise (ValueError "attempt to get argmin of an empty sequence")
  | x :: a' => Ok (argmin_from 0%nat x 1%nat a')
  end.

(** The data and the reactive values that [on_frame_change] closes over.
    [datetimes] holds, per plot, the datetime of each map of its source. *)
Record App : Type := mkApp {
  datetimes : list (list Z);
  sync_plots : bool;
  active_plot : nat;
  frames : list Z;
  difference_frames : list Z;
  running_difference_offsets : list Z
}.

Definition num_plots (app : App) : nat := List.length (datetimes app).

(** [num_frames = [len(source) for source in self.sources]] *)
Definition num_frames (app : App) : list Z :=
  map (fun source => Z.of_nat (List.length source)) (datetimes app).

(** Indexing a list by a plot index. *)
Definition item {A : Type} (l : list A) (idx : nat) : result A :=
  match nth_error l idx with
  | Some a => Ok a
  | None => Raise IndexError
  end.

(** [l[idx].set(v)] on a list of reactive values. *)
Fixpoint set_item {A : Type} (l : list A) (idx : nat) (v : A) : list A :=
  match l, idx with
  | [], _ => []
  | _ :: l', O => v :: l'
  | a :: l', S idx' => a :: set_item l' idx' v
  end.

Definition set_frame (app : App) (pidx : nat) (v : Z) : App :=
  mkApp (datetimes app) (sync_plots app) (active_plot app)
    (set_item (frames app) pidx v)
    (difference_frames app) (running_difference_offsets app).

Definition set_difference_frame (app : App) (pidx : nat) (v : Z) : App :=
  mkApp (datetimes app) (sync_plots app) (active_plot app) (frames app)
    (set_item (difference_frames app) pidx v)
    (running_difference_offsets app).

(** One turn of [for pidx in range(num_plots)]; the loop carries the
    reactive values and the variable [target]. *)
Definition loop_body (st : App * pyvalue) (pidx : nat)
  : result (App * pyvalue) :=
  let '(app, target) := st in
  if Nat.eqb pidx (active_plot app) then Ok (app, target)
  else
    dts <- item (datetimes app) pidx ;;
    diffs <- array_minus dts target ;;
    closest_frame <- argmin (np_abs diffs) ;;
    let closest_frame := Z.of_nat closest_frame in
    let app := set_frame app pidx closest_frame in
    offset <- item (running_difference_offsets app) pidx ;;
    if negb (offset =? 0) then
      let target := closest_frame + offset in
      nf <- item (num_frames app) pidx ;;
      let target := Z.max 0 (Z.min target (nf - 1)) in
      Ok (set_difference_frame app pidx target, PyInt target)
    else Ok (app, target).

Fixpoint loop (st : App * pyvalue) (range : list nat)
  : result (App * pyvalue) :=
  match range with
  | [] => Ok st
  | pidx :: range' => st' <- loop_body st pidx ;; loop st' range'
  end.

(** [on_frame_change(frame, idx_of_plot)] *)
Definition on_frame_change (app : App) (frame : Z) (idx_of_plot : nat)
  : result App :=
  if sync_plots app then
    if negb (Nat.eqb idx_of_plot (active_plot app)) then Ok app
    else
      dts <- item (datetimes app) (active_plot app) ;;
      t <- py_getitem dts frame ;;
      let target := PyDatetime t in
      current <- item (frames app) (active_plot app) ;;
      if negb (frame =? current)
      then Raise (RuntimeWarning "frame not equal to expected frame")
      else
        st <- loop (app, target) (seq 0 (num_plots app)) ;;
        Ok (fst st)
  else Ok app.

(** The index a nearest-neighbour search over [dts] must return for the
    time [t]: the distance there is minimal, and no earlier index is as
    close. *)
Definition nearest_index (dts : list Z) (t : Z) (i : nat) : Prop :=
  exists d, nth_error dts i = Some d /\
    (forall j e, nth_error dts j = Some e -> Z.abs (d - t) <= Z.abs (e - t)) /\
    (forall j e, nth_error dts j = Some e -> (j < i)%nat ->
                 Z.abs (d - t) < Z.abs (e - t)).

(** The lists of reactive values have one entry per plot, and the active
    plot is one of the plots. *)
Definition well_formed (app : App) : Prop :=
  List.length (frames app) = num_plots app /\
  List.length (difference_frames app) = num_plots app /\
  List.length (running_difference_offsets app) = num_plots app /\
  (active_plot app < num_plots app)%nat.

(** View [j] shows the frame nearest in time to [t]. *)
Definition synced (app : App) (t : Z) (j : nat) : Prop :=
  forall dts, nth_error (datetimes app) j = Some dts ->
    exists r, nth_error (frames app) j = Some (Z.of_nat r) /\
              nearest_index dts t r.

(** What holds of the loop of [on_frame_change] before it reaches plot
    [k]: the data are those of [app0], the active plot still shows
    [frame], the plots before [k] are synchronised to [t], and [target] is
    still the datetime [t] unless no plot other than the active one
    remains. *)
Definition loop_invariant (app0 : App) (t frame : Z) (k : nat)
    (st : App * pyvalue) : Prop :=
  datetimes (fst st) = datetimes app0 /\
  running_difference_offsets (fst st) = running_difference_offsets app0 /\
  active_plot (fst st) = active_plot app0 /\
  List.length (frames (fst st)) = num_plots app0 /\
  List.length (difference_frames (fst st)) = num_plots app0 /\
  nth_error (frames (fst st)) (active_plot app0) = Some frame /\
  (forall j, (j < k)%nat -> j <> active_plot app0 -> synced (fst st) t j) /\
  (snd st = PyDatetime t \/
   forall j, (k <= j < num_plots app0)%nat -> j = active_plot app0).

End Jux.

(** ** The closed forms as the specification words them

    The quantities of the specification over the reals, for a half angle
    [alpha], an aspect ratio [k] and a cone height [h]; the theorems below
    compare them with what the code computes. *)

Module GCSSpec.

Local Open Scope R_scope.

(** Radius of the generating circle. *)
Definition rho (alpha h : R) : R := h * tan alpha.

(** Offset of the centre of the generating circle. *)
Definition b (alpha h : R) : R := h / cos alpha.

(** [X0 = (rho + b k^2 sin(beta)) / (1 - k^2)] *)
Definition X0 (alpha k h beta : R) : R :=
  (rho alpha h + b alpha h * k² * sin beta) / (1 - k²).

(** [R^2 = X0^2 + (k^2 b^2 - rho^2) / (1 - k^2)] *)
Definition R_sqr (alpha k h beta : R) : R :=
  (X0 alpha k h beta)² + (k² * (b alpha h)² - (rho alpha h)²) / (1 - k²).

(** The invariant: [leading_edge = cone_height * (1 + sin(half_angle)) /
    (cos(half_angle) * (1 - aspect_ratio))]. *)
Definition leading_edge_of (alpha k h : R) : R :=
  h * (1 + sin alpha) / (cos alpha * (1 - k)).

(** The elementary right-handed rotations and their product
    [Rz(gamma) Ry(beta) Rx(alpha)], entry by entry. *)
Definition Rz_Ry_Rx (gamma beta alpha : R) : list (list R) :=
  let '(cz, sz) := (cos gamma, sin gamma) in
  let '(cy, sy) := (cos beta, sin beta) in
  let '(cx, sx) := (cos alpha, sin alpha) in
  [[cz * cy; cz * sy * sx - sz * cx; cz * sy * cx + sz * sx];
   [sz * cy; sz * sy * sx + cz * cx; sz * sy * cx - cz * sx];
   [- sy;    cy * sx;                cy * cx]].

Definition finite_matrix (m : list (list R)) : RotationTransform.matrix :=
  map (map Fin) m.

(** The three cached rotations of a model are those of its three angles. *)
Definition rotations_in_step (m : GCS.GCSModel) : Prop :=
  GCS._rot_x m = RotationTransform.x (GCS.latitude m) /\
  GCS._rot_y m = RotationTransform.y (GCS.tilt m) /\
  GCS._rot_z m
  = RotationTransform.z (NP.add (NP.mul (NP.neg (Fin 0.5)) NP.pi) (GCS.longitude m)).

(** [Rz(-pi/2 + longitude) Ry(tilt) Rx(latitude)], in this order, by the
    code's own [dot]. *)
Definition composition (longitude latitude tilt : npfloat)
  : result RotationTransform.matrix :=
  yx <- RotationTransform.dot (RotationTransform.y tilt)
          (RotationTransform.x latitude) ;;
  RotationTransform.dot
    (RotationTransform.z (NP.add (NP.mul (NP.neg (Fin 0.5)) NP.pi) longitude)) yx.

(** The three rotations composed in the reverse order, [Rx Ry Rz], by the
    code's own [dot]. *)
Definition reverse_composition (longitude latitude tilt : npfloat)
  : result RotationTransform.matrix :=
  yz <- RotationTransform.dot (RotationTransform.y tilt)
          (RotationTransform.z (NP.add (NP.mul (NP.neg (Fin 0.5)) NP.pi) longitude)) ;;
  RotationTransform.dot (RotationTransform.x latitude) yz.

End GCSSpec.

(** ** The coupled pair under rounding

    The two expressions of [compute_cone_height] and [compute_leading_edge]
    on finite values, with the rounding of float64 made explicit: the exact
    result of every operation, and of [np.sin] and [np.cos], is passed
    through [rnd]. *)

Module GCSRounded.

Section WithRounding.

Variable rnd : R -> R.

Local Open Scope R_scope.

(** [leading_edge*np.cos(_alpha)*(1.0 - aspect_ratio)/(1.0 + np.sin(_alpha))] *)
Definition compute_cone_height (alpha k leading_edge : R) : R :=
  rnd (rnd (rnd (leading_edge * rnd (cos alpha)) * rnd (1 - k))
       / rnd (1 + rnd (sin alpha))).

(** [cone_height*(1.0 + np.sin(_alpha))/(np.cos(_alpha)*(1.0 - aspect_ratio))] *)
Definition compute_leading_edge (alpha k cone_height : R) : R :=
  rnd (rnd (cone_height * rnd (1 + rnd (sin alpha)))
       / rnd (rnd (cos alpha) * rnd (1 - k))).

End WithRounding.

End GCSRounded.

(** ** Example inputs *)

Module Examples.

Local Open Scope R_scope.

(** A valid geometry: half angle 0, aspect ratio 1/2, leading edge 2 and
    the cone height [2 * cos 0 * (1 - 1/2) / (1 + sin 0) = 1]. *)
Definition geometry0 : GCS.GCSGeometry :=
  GCS.mkGCSGeometry (Fin 0) (Fin (1 / 2)) (Fin 2) (Fin 1).

(** A valid geometry with half angle pi/4, aspect ratio 1/2 and leading
    edge 2. *)
Definition geometry_quarter : GCS.GCSGeometry :=
  GCS.mkGCSGeometry (Fin (PI / 4)) (Fin (1 / 2)) (Fin 2)
    (GCS.compute_cone_height (Fin (PI / 4)) (Fin (1 / 2)) (Fin 2)).

(** The model built from half angle 0, aspect ratio 1/2, leading edge 2,
    longitude 90 degrees, latitude 0 and tilt 0. *)
Definition model_90 : GCS.GCSModel :=
  GCS.mkGCSModel
    (GCS.mkGCSGeometry (Fin 0) (Fin (1 / 2)) (Fin 2)
       (GCS.compute_cone_height (Fin 0) (Fin (1 / 2)) (Fin 2)))
    (Fin (PI / 2)) (Fin 0) (Fin 0)
    (RotationTransform.x (Fin 0)) (RotationTransform.y (Fin 0))
    (RotationTransform.z (NP.add (NP.mul (NP.neg (Fin 0.5)) NP.pi) (Fin (PI / 2)))).

(** The same model after its longitude is set to 180 degrees and its
    latitude to 90 degrees. *)
Definition model_180_90 : GCS.GCSModel :=
  GCS.mkGCSModel (GCS.geometry model_90)
    (Fin PI) (Fin (PI / 2)) (Fin 0)
    (RotationTransform.x (Fin (PI / 2))) (RotationTransform.y (Fin 0))
    (RotationTransform.z (NP.add (NP.mul (NP.neg (Fin 0.5)) NP.pi) (Fin PI))).

Definition identity3 : RotationTransform.matrix :=
  [[Fin 1; Fin 0; Fin 0]; [Fin 0; Fin 1; Fin 0]; [Fin 0; Fin 0; Fin 1]].

(** A geometry outside the domain: aspect ratio 2, cone height 1. *)
Definition geometry_k2 : GCS.GCSGeometry :=
  GCS.mkGCSGeometry (Fin 0) (Fin 2) (Fin (-1)) (Fin 1).

(** Arrays as flat lists of integers, subtracted element by element when
    the lengths agree; the border of an array is the array. *)
Definition zarray : Type := list Z.

Fixpoint zsub (a b : zarray) : result zarray :=
  match a, b with
  | [], [] => Ok []
  | x :: a', y :: b' => r <- zsub a' b' ;; Ok ((x - y)%Z :: r)
  | _, _ => Raise (ValueError "operands could not be broadcast together")
  end.

Definition zborder (a : zarray) : result zarray := Ok a.

Definition zmin (a : zarray) : option npfloat :=
  match a with
  | [] => None
  | x :: a' => Some (Fin (IZR (fold_right Z.min x a')))
  end.

Definition zmax (a : zarray) : option npfloat :=
  match a with
  | [] => None
  | x :: a' => Some (Fin (IZR (fold_right Z.max x a')))
  end.

(** The face colour is summarised by the colormap it was computed with. *)
Definition zcolor : Type := option string.

Definition zmedian_rgba (c : option string) (lo hi : option npfloat)
    (a : zarray) : result zcolor := Ok c.

Definition zMap : Type := Plot.Map zarray.
Definition zContainer : Type := Plot.MapSequencePlotContainer zarray zcolor.

Definition zupdate_to_frame : zContainer -> Z -> result zContainer :=
  Plot.update_to_frame zsub zborder zmin zmax zmedian_rgba.

(** Two frames whose own colormaps differ, frame 0 on display with its
    colorbar, the colormap left at ["default"], no modifier enabled. *)
Definition two_frames : list zMap :=
  [Plot.mkMap [1; 2; 3]%Z "sdoaia171"; Plot.mkMap [4; 5; 6]%Z "soholasco2"].

Definition container0 : zContainer :=
  Plot.mkMapSequencePlotContainer two_frames
    (Plot.mkAxesImage [1; 2; 3]%Z (Some "sdoaia171"%string) None None)
    (Some "sdoaia171"%string)
    (Some (Plot.mkColorbar (Some "sdoaia171"%string) None None))
    Plot.ColorbarState__init__ 0%Z
    [Plot.DifferenceImageModifier__init__] false.

(** A modifier subtracting frame 0. *)
Definition fixed_difference0 : Plot.DifferenceImageModifier :=
  Plot.mkDifferenceImageModifier true (Some 0%Z).

Definition zcall : Plot.DifferenceImageModifier -> zarray -> zContainer
                   -> result zarray :=
  Plot.__call__ zsub (color := zcolor).

(** The two views of the time synchronisation example: A at 0, 10, 20 and
    30 seconds, B at 0, 7 and 22 seconds; A is active and shows frame 2. *)
Definition two_views : Jux.App :=
  Jux.mkApp [[0; 10; 20; 30]; [0; 7; 22]]%Z true 0 [2; 0]%Z [-1; -1]%Z [0; 0]%Z.

(** Three views, the second in running-difference mode with offset 1. *)
Definition three_views : Jux.App :=
  Jux.mkApp [[0; 10; 20; 30]; [0; 7; 22]; [0; 5; 19; 25]]%Z true 0
    [2; 0; 0]%Z [-1; 1; -1]%Z [0; 1; 0]%Z.

End Examples.

(** ** The state of a consistent geometry *)

Module GCSState.

Local Open Scope R_scope.

(** A geometry inside its domain whose two lengths satisfy the coupling
    [leading_edge = cone_height * (1 + sin(half_angle)) /
    (cos(half_angle) * (1 - aspect_ratio))]. *)
Definition coupled (g : GCS.GCSGeometry) : Prop :=
  exists alpha k L h,
    GCS.half_angle g = Fin alpha /\ GCS.aspect_ratio g = Fin k /\
    GCS.leading_edge g = Fin L /\ GCS.cone_height g = Fin h /\
    0 <= alpha < PI / 2 /\ 0 <= k < 1 /\
    L = GCSSpec.leading_edge_of alpha k h.

(** A setter call whose value is finite and inside the domain of its
    parameter; the three angles of the orientation take any value. *)
Definition in_domain (c : GCS.call) : Prop :=
  match c with
  | GCS.SetHalfAngle v => exists a, v = Fin a /\ 0 <= a < PI / 2
  | GCS.SetAspectRatio v => exists k, v = Fin k /\ 0 <= k < 1
  | GCS.SetLeadingEdge v => exists L, v = Fin L
  | GCS.SetConeHeight v => exists h, v = Fin h
  | GCS.SetLongitude _ | GCS.SetLatitude _ | GCS.SetTilt _ => True
  end.


End GCSState.

(** ** numpy array operations used by the samplers *)

Module Arrays.

(** [m.T] of a two-dimensional array. *)
Definition transpose (m : RotationTransform.matrix) : RotationTransform.matrix :=
  map (fun j => RotationTransform.column j m) (seq 0 (RotationTransform.ncols m)).

(** [np.dot(points, tmatrix.T)]: every row of [points] is rotated by
    [tmatrix]. *)
Definition rotate (points t : RotationTransform.matrix)
  : result RotationTransform.matrix :=
  RotationTransform.dot points (transpose t).

End Arrays.

(** ** [crest/utils/geometry.py]: circle *)

Module Geometry.

Local Open Scope np_scope.

Definition vec3 : Type := GCS.vec3.

(** [np.abs] of a float. *)
Definition absolute (a : npfloat) : npfloat :=
  match a with
  | Fin x => Fin (Rabs x)
  | Inf _ => Inf false
  | NaN => NaN
  end.

(** [np.linalg.norm] of a vector of three components. *)
Definition norm (v : vec3) : npfloat :=
  let '(x, y, z) := v in NP.sqrt (x * x + y * y + z * z).

(** [v *= s] *)
Definition scale (v : vec3) (s : npfloat) : vec3 :=
  let '(x, y, z) := v in (x * s, y * s, z * s).

(** [np.cross(a, b)] *)
Definition cross (a b : vec3) : vec3 :=
  let '(a0, a1, a2) := a in
  let '(b0, b1, b2) := b in
  (a1 * b2 - a2 * b1, a2 * b0 - a0 * b2, a0 * b1 - a1 * b0).

(** [np.linspace(start, stop, num, endpoint=endpoint)]: [num] samples
    [start + i * step] with [step = (stop - start) / div], where [div] is
    [num - 1] with the end point and [num] without it; with [div = 0] the
    samples are [start + i * (stop - start)]; with the end point and more
    than one sample the last sample is set to [stop].  (For a zero step
    numpy computes [(i / div) * (stop - start)], the same value.) *)
Definition set_last (l : list npfloat) (v : npfloat) : list npfloat :=
  match l with
  | [] => []
  | _ :: _ => removelast l ++ [v]
  end.

Definition linspace (start stop : npfloat) (num : nat) (endpoint : bool)
  : list npfloat :=
  let div := if endpoint then Nat.pred num else num in
  let delta := stop - start in
  let y := map (fun i =>
                  if Nat.ltb 0 div
                  then Fin (INR i) * (delta / Fin (INR div)) + start
                  else Fin (INR i) * delta + start)
               (seq 0 num) in
  if endpoint && Nat.ltb 1 num then set_last y stop else y.

(** A vector of three finite components. *)
Definition finite (v : R * R * R) : vec3 :=
  let '(x, y, z) := v in (Fin x, Fin y, Fin z).

(** The second axis of the basis before it is normalised: the given
    [perp], or a vector orthogonal to [e_1] built from the x axis, or from
    the y axis when [e_1] is close to the x axis. *)
Definition second_axis (e_1 : vec3) (perp : option vec3) : vec3 :=
  match perp with
  | None =>
      let '(e_10, e_11, e_12) := e_1 in
      if NP.gt (absolute e_10) (Fin 0.9)
      then (- e_12, Fin 0, e_10)
      else (Fin 0, e_12, - e_11)
  | Some perp => perp
  end.

(** One row of [center + np.outer(a, e_2) + np.outer(b, e_3)]. *)
Definition row (center : vec3) (a : npfloat) (e_2 : vec3) (b : npfloat)
    (e_3 : vec3) : vec3 :=
  let '(c0, c1, c2) := center in
  let '(e_20, e_21, e_22) := e_2 in
  let '(e_30, e_31, e_32) := e_3 in
  (c0 + a * e_20 + b * e_30, c1 + a * e_21 + b * e_31, c2 + a * e_22 + b * e_32).

(** [circle(center, normal, radius, num_points, end_point, perp, toffset)] *)
Definition circle (center normal : vec3) (radius : npfloat) (num_points : nat)
    (end_point : bool) (perp : option vec3) (toffset : npfloat) : list vec3 :=
  let e_1 := normal in
  let e_1 := scale e_1 (Fin 1 / norm e_1) in
  let e_2 := second_axis e_1 perp in
  let e_2 := scale e_2 (Fin 1 / norm e_2) in
  let e_3 := cross e_1 e_2 in
  let theta :=
    map (fun t => toffset + t)
        (linspace (Fin 0) (Fin 2 * NP.pi) num_points end_point) in
  map (fun t => row center (radius * NP.cos t) e_2 (radius * NP.sin t) e_3)
      theta.

End Geometry.

(** ** [crest/models/gcs.py]: the samplers of GraduatedCylindricalShell *)

Module Sampler.

Local Open Scope np_scope.

(** [np.atan] *)
Definition arctan (a : npfloat) : npfloat :=
  match a with
  | Fin x => Fin (atan x)
  | Inf false => Fin (PI / 2)
  | Inf true => Fin (- (PI / 2))
  | NaN => NaN
  end.

(** A quantity in radians read in degrees, and a number of degrees read in
    radians. *)
Definition to_deg (a : npfloat) : npfloat := a * Fin (180 / PI).
Definition to_rad (a : npfloat) : npfloat := a * Fin (PI / 180).

(** Running a fallible function over a list, as a [for] loop that appends
    each result does. *)
Fixpoint for_each {A B : Type} (f : A -> result B) (l : list A)
  : result (list B) :=
  match l with
  | [] => Ok []
  | a :: l' => b <- f a ;; bs <- for_each f l' ;; Ok (b :: bs)
  end.

Definition as_row (p : Geometry.vec3) : list npfloat :=
  let '(x, y, z) := p in [x; y; z].

Section WithSun.

(** [astropy.constants.R_sun], expressed in the unit of the model's
    lengths: the quotient [xi] is a pure number. *)
Variable R_sun : npfloat.

(** [(180.0/np.pi)*np.atan(xi.value) + half_angle_deg] with
    [xi = (self.model.h - R_sun)/self.model.rho]. *)
Definition surface_angle_deg (g : GCS.GCSGeometry) : npfloat :=
  let half_angle_deg := to_deg (GCS.half_angle g) in
  let xi := (GCS.h g - R_sun) / GCS.rho g in
  Fin 180 / NP.pi * arctan xi + half_angle_deg.

(** [points]: 54 cross sections between [-surface_angle] and
    [180 + surface_angle] degrees, 38 points on each, all rotated by
    [tmatrix]. *)
Definition points (m : GCS.GCSModel) : result RotationTransform.matrix :=
  let g := GCS.geometry m in
  let surface_angle_deg := surface_angle_deg g in
  points <-
    for_each
      (fun beta =>
         csn <- GCS.cross_section_circle g (to_rad beta) ;;
         let '(_center, _radius, _normal) := csn in
         Ok (Geometry.circle _center _normal _radius 38 false
               (Some (Fin 0, Fin 0, Fin 1)) (Fin 0)))
      (Geometry.linspace (- surface_angle_deg) (Fin 180 + surface_angle_deg)
         54 true) ;;
  t <- GCS.tmatrix m ;;
  Arrays.rotate (map as_row (List.concat points)) t.

(** [outline]: 64 cross sections over the same range, 8 points on each,
    the circle of azimuth [beta] starting at the angle [beta]; curve [j]
    joins point [j] of every circle, and every curve is rotated by
    [tmatrix]. *)
Definition outline (m : GCS.GCSModel)
  : result (list RotationTransform.matrix) :=
  let g := GCS.geometry m in
  let surface_angle_deg := surface_angle_deg g in
  let curve_count := 64%nat in
  let circle_point_count := 8%nat in
  poloidal <-
    for_each
      (fun beta =>
         csn <- GCS.cross_section_circle g (to_rad beta) ;;
         let '(_center, _radius, _normal) := csn in
         Ok (Geometry.circle _center _normal _radius circle_point_count false
               (Some (Fin 0, Fin 0, Fin 1)) (beta * NP.pi / Fin 180)))
      (Geometry.linspace (- surface_angle_deg) (Fin 180 + surface_angle_deg)
         curve_count true) ;;
  let poloidal :=
    map (fun j => map (fun _circle => as_row (nth j _circle (NaN, NaN, NaN)))
                      poloidal)
        (seq 0 circle_point_count) in
  for_each (fun p => t <- GCS.tmatrix m ;; Arrays.rotate p t) poloidal.

End WithSun.

End Sampler.

(** ** [crest/apps/jux.py]: DifferenceController *)

Module Controller.

Local Open Scope Z_scope.

(** [sub in s] on strings. *)
Definition contains (sub s : string) : bool :=
  match String.index 0 sub s with
  | Some _ => true
  | None => false
  end.

Definition set_running_difference_offset (app : Jux.App) (pidx : nat) (v : Z)
  : Jux.App :=
  Jux.mkApp (Jux.datetimes app) (Jux.sync_plots app) (Jux.active_plot app)
    (Jux.frames app) (Jux.difference_frames app)
    (Jux.set_item (Jux.running_difference_offsets app) pidx v).

(** The widgets of the controller: the slider reads the difference frame,
    the number of frames and the offset of the plot; the time of the
    difference frame is looked up when that frame is not negative. *)
Definition widgets (app : Jux.App) (idx : nat) (mode : string) : result unit :=
  if negb (String.eqb mode "None") then
    difference_frame <- Jux.item (Jux.difference_frames app) idx ;;
    _ <- Jux.item (Jux.num_frames app) idx ;;
    _ <- Jux.item (Jux.running_difference_offsets app) idx ;;
    if 0 <=? difference_frame then
      dts <- Jux.item (Jux.datetimes app) idx ;;
      _datetime <- py_getitem dts difference_frame ;;
      Ok tt
    else Ok tt
  else Ok tt.

(** One rendering of [DifferenceController]: the reactive values it leaves
    behind.  [image_modifiers] holds the mode chosen for each plot. *)
Definition DifferenceController (app : Jux.App) (image_modifiers : list string)
  : result Jux.App :=
  let idx := Jux.active_plot app in
  mode <- Jux.item image_modifiers idx ;;
  _ <- widgets app idx mode ;;
  if String.eqb mode "None" then
    _ <- Jux.item (Jux.running_difference_offsets app) idx ;;
    let app := set_running_difference_offset app idx 0 in
    difference_frame <- Jux.item (Jux.difference_frames app) idx ;;
    if negb (difference_frame =? -1)
    then Ok (Jux.set_difference_frame app idx (-1))
    else Ok app
  else if contains "Fixed" mode then
    _ <- Jux.item (Jux.running_difference_offsets app) idx ;;
    Ok (set_running_difference_offset app idx 0)
  else
    offset <- Jux.item (Jux.running_difference_offsets app) idx ;;
    let app := if offset =? 0
               then set_running_difference_offset app idx 1
               else app in
    offset <- Jux.item (Jux.running_difference_offsets app) idx ;;
    frame <- Jux.item (Jux.frames app) idx ;;
    let target := frame + offset in
    nf <- Jux.item (Jux.num_frames app) idx ;;
    let target := Z.max 0 (Z.min target (nf - 1)) in
    difference_frame <- Jux.item (Jux.difference_frames app) idx ;;
    if negb (difference_frame =? target)
    then Ok (Jux.set_difference_frame app idx target)
    else Ok app.

(** The offset a rendering in running-difference mode works with. *)
Definition running_offset (offset : Z) : Z := if offset =? 0 then 1 else offset.

(** The offset and the difference frame of the active plot after one
    rendering, by mode. *)
Definition next_offset (mode : string) (offset : Z) : Z :=
  if String.eqb mode "None" then 0
  else if contains "Fixed" mode then 0
  else running_offset offset.

Definition next_difference_frame (mode : string)
    (frame difference_frame offset nf : Z) : Z :=
  if String.eqb mode "None" then -1
  else if contains "Fixed" mode then difference_frame
  else Z.max 0 (Z.min (frame + running_offset offset) (nf - 1)).

End Controller.

(** ** [crest/components/plot/map_sequence/ui.py]: update *)

Module PlotUI.

Local Open Scope Z_scope.

Section Update.

Variable ndarray : Type.
Variable nd_sub : ndarray -> ndarray -> result ndarray.
Variable nd_border : ndarray -> result ndarray.
Variable nd_min nd_max : ndarray -> option npfloat.
Variable color : Type.
Variable median_rgba :
  option string -> option npfloat -> option npfloat -> ndarray -> result color.

(** The container after [update] has written the difference frame into
    its first modifier and the colormap and limits into its colorbar
    state. *)
Definition configure (plot : Plot.MapSequencePlotContainer ndarray color)
    (difference_frame : Z) (vmin vmax : option npfloat) (cmap : option string)
  : result (Plot.MapSequencePlotContainer ndarray color) :=
  if Nat.ltb 1 (List.length (Plot.modifiers plot))
  then Raise (ValueError "Currently only a single modifier is supported")
  else
    match Plot.modifiers plot with
    | [] => Raise IndexError
    | modifier :: rest =>
        let modifier :=
          Plot.mkDifferenceImageModifier (0 <=? difference_frame)
            (Plot._reference_frame modifier) in
        let modifier :=
          Plot.mkDifferenceImageModifier (Plot._is_enabled modifier)
            (Some difference_frame) in
        Ok (Plot.mkMapSequencePlotContainer (Plot.map_sequence plot)
              (Plot.im plot) (Plot.ax_facecolor plot) (Plot.cbar plot)
              (Plot.mkColorbarState cmap vmin vmax)
              (Plot.current_frame_index plot) (modifier :: rest)
              (Plot.draw_pending plot))
    end.

(** [update] of [MapSequencePlotUIWithFrame] *)
Definition update (plot : Plot.MapSequencePlotContainer ndarray color)
    (frame difference_frame : Z) (vmin vmax : option npfloat)
    (cmap : option string)
  : result (Plot.MapSequencePlotContainer ndarray color) :=
  plot <- configure plot difference_frame vmin vmax cmap ;;
  Plot.update_to_frame nd_sub nd_border nd_min nd_max median_rgba plot frame.

End Update.

End PlotUI.

(** ** The mirror image of a cross section *)

Module Symmetry.

(** The reflection of a point in the plane [x = 0]. *)
Definition reflect (p : GCS.vec3) : GCS.vec3 :=
  let '(x, y, z) := p in (NP.neg x, y, z).

Definition opposite (p : GCS.vec3) : GCS.vec3 :=
  let '(x, y, z) := p in (NP.neg x, NP.neg y, NP.neg z).

(** The circle reflected in the plane [x = 0]: its centre is reflected, its
    radius is kept; its plane is the reflected plane, here with the normal
    that points the other way. *)
Definition mirror (csn : GCS.vec3 * npfloat * GCS.vec3)
  : GCS.vec3 * npfloat * GCS.vec3 :=
  let '(center, radius, normal) := csn in
  (reflect center, radius, opposite (reflect normal)).

End Symmetry.

(** * Properties *)

Unset Implicit Arguments.

(** ** The result monad and Python indexing *)

Module ResultFacts.

Local Open Scope Z_scope.

Lemma bind_Ok {A B : Type} (m : result A) (f : A -> result B) (b : B) :
  bind m f = Ok b -> exists a, m = Ok a /\ f a = Ok b.
Proof.
  destruct m as [a | e]; cbn; intros H; [| discriminate].
  exists a. split; [reflexivity | exact H].
Qed.

Lemma py_getitem_nonneg {A : Type} (l : list A) (i : Z) (a : A) :
  0 <= i -> py_getitem l i = Ok a -> nth_error l (Z.to_nat i) = Some a.
Proof.
  intros Hi. unfold py_getitem.
  destruct (i <? 0) eqn:E; [apply Z.ltb_lt in E; lia |].
  destruct ((0 <=? i) && (i <? Z.of_nat (List.length l)))%bool; [| discriminate].
  destruct (nth_error l (Z.to_nat i)); [| discriminate].
  intros H. inversion H. reflexivity.
Qed.

Lemma py_getitem_beyond {A : Type} (l : list A) (i : Z) :
  Z.of_nat (List.length l) <= i -> py_getitem l i = Raise IndexError.
Proof.
  intros Hi. unfold py_getitem.
  destruct (i <? 0) eqn:E; [apply Z.ltb_lt in E; lia |].
  destruct (i <? Z.of_nat (List.length l)) eqn:E2; [apply Z.ltb_lt in E2; lia |].
  rewrite andb_false_r. reflexivity.
Qed.

End ResultFacts.

(** ** numpy floats on finite values *)

Module NPFacts.

Local Open Scope R_scope.

Lemma Reqb_true (x y : R) : x = y -> Reqb x y = true.
Proof. intros H. unfold Reqb. destruct (Req_dec_T x y); [reflexivity | contradiction]. Qed.

Lemma Reqb_false (x y : R) : x <> y -> Reqb x y = false.
Proof. intros H. unfold Reqb. destruct (Req_dec_T x y); [contradiction | reflexivity]. Qed.

Lemma Rltb_true (x y : R) : x < y -> Rltb x y = true.
Proof. intros H. unfold Rltb. destruct (Rlt_dec x y); [reflexivity | contradiction]. Qed.

Lemma Rltb_false (x y : R) : y <= x -> Rltb x y = false.
Proof. intros H. unfold Rltb. destruct (Rlt_dec x y); [lra | reflexivity]. Qed.

Lemma Rleb_true (x y : R) : x <= y -> Rleb x y = true.
Proof. intros H. unfold Rleb. destruct (Rle_dec x y); [reflexivity | contradiction]. Qed.

Lemma Rleb_false (x y : R) : y < x -> Rleb x y = false.
Proof. intros H. unfold Rleb. destruct (Rle_dec x y); [lra | reflexivity]. Qed.

Lemma add_Fin (x y : R) : NP.add (Fin x) (Fin y) = Fin (x + y).
Proof. reflexivity. Qed.

Lemma sub_Fin (x y : R) : NP.sub (Fin x) (Fin y) = Fin (x - y).
Proof. reflexivity. Qed.

Lemma mul_Fin (x y : R) : NP.mul (Fin x) (Fin y) = Fin (x * y).
Proof. reflexivity. Qed.

Lemma neg_Fin (x : R) : NP.neg (Fin x) = Fin (- x).
Proof. reflexivity. Qed.

Lemma div_Fin (x y : R) : y <> 0 -> NP.div (Fin x) (Fin y) = Fin (x / y).
Proof. intros H. unfold NP.div. rewrite (Reqb_false _ _ H). reflexivity. Qed.

Lemma div_zero (x : R) : x <> 0 -> NP.div (Fin x) (Fin 0) = Inf (Rltb x 0).
Proof.
  intros H. unfold NP.div.
  rewrite (Reqb_true _ _ (eq_refl 0)), (Reqb_false _ _ H). reflexivity.
Qed.

Lemma sin_Fin (x : R) : NP.sin (Fin x) = Fin (sin x).
Proof. reflexivity. Qed.

Lemma cos_Fin (x : R) : NP.cos (Fin x) = Fin (cos x).
Proof. reflexivity. Qed.

Lemma tan_Fin (x : R) : cos x <> 0 -> NP.tan (Fin x) = Fin (tan x).
Proof. intros H. unfold NP.tan. rewrite sin_Fin, cos_Fin, (div_Fin _ _ H). reflexivity. Qed.

Lemma sqrt_Fin (x : R) : 0 <= x -> NP.sqrt (Fin x) = Fin (sqrt x).
Proof. intros H. unfold NP.sqrt. rewrite (Rltb_false _ _ H). reflexivity. Qed.

Lemma sqrt_negative (x : R) : x < 0 -> NP.sqrt (Fin x) = NaN.
Proof. intros H. unfold NP.sqrt. rewrite (Rltb_true _ _ H). reflexivity. Qed.

Create Rewrite HintDb npfin.
#[global] Hint Rewrite add_Fin sub_Fin mul_Fin neg_Fin sin_Fin cos_Fin : npfin.

End NPFacts.

(** ** GCS.GCSGeometry: the coupled pair leading edge / cone height *)

Module GCSFacts.

Import NPFacts.
Local Open Scope R_scope.

Lemma cos_half_angle_pos (alpha : R) : 0 <= alpha < PI / 2 -> 0 < cos alpha.
Proof. intros [H0 H1]. apply cos_gt_0; lra. Qed.

Lemma sin_half_angle_nonneg (alpha : R) : 0 <= alpha < PI / 2 -> 0 <= sin alpha.
Proof. intros [H0 H1]. apply sin_ge_0; [lra | pose proof PI_RGT_0; lra]. Qed.

(** The cone height the code derives from a finite leading edge. *)
Lemma compute_cone_height_Fin (alpha k L : R) :
  1 + sin alpha <> 0 ->
  GCS.compute_cone_height (Fin alpha) (Fin k) (Fin L)
  = Fin (L * cos alpha * (1 - k) / (1 + sin alpha)).
Proof.
  intros H. unfold GCS.compute_cone_height.
  autorewrite with npfin. rewrite (div_Fin _ _ H). reflexivity.
Qed.

(** The leading edge the code derives from a finite cone height. *)
Lemma compute_leading_edge_Fin (alpha k h : R) :
  cos alpha * (1 - k) <> 0 ->
  GCS.compute_leading_edge (Fin alpha) (Fin k) (Fin h)
  = Fin (h * (1 + sin alpha) / (cos alpha * (1 - k))).
Proof.
  intros H. unfold GCS.compute_leading_edge.
  autorewrite with npfin. rewrite (div_Fin _ _ H). reflexivity.
Qed.


(** The example geometries are what the constructor builds. *)
Example geometry0_is_constructed :
  GCS.__init__ (Fin 0) (Fin (1 / 2)) (Some (Fin 2)) None
  = Ok Examples.geometry0.
Proof.
  unfold GCS.__init__, GCS.leading_edge_setter, GCS.with_cone_height,
    GCS.with_leading_edge, GCS.half_angle, GCS.aspect_ratio.
  cbn [GCS._half_angle GCS._aspect_ratio GCS._leading_edge GCS._cone_height].
  rewrite compute_cone_height_Fin by (rewrite sin_0; lra).
  unfold Examples.geometry0. do 3 f_equal. rewrite cos_0, sin_0. field.
Qed.

Example geometry_k2_is_constructed :
  GCS.__init__ (Fin 0) (Fin 2) None (Some (Fin 1)) = Ok Examples.geometry_k2.
Proof.
  unfold GCS.__init__, GCS.cone_height_setter, GCS.with_cone_height,
    GCS.with_leading_edge, GCS.half_angle, GCS.aspect_ratio.
  cbn [GCS._half_angle GCS._aspect_ratio GCS._leading_edge GCS._cone_height].
  rewrite compute_leading_edge_Fin by (rewrite cos_0; lra).
  unfold Examples.geometry_k2. f_equal. f_equal. f_equal.
  rewrite cos_0, sin_0. field.
Qed.



(** The cone height is not kept: on the valid geometry with half angle 0,
    aspect ratio 1/2, leading edge 2 and cone height 1, setting the aspect
    ratio to 0 gives the cone height 2. *)
Lemma aspect_ratio_setter_changes_cone_height :
  exists self',
    GCS.aspect_ratio_setter Examples.geometry0 (Fin 0) = Ok self' /\
    GCS.leading_edge self' = Fin 2 /\ GCS.cone_height self' = Fin 2 /\
    GCS.cone_height Examples.geometry0 = Fin 1.
Proof.
  eexists. split; [reflexivity |]. repeat split.
  unfold GCS.cone_height. simpl.
  rewrite compute_cone_height_Fin by (rewrite sin_0; lra).
  f_equal. rewrite cos_0, sin_0. field.
Qed.

(** Setting the aspect ratio to 1 on a valid geometry is accepted. *)
Lemma aspect_ratio_one_is_accepted :
  GCS.aspect_ratio_setter Examples.geometry0 (Fin 1)
  = Ok (GCS.mkGCSGeometry (Fin 0) (Fin 1) (Fin 2) (Fin 0)) /\
  ~ raises (GCS.aspect_ratio_setter Examples.geometry0 (Fin 1)).
Proof.
  assert (E : GCS.aspect_ratio_setter Examples.geometry0 (Fin 1)
              = Ok (GCS.mkGCSGeometry (Fin 0) (Fin 1) (Fin 2) (Fin 0))).
  { unfold GCS.aspect_ratio_setter, GCS.leading_edge_setter. simpl.
    unfold GCS.with_cone_height, GCS.half_angle, GCS.aspect_ratio. simpl.
    rewrite compute_cone_height_Fin by (rewrite sin_0; lra).
    do 3 f_equal. rewrite cos_0, sin_0. field. }
  split; [exact E |]. intros [e He]. rewrite E in He. discriminate.
Qed.

(** C7 (as the code has it).  The setter of [aspect_ratio] checks no
    domain: for any value it returns normally, stores the value, keeps the
    leading edge and recomputes the cone height.  With a half angle in
    [0, pi/2) and a finite leading edge, the cone height recomputed for the
    aspect ratio 1 is 0, so the pair stays finite; the division by zero of
    the invariant only shows when the cone height is then set, and yields an
    infinite leading edge, again without an error. *)
Theorem aspect_ratio_setter_has_no_domain_check
    (self : GCS.GCSGeometry) (value : npfloat) (alpha L h : R) :
  GCS.half_angle self = Fin alpha ->
  GCS.leading_edge self = Fin L ->
  0 <= alpha < PI / 2 ->
  0 < h ->
  exists self',
    GCS.aspect_ratio_setter self value = Ok self' /\
    GCS.aspect_ratio self' = value /\
    GCS.leading_edge self' = Fin L /\
    GCS.cone_height self' = GCS.compute_cone_height (Fin alpha) value (Fin L) /\
    GCS.compute_cone_height (Fin alpha) (Fin 1) (Fin L) = Fin 0 /\
    GCS.compute_leading_edge (Fin alpha) (Fin 1) (Fin h) = Inf false.
Proof.
  intros Ha HL Halpha Hh.
  pose proof (cos_half_angle_pos _ Halpha) as Hc.
  pose proof (sin_half_angle_nonneg _ Halpha) as Hs.
  destruct self as [a r l c]. unfold GCS.half_angle, GCS.leading_edge in Ha, HL.
  simpl in Ha, HL. subst a l.
  eexists. split; [reflexivity |]. repeat split.
  - rewrite compute_cone_height_Fin by lra. f_equal. field. lra.
  - unfold GCS.compute_leading_edge. autorewrite with npfin.
    replace (cos alpha * (1 - 1)) with 0 by ring.
    rewrite div_zero by nra. f_equal. apply Rltb_false. nra.
Qed.

Lemma aspect_ratio_setter_has_no_domain_check_witness :
  exists self',
    GCS.aspect_ratio_setter Examples.geometry0 (Fin 1) = Ok self' /\
    GCS.aspect_ratio self' = Fin 1 /\
    GCS.leading_edge self' = Fin 2 /\
    GCS.cone_height self' = GCS.compute_cone_height (Fin 0) (Fin 1) (Fin 2) /\
    GCS.compute_cone_height (Fin 0) (Fin 1) (Fin 2) = Fin 0 /\
    GCS.compute_leading_edge (Fin 0) (Fin 1) (Fin 1) = Inf false.
Proof.
  apply (aspect_ratio_setter_has_no_domain_check Examples.geometry0 (Fin 1) 0 2 1).
  - reflexivity.
  - reflexivity.
  - pose proof PI_RGT_0. lra.
  - lra.
Defined.

(** ** GCSGeometry: the cross section *)

Section FiniteGeometry.

Variables (self : GCS.GCSGeometry) (alpha k h : R).
Hypothesis Hhalf_angle : GCS.half_angle self = Fin alpha.
Hypothesis Haspect_ratio : GCS.aspect_ratio self = Fin k.
Hypothesis Hcone_height : GCS.cone_height self = Fin h.
Hypothesis Hcos : cos alpha <> 0.
Hypothesis Hk : k² <> 1.

Lemma rho_Fin : GCS.rho self = Fin (GCSSpec.rho alpha h).
Proof.
  unfold GCS.rho, GCS.h. fold (GCS.cone_height self).
  rewrite Hcone_height, Hhalf_angle, (tan_Fin _ Hcos). reflexivity.
Qed.

Lemma b_Fin : GCS.b self = Fin (GCSSpec.b alpha h).
Proof.
  unfold GCS.b, GCS.h. fold (GCS.cone_height self).
  rewrite Hcone_height, Hhalf_angle, cos_Fin, (div_Fin _ _ Hcos). reflexivity.
Qed.

Lemma one_minus_k_sqr : 1 - k * k <> 0.
Proof. unfold Rsqr in Hk. lra. Qed.

(** The code's [X0] is the closed form of the specification. *)
Lemma X0_Fin (beta : R) :
  GCS.X0 self (Fin beta) = Ok (Fin (GCSSpec.X0 alpha k h beta)).
Proof.
  unfold GCS.X0. rewrite rho_Fin, b_Fin, Haspect_ratio.
  autorewrite with npfin. rewrite (div_Fin _ _ one_minus_k_sqr).
  reflexivity.
Qed.

(** The code's [R] is [np.sqrt] of the closed form of the specification. *)
Lemma R_Fin (beta : R) :
  GCS.R self (Fin beta) = Ok (NP.sqrt (Fin (GCSSpec.R_sqr alpha k h beta))).
Proof.
  unfold GCS.R. rewrite X0_Fin. cbn [bind].
  rewrite rho_Fin, b_Fin, Haspect_ratio.
  autorewrite with npfin. rewrite (div_Fin _ _ one_minus_k_sqr).
  autorewrite with npfin. do 3 f_equal.
  unfold GCSSpec.R_sqr, Rsqr. field. exact one_minus_k_sqr.
Qed.

(** The closed form of [R^2] is a sum of squares over [(1 - k^2)^2] times
    [k^2 b^2]. *)
Lemma R_sqr_factored (beta : R) :
  GCSSpec.R_sqr alpha k h beta
  = (GCSSpec.b alpha h)² * k²
    * ((sin alpha + sin beta)² + (1 - k²) * (cos beta)²) / (1 - k²)².
Proof.
  pose proof one_minus_k_sqr as Hq.
  pose proof (sin2_cos2 beta) as Hsc.
  unfold GCSSpec.R_sqr, GCSSpec.X0, GCSSpec.rho, GCSSpec.b, tan, Rsqr in *.
  replace (cos beta * cos beta) with (1 - sin beta * sin beta) by lra.
  field. split; assumption.
Qed.

Lemma R_sqr_nonneg (beta : R) : k² < 1 -> 0 <= GCSSpec.R_sqr alpha k h beta.
Proof.
  intros Hlt. rewrite R_sqr_factored.
  apply Rmult_le_pos.
  - apply Rmult_le_pos.
    + apply Rmult_le_pos; apply Rle_0_sqr.
    + apply Rplus_le_le_0_compat; [apply Rle_0_sqr |].
      apply Rmult_le_pos; [lra | apply Rle_0_sqr].
  - apply Rlt_le, Rinv_0_lt_compat. apply Rlt_0_sqr. lra.
Qed.

End FiniteGeometry.

(** The three tests on finite angles. *)
Lemma in_rhs_leg_Fin (alpha beta : R) :
  GCS.in_rhs_leg (Fin alpha) (Fin beta)
  = Rleb (- (0.5) * PI) beta && Rleb beta (- alpha).
Proof. reflexivity. Qed.

Lemma in_lhs_leg_Fin (alpha beta : R) :
  GCS.in_lhs_leg (Fin alpha) (Fin beta)
  = Rleb (PI + alpha) beta && Rleb beta (3 * PI / 2).
Proof.
  unfold GCS.in_lhs_leg, NP.pi. autorewrite with npfin.
  rewrite div_Fin by lra. reflexivity.
Qed.

Lemma in_curved_section_Fin (alpha beta : R) :
  GCS.in_curved_section (Fin alpha) (Fin beta)
  = Rltb (- alpha) beta && Rltb beta (PI + alpha).
Proof. reflexivity. Qed.

Ltac decide_reals :=
  unfold Rleb, Rltb;
  repeat match goal with
         | |- context [Rle_dec ?x ?y] => destruct (Rle_dec x y)
         | |- context [Rlt_dec ?x ?y] => destruct (Rlt_dec x y)
         end;
  simpl.



(** On the geometry with aspect ratio 2 the closed form of [R^2] at
    [beta = 0] is [-4/3], and [R] returns NaN. *)
Lemma R_returns_NaN_without_error :
  GCSSpec.R_sqr 0 2 1 0 < 0 /\
  GCS.R Examples.geometry_k2 (Fin 0) = Ok NaN /\
  ~ raises (GCS.R Examples.geometry_k2 (Fin 0)).
Proof.
  assert (Hneg : GCSSpec.R_sqr 0 2 1 0 < 0).
  { unfold GCSSpec.R_sqr, GCSSpec.X0, GCSSpec.rho, GCSSpec.b, tan, Rsqr.
    rewrite sin_0, cos_0. lra. }
  assert (E : GCS.R Examples.geometry_k2 (Fin 0) = Ok NaN).
  { rewrite (R_Fin Examples.geometry_k2 0 2 1); try reflexivity.
    - rewrite (sqrt_negative _ Hneg). reflexivity.
    - rewrite cos_0. lra.
    - unfold Rsqr. lra. }
  split; [exact Hneg |]. split; [exact E |].
  intros [e He]. rewrite E in He. discriminate.
Qed.

(** C8 (as the code has it).  [R] has no guard: on a state with finite
    parameters where the closed form of [R^2] is negative it raises nothing
    and returns NaN. *)
Theorem R_of_negative_square_is_NaN
    (self : GCS.GCSGeometry) (alpha k h beta : R) :
  GCS.half_angle self = Fin alpha ->
  GCS.aspect_ratio self = Fin k ->
  GCS.cone_height self = Fin h ->
  cos alpha <> 0 ->
  k² <> 1 ->
  GCSSpec.R_sqr alpha k h beta < 0 ->
  GCS.R self (Fin beta) = Ok NaN.
Proof.
  intros Ha Hr Hh Hcos Hk Hneg.
  rewrite (R_Fin self alpha k h Ha Hr Hh Hcos Hk beta).
  rewrite (sqrt_negative _ Hneg). reflexivity.
Qed.

Lemma R_of_negative_square_is_NaN_witness :
  GCS.R Examples.geometry_k2 (Fin 0) = Ok NaN.
Proof.
  apply (R_of_negative_square_is_NaN Examples.geometry_k2 0 2 1 0).
  - reflexivity.
  - reflexivity.
  - reflexivity.
  - rewrite cos_0. lra.
  - unfold Rsqr. lra.
  - unfold GCSSpec.R_sqr, GCSSpec.X0, GCSSpec.rho, GCSSpec.b, tan, Rsqr.
    rewrite sin_0, cos_0. lra.
Defined.

(** Inside the domain the closed form is never negative in exact
    arithmetic, whatever [beta]: there [R] returns a finite radius. *)
Lemma R_is_finite_inside_the_domain
    (self : GCS.GCSGeometry) (alpha k h beta : R) :
  GCS.half_angle self = Fin alpha ->
  GCS.aspect_ratio self = Fin k ->
  GCS.cone_height self = Fin h ->
  0 <= alpha < PI / 2 ->
  0 <= k < 1 ->
  GCS.R self (Fin beta) = Ok (Fin (sqrt (GCSSpec.R_sqr alpha k h beta))).
Proof.
  intros Ha Hr Hh Halpha Hk.
  pose proof (cos_half_angle_pos _ Halpha) as Hc.
  assert (Hcos : cos alpha <> 0) by lra.
  assert (Hlt : k² < 1) by (unfold Rsqr; nra).
  assert (Hk1 : k² <> 1) by lra.
  rewrite (R_Fin self alpha k h Ha Hr Hh Hcos Hk1 beta).
  rewrite sqrt_Fin by (apply (R_sqr_nonneg alpha k h Hcos Hk1 beta Hlt)).
  reflexivity.
Qed.

(** [R] and [X0] have no [raise]: they return on every input. *)
Lemma R_returns (self : GCS.GCSGeometry) (beta : npfloat) :
  exists r, GCS.R self beta = Ok r.
Proof. unfold GCS.R, GCS.X0. cbn [bind]. eexists. reflexivity. Qed.

Lemma curved_branch_returns (self : GCS.GCSGeometry) (beta : npfloat) :
  GCS.in_rhs_leg (GCS.half_angle self) beta = false ->
  GCS.in_lhs_leg (GCS.half_angle self) beta = false ->
  GCS.in_curved_section (GCS.half_angle self) beta = true ->
  exists r, GCS.cross_section_circle self beta = Ok r.
Proof.
  intros H1 H2 H3. unfold GCS.cross_section_circle.
  rewrite H1, H2, H3. unfold GCS.R, GCS.X0. cbn [bind].
  eexists. reflexivity.
Qed.

(** C2.  With a half angle in (0, pi/2) the three tests of
    [cross_section_circle] hold exactly on [-pi/2, -half_angle] (right
    leg), [(-half_angle, pi + half_angle)] (curved cap) and
    [pi + half_angle, 3 pi/2] (left leg).  For [beta] in [-pi/2, 3 pi/2]
    exactly one of them holds and the function returns; for [beta] below
    [-pi/2] or above [3 pi/2] none holds and the function raises the
    [ValueError] for an unexpected angle. *)
Theorem cross_section_branches
    (self : GCS.GCSGeometry) (alpha beta : R) :
  GCS.half_angle self = Fin alpha ->
  0 < alpha < PI / 2 ->
  let rhs := GCS.in_rhs_leg (Fin alpha) (Fin beta) in
  let curved := GCS.in_curved_section (Fin alpha) (Fin beta) in
  let lhs := GCS.in_lhs_leg (Fin alpha) (Fin beta) in
  (rhs = true <-> - (PI / 2) <= beta <= - alpha) /\
  (curved = true <-> - alpha < beta < PI + alpha) /\
  (lhs = true <-> PI + alpha <= beta <= 3 * PI / 2) /\
  (- (PI / 2) <= beta <= 3 * PI / 2 ->
     ((rhs, curved, lhs) = (true, false, false) \/
      (rhs, curved, lhs) = (false, true, false) \/
      (rhs, curved, lhs) = (false, false, true)) /\
     exists r, GCS.cross_section_circle self (Fin beta) = Ok r) /\
  (beta < - (PI / 2) \/ 3 * PI / 2 < beta ->
     (rhs, curved, lhs) = (false, false, false) /\
     GCS.cross_section_circle self (Fin beta)
     = Raise (ValueError "Unexpected beta angle")).
Proof.
  intros Ha Halpha. cbv zeta.
  pose proof PI_RGT_0 as Hpi.
  remember (GCS.in_rhs_leg (Fin alpha) (Fin beta)) as rhs eqn:R1.
  remember (GCS.in_curved_section (Fin alpha) (Fin beta)) as curved eqn:R2.
  remember (GCS.in_lhs_leg (Fin alpha) (Fin beta)) as lhs eqn:R3.
  assert (Erhs : rhs = true <-> - (PI / 2) <= beta <= - alpha).
  { rewrite R1, in_rhs_leg_Fin. decide_reals;
      split; intros; try discriminate; try reflexivity; lra. }
  assert (Ecurved : curved = true <-> - alpha < beta < PI + alpha).
  { rewrite R2, in_curved_section_Fin. decide_reals;
      split; intros; try discriminate; try reflexivity; lra. }
  assert (Elhs : lhs = true <-> PI + alpha <= beta <= 3 * PI / 2).
  { rewrite R3, in_lhs_leg_Fin. decide_reals;
      split; intros; try discriminate; try reflexivity; lra. }
  split; [exact Erhs |]. split; [exact Ecurved |]. split; [exact Elhs |].
  assert (Hrhs : rhs = false -> ~ (- (PI / 2) <= beta <= - alpha)).
  { intros E H. apply Erhs in H. congruence. }
  assert (Hcurved : curved = false -> ~ (- alpha < beta < PI + alpha)).
  { intros E H. apply Ecurved in H. congruence. }
  assert (Hlhs : lhs = false -> ~ (PI + alpha <= beta <= 3 * PI / 2)).
  { intros E H. apply Elhs in H. congruence. }
  unfold GCS.cross_section_circle. rewrite Ha, <- R1, <- R2, <- R3.
  split.
  - intros Hrange.
    destruct rhs; destruct curved; destruct lhs;
      try (exfalso;
           try (pose proof (proj1 Erhs eq_refl));
           try (pose proof (proj1 Ecurved eq_refl));
           try (pose proof (proj1 Elhs eq_refl));
           try (pose proof (Hrhs eq_refl));
           try (pose proof (Hcurved eq_refl));
           try (pose proof (Hlhs eq_refl)); lra).
    + split; [tauto |]. eexists; reflexivity.
    + split; [tauto |]. unfold GCS.R, GCS.X0. cbn [bind]. eexists; reflexivity.
    + split; [tauto |]. eexists; reflexivity.
  - intros Hout.
    destruct rhs; [pose proof (proj1 Erhs eq_refl); lra |].
    destruct curved; [pose proof (proj1 Ecurved eq_refl); lra |].
    destruct lhs; [pose proof (proj1 Elhs eq_refl); lra |].
    split; reflexivity.
Qed.

Lemma cross_section_branches_witness :
  let rhs := GCS.in_rhs_leg (Fin (PI / 4)) (Fin 0) in
  let curved := GCS.in_curved_section (Fin (PI / 4)) (Fin 0) in
  let lhs := GCS.in_lhs_leg (Fin (PI / 4)) (Fin 0) in
  (rhs = true <-> - (PI / 2) <= 0 <= - (PI / 4)) /\
  (curved = true <-> - (PI / 4) < 0 < PI + PI / 4) /\
  (lhs = true <-> PI + PI / 4 <= 0 <= 3 * PI / 2) /\
  (- (PI / 2) <= 0 <= 3 * PI / 2 ->
     ((rhs, curved, lhs) = (true, false, false) \/
      (rhs, curved, lhs) = (false, true, false) \/
      (rhs, curved, lhs) = (false, false, true)) /\
     exists r, GCS.cross_section_circle Examples.geometry_quarter (Fin 0) = Ok r) /\
  (0 < - (PI / 2) \/ 3 * PI / 2 < 0 ->
     (rhs, curved, lhs) = (false, false, false) /\
     GCS.cross_section_circle Examples.geometry_quarter (Fin 0)
     = Raise (ValueError "Unexpected beta angle")).
Proof.
  apply (cross_section_branches Examples.geometry_quarter (PI / 4) 0).
  - reflexivity.
  - pose proof PI_RGT_0. lra.
Defined.

(** ** The round trip under rounding *)

Lemma Rabs_le_bounds (a b : R) : Rabs a <= b -> - b <= a <= b.
Proof.
  intros H. pose proof (Rle_abs a) as H1. pose proof (Rle_abs (- a)) as H2.
  rewrite Rabs_Ropp in H2. lra.
Qed.

Section RoundTripUnderRounding.

(** The standard model of floating-point arithmetic: every rounding has a
    relative error of at most [u] (no underflow, no overflow); for float64
    [u] is 2^-53, far below the 1e-10 asked for here. *)
Variables (rnd : R -> R) (u : R).
Hypothesis Hu : 0 <= u <= 1e-10.
Hypothesis Hrnd : forall x, Rabs (rnd x - x) <= u * Rabs x.

Lemma rnd_of_positive (x : R) :
  0 < x -> 0 < rnd x /\ x * (1 - u) <= rnd x <= x * (1 + u).
Proof.
  intros Hx. pose proof (Hrnd x) as H.
  rewrite (Rabs_pos_eq x) in H by lra.
  apply Rabs_le_bounds in H. split; nra.
Qed.

Lemma rnd_of_nonnegative (x : R) : 0 <= x -> 0 <= rnd x.
Proof.
  intros Hx. pose proof (Hrnd x) as H.
  rewrite (Rabs_pos_eq x) in H by lra.
  apply Rabs_le_bounds in H. nra.
Qed.

(** The ratio of a rounded positive number to the number. *)
Lemma rnd_ratio (x : R) :
  0 < x -> exists e, rnd x = x * e /\ 1 - u <= e <= 1 + u.
Proof.
  intros Hx. destruct (rnd_of_positive x Hx) as (_ & Hlo & Hhi).
  exists (rnd x / x). split.
  - field. lra.
  - split.
    + apply (Rmult_le_reg_r x); [exact Hx |].
      replace (rnd x / x * x) with (rnd x) by (field; lra). lra.
    + apply (Rmult_le_reg_r x); [exact Hx |].
      replace (rnd x / x * x) with (rnd x) by (field; lra). lra.
Qed.

(** Under rounding the round trip of C1 stays within 1e-9 relative. *)
Lemma leading_edge_round_trip_under_rounding (alpha k L : R) :
  0 <= alpha < PI / 2 ->
  0 <= k < 1 ->
  0 < L ->
  let h := GCSRounded.compute_cone_height rnd alpha k L in
  let L' := GCSRounded.compute_leading_edge rnd alpha k h in
  Rabs (L' - L) <= 1e-9 * L.
Proof.
  intros Halpha Hk HL h L'.
  pose proof (cos_half_angle_pos _ Halpha) as Hc0.
  pose proof (sin_half_angle_nonneg _ Halpha) as Hs0.
  pose proof (rnd_of_nonnegative _ Hs0) as Hs.
  destruct (rnd_of_positive (cos alpha) Hc0) as (Hc & _).
  destruct (rnd_of_positive (1 - k)) as (Hm & _); [lra |].
  destruct (rnd_of_positive (1 + rnd (sin alpha))) as (Hp & _); [lra |].
  set (c := rnd (cos alpha)) in *.
  set (m := rnd (1 - k)) in *.
  set (p := rnd (1 + rnd (sin alpha))) in *.
  assert (H1 : 0 < L * c) by nra.
  destruct (rnd_ratio _ H1) as (e1 & E1 & B1).
  assert (He1 : 0 < e1) by lra.
  assert (H2 : 0 < rnd (L * c) * m) by (rewrite E1; repeat apply Rmult_lt_0_compat; assumption).
  destruct (rnd_ratio _ H2) as (e2 & E2 & B2).
  assert (He2 : 0 < e2) by lra.
  assert (H3 : 0 < rnd (rnd (L * c) * m) / p).
  { apply Rdiv_lt_0_compat; [| exact Hp]. rewrite E2.
    apply Rmult_lt_0_compat; assumption. }
  destruct (rnd_ratio _ H3) as (e3 & E3 & B3).
  assert (He3 : 0 < e3) by lra.
  assert (Hh : h = L * c * m / p * (e1 * e2 * e3)).
  { unfold h, GCSRounded.compute_cone_height. fold c m p.
    rewrite E3, E2, E1. field. lra. }
  assert (Hhpos : 0 < h).
  { rewrite Hh. repeat apply Rmult_lt_0_compat; try assumption.
    apply Rinv_0_lt_compat. exact Hp. }
  assert (H4 : 0 < h * p) by (apply Rmult_lt_0_compat; assumption).
  destruct (rnd_ratio _ H4) as (e4 & E4 & B4).
  assert (He4 : 0 < e4) by lra.
  assert (H5 : 0 < c * m) by (apply Rmult_lt_0_compat; assumption).
  destruct (rnd_ratio _ H5) as (e5 & E5 & B5).
  assert (He5 : 0 < e5) by lra.
  assert (H6 : 0 < rnd (h * p) / rnd (c * m)).
  { apply Rdiv_lt_0_compat; [rewrite E4 | rewrite E5];
      apply Rmult_lt_0_compat; assumption. }
  destruct (rnd_ratio _ H6) as (e6 & E6 & B6).
  assert (HL' : L' = L * (e1 * e2 * e3 * e4 * e6 / e5)).
  { unfold L', GCSRounded.compute_leading_edge. fold c m p.
    rewrite E6, E5, E4, Hh. field. repeat split; lra. }
  (* the product of the five ratios, then the quotient *)
  assert (P2 : 1 - 2 * u <= e1 * e2 <= 1 + 2.001 * u) by nra.
  assert (P3 : 1 - 3 * u <= e1 * e2 * e3 <= 1 + 3.002 * u) by nra.
  assert (P4 : 1 - 4 * u <= e1 * e2 * e3 * e4 <= 1 + 4.003 * u) by nra.
  assert (P5 : 1 - 5 * u <= e1 * e2 * e3 * e4 * e6 <= 1 + 5.004 * u) by nra.
  set (q := e1 * e2 * e3 * e4 * e6) in *.
  assert (Q : 1 - 1e-9 <= q / e5 <= 1 + 1e-9).
  { split.
    - apply (Rmult_le_reg_r e5); [exact He5 |].
      replace (q / e5 * e5) with q by (field; lra). nra.
    - apply (Rmult_le_reg_r e5); [exact He5 |].
      replace (q / e5 * e5) with q by (field; lra). nra. }
  rewrite HL'. apply Rabs_le. split; nra.
Qed.

End RoundTripUnderRounding.

(** Exact arithmetic is the case of a rounding that changes nothing. *)
Lemma leading_edge_round_trip_exact (alpha k L : R) :
  0 <= alpha < PI / 2 -> 0 <= k < 1 -> 0 < L ->
  Rabs (GCSRounded.compute_leading_edge (fun x => x) alpha k
          (GCSRounded.compute_cone_height (fun x => x) alpha k L) - L)
  <= 1e-9 * L.
Proof.
  intros Halpha Hk HL.
  apply (leading_edge_round_trip_under_rounding (fun x => x) 0);
    try assumption.
  - lra.
  - intros x. replace (x - x) with 0 by ring. rewrite Rabs_R0. lra.
Qed.

End GCSFacts.

(** ** GCSModel: the orientation matrix *)

Module OrientationFacts.

Import NPFacts.
Local Open Scope R_scope.

Ltac entrywise :=
  repeat match goal with
         | |- Ok _ = Ok _ => apply f_equal
         | |- _ :: _ = _ :: _ => apply f_equal2
         | |- Fin _ = Fin _ => apply f_equal
         | |- @nil _ = @nil _ => reflexivity
         end.

(** The rotations of a finite angle, entry by entry. *)
Lemma x_Fin (a : R) :
  RotationTransform.x (Fin a)
  = GCSSpec.finite_matrix [[1; 0; 0]; [0; cos a; - sin a]; [0; sin a; cos a]].
Proof. reflexivity. Qed.

Lemma y_Fin (a : R) :
  RotationTransform.y (Fin a)
  = GCSSpec.finite_matrix [[cos a; 0; sin a]; [0; 1; 0]; [- sin a; 0; cos a]].
Proof. reflexivity. Qed.

Lemma z_Fin (a : R) :
  RotationTransform.z (Fin a)
  = GCSSpec.finite_matrix [[cos a; - sin a; 0]; [sin a; cos a; 0]; [0; 0; 1]].
Proof. reflexivity. Qed.

(** The code's composition on finite angles is the product
    [Rz Ry Rx] of the elementary rotations. *)
Lemma composition_Fin (lon lat tilt : R) :
  GCSSpec.composition (Fin lon) (Fin lat) (Fin tilt)
  = Ok (GCSSpec.finite_matrix (GCSSpec.Rz_Ry_Rx (- (0.5) * PI + lon) tilt lat)).
Proof.
  unfold GCSSpec.composition, NP.pi. autorewrite with npfin.
  rewrite x_Fin, y_Fin, z_Fin.
  cbn. entrywise; ring.
Qed.

(** The reverse composition on finite angles, entry by entry. *)
Lemma reverse_composition_Fin (lon lat tilt : R) :
  GCSSpec.reverse_composition (Fin lon) (Fin lat) (Fin tilt)
  = Ok (GCSSpec.finite_matrix
          (let '(cz, sz) := (cos (- (0.5) * PI + lon), sin (- (0.5) * PI + lon)) in
           let '(cy, sy) := (cos tilt, sin tilt) in
           let '(cx, sx) := (cos lat, sin lat) in
           [[cy * cz;                - cy * sz;               sy];
            [sx * sy * cz + cx * sz; cx * cz - sx * sy * sz;  - sx * cy];
            [sx * sz - cx * sy * cz; cx * sy * sz + sx * cz;  cx * cy]])).
Proof.
  unfold GCSSpec.reverse_composition, NP.pi. autorewrite with npfin.
  rewrite x_Fin, y_Fin, z_Fin.
  cbn. entrywise; ring.
Qed.

(** Every setter leaves the cached rotations in step with the angles. *)
Lemma run_call_keeps_rotations (m m' : GCS.GCSModel) (c : GCS.call) :
  GCSSpec.rotations_in_step m ->
  GCS.run_call m c = Ok m' ->
  GCSSpec.rotations_in_step m'.
Proof.
  intros (Hx & Hy & Hz) Hrun.
  destruct c; cbn in Hrun; inversion Hrun; subst m'; clear Hrun;
    unfold GCSSpec.rotations_in_step; cbn; auto.
Qed.

Lemma run_calls_keep_rotations (cs : list GCS.call) :
  forall m m', GCSSpec.rotations_in_step m ->
               GCS.run_calls m cs = Ok m' ->
               GCSSpec.rotations_in_step m'.
Proof.
  induction cs as [| c cs IH]; intros m m' Hinv Hrun; cbn in Hrun.
  - inversion Hrun. subst. exact Hinv.
  - destruct (GCS.run_call m c) as [m1 |] eqn:E; cbn in Hrun; [| discriminate].
    apply (IH m1 m'); [| exact Hrun].
    apply (run_call_keeps_rotations m m1 c Hinv E).
Qed.

Lemma init_sets_rotations (ha ar : npfloat) (le : option npfloat)
    (lon lat tilt : npfloat) (m : GCS.GCSModel) :
  GCS.GCSModel__init__ ha ar le lon lat tilt = Ok m ->
  GCSSpec.rotations_in_step m /\
  GCS.longitude m = lon /\ GCS.latitude m = lat /\ GCS.tilt m = tilt.
Proof.
  unfold GCS.GCSModel__init__. intros H.
  destruct (GCS.__init__ ha ar le None) as [g |]; cbn in H; [| discriminate].
  inversion H. subst m. repeat split.
Qed.

Lemma tmatrix_in_step (m : GCS.GCSModel) :
  GCSSpec.rotations_in_step m ->
  GCS.tmatrix m
  = GCSSpec.composition (GCS.longitude m) (GCS.latitude m) (GCS.tilt m).
Proof.
  intros (Hx & Hy & Hz). unfold GCS.tmatrix, GCSSpec.composition.
  rewrite Hx, Hy, Hz. reflexivity.
Qed.

Lemma quarter_turn_cancels : - (0.5) * PI + PI / 2 = 0.
Proof. lra. Qed.

Lemma composition_at_90 :
  GCSSpec.composition (Fin (PI / 2)) (Fin 0) (Fin 0) = Ok Examples.identity3.
Proof.
  rewrite composition_Fin. unfold GCSSpec.Rz_Ry_Rx.
  rewrite quarter_turn_cancels, cos_0, sin_0.
  cbn. unfold Examples.identity3. entrywise; ring.
Qed.

Lemma reverse_composition_at_90 :
  GCSSpec.reverse_composition (Fin (PI / 2)) (Fin 0) (Fin 0)
  = Ok Examples.identity3.
Proof.
  rewrite reverse_composition_Fin.
  rewrite quarter_turn_cancels, cos_0, sin_0.
  cbn. unfold Examples.identity3. entrywise; ring.
Qed.

(** At longitude 90 degrees, latitude 0 and tilt 0 the orientation matrix
    is the identity, and so is the composition in the reverse order. *)
Lemma tmatrix_at_90_is_the_reverse_composition :
  GCS.GCSModel__init__ (Fin 0) (Fin (1 / 2)) (Some (Fin 2))
    (Fin (PI / 2)) (Fin 0) (Fin 0) = Ok Examples.model_90 /\
  GCS.tmatrix Examples.model_90 = Ok Examples.identity3 /\
  GCS.tmatrix Examples.model_90
  = GCSSpec.reverse_composition (Fin (PI / 2)) (Fin 0) (Fin 0).
Proof.
  assert (E : GCS.tmatrix Examples.model_90 = Ok Examples.identity3).
  { rewrite tmatrix_in_step by (repeat split). exact composition_at_90. }
  split; [reflexivity |]. split; [exact E |].
  rewrite E, reverse_composition_at_90. reflexivity.
Qed.

(** At longitude 180 degrees, latitude 90 degrees and tilt 0 the two
    orders give different matrices: entry (0, 1) is 0 in one and -1 in the
    other. *)
Lemma order_matters_at_180_90 :
  GCSSpec.composition (Fin PI) (Fin (PI / 2)) (Fin 0)
  <> GCSSpec.reverse_composition (Fin PI) (Fin (PI / 2)) (Fin 0).
Proof.
  rewrite composition_Fin, reverse_composition_Fin. intros H.
  apply (f_equal (fun r => match r with
                           | Ok ((_ :: Fin e :: _) :: _) => e
                           | _ => 0
                           end)) in H.
  cbn in H.
  replace (- (0.5) * PI + PI) with (PI / 2) in H by lra.
  rewrite cos_PI2, sin_PI2, cos_0, sin_0 in H. lra.
Qed.

(** C4 (as the code has it).  A model built by the constructor and then
    driven through any sequence of setter calls has the orientation matrix
    [Rz(-pi/2 + longitude) Ry(tilt) Rx(latitude)], the three elementary
    right-handed rotations of its current angles composed in this order.
    At longitude 90 degrees with latitude and tilt 0 the three factors are
    identities, so there the matrix equals the composition in the reverse
    order; the two orders differ at longitude 180 degrees, latitude
    90 degrees, tilt 0. *)
Theorem tmatrix_is_Rz_Ry_Rx
    (ha ar : npfloat) (le : option npfloat) (lon0 lat0 tilt0 : npfloat)
    (cs : list GCS.call) (m0 m : GCS.GCSModel) :
  GCS.GCSModel__init__ ha ar le lon0 lat0 tilt0 = Ok m0 ->
  GCS.run_calls m0 cs = Ok m ->
  GCS.tmatrix m
  = GCSSpec.composition (GCS.longitude m) (GCS.latitude m) (GCS.tilt m) /\
  (forall lon lat tilt : R,
     GCS.longitude m = Fin lon -> GCS.latitude m = Fin lat ->
     GCS.tilt m = Fin tilt ->
     GCS.tmatrix m
     = Ok (GCSSpec.finite_matrix
             (GCSSpec.Rz_Ry_Rx (- (0.5) * PI + lon) tilt lat))) /\
  GCSSpec.composition (Fin (PI / 2)) (Fin 0) (Fin 0)
  = GCSSpec.reverse_composition (Fin (PI / 2)) (Fin 0) (Fin 0) /\
  GCSSpec.composition (Fin PI) (Fin (PI / 2)) (Fin 0)
  <> GCSSpec.reverse_composition (Fin PI) (Fin (PI / 2)) (Fin 0).
Proof.
  intros Hinit Hrun.
  destruct (init_sets_rotations _ _ _ _ _ _ _ Hinit) as [Hinv0 _].
  pose proof (run_calls_keep_rotations cs m0 m Hinv0 Hrun) as Hinv.
  pose proof (tmatrix_in_step m Hinv) as Ht.
  split; [exact Ht |]. split.
  - intros lon lat tilt Hlon Hlat Htilt.
    rewrite Ht, Hlon, Hlat, Htilt. apply composition_Fin.
  - split.
    + rewrite composition_at_90, reverse_composition_at_90. reflexivity.
    + exact order_matters_at_180_90.
Qed.

Lemma tmatrix_is_Rz_Ry_Rx_witness :
  GCS.tmatrix Examples.model_180_90
  = GCSSpec.composition (Fin PI) (Fin (PI / 2)) (Fin 0) /\
  (forall lon lat tilt : R,
     Fin PI = Fin lon -> Fin (PI / 2) = Fin lat -> Fin 0 = Fin tilt ->
     GCS.tmatrix Examples.model_180_90
     = Ok (GCSSpec.finite_matrix
             (GCSSpec.Rz_Ry_Rx (- (0.5) * PI + lon) tilt lat))) /\
  GCSSpec.composition (Fin (PI / 2)) (Fin 0) (Fin 0)
  = GCSSpec.reverse_composition (Fin (PI / 2)) (Fin 0) (Fin 0) /\
  GCSSpec.composition (Fin PI) (Fin (PI / 2)) (Fin 0)
  <> GCSSpec.reverse_composition (Fin PI) (Fin (PI / 2)) (Fin 0).
Proof.
  apply (tmatrix_is_Rz_Ry_Rx (Fin 0) (Fin (1 / 2)) (Some (Fin 2))
           (Fin (PI / 2)) (Fin 0) (Fin 0)
           [GCS.SetLongitude (Fin PI); GCS.SetLatitude (Fin (PI / 2))]
           Examples.model_90 Examples.model_180_90).
  - reflexivity.
  - reflexivity.
Defined.

End OrientationFacts.

(** ** The difference modifier and the plot container *)

Module PlotFacts.

Import ResultFacts.
Local Open Scope Z_scope.

Section Modifier.

Variables (ndarray color : Type).
Variable nd_sub : ndarray -> ndarray -> result ndarray.

Lemma is_valid_reference_frame_false (self : Plot.DifferenceImageModifier) :
  Plot.is_valid_reference_frame self = false <->
  Plot.reference_frame self = None \/
  exists r, Plot.reference_frame self = Some r /\ r < 0.
Proof.
  unfold Plot.is_valid_reference_frame.
  destruct (Plot.reference_frame self) as [r |]; cbn.
  - rewrite negb_false_iff, Z.ltb_lt. split.
    + intros H. right. exists r. split; [reflexivity | exact H].
    + intros [H | (r' & H & Hr)]; [discriminate |]. inversion H. subst. exact Hr.
  - split; [intros _; left; reflexivity | reflexivity].
Qed.

(** C5.  The reference frame is invalid exactly when it is unset or
    negative.  When the modifier is disabled or its reference frame is
    invalid, applying it returns the frame data unchanged.  When it is
    enabled with a reference index [r >= 0], applying it returns the frame
    data minus the pixel data of the frame of the sequence at index [r]. *)
Theorem difference_modifier_apply
    (self : Plot.DifferenceImageModifier) (map_data : ndarray)
    (plot_container : Plot.MapSequencePlotContainer ndarray color) :
  (Plot.is_valid_reference_frame self = false <->
   Plot.reference_frame self = None \/
   exists r, Plot.reference_frame self = Some r /\ r < 0) /\
  (Plot.is_enabled self = false \/ Plot.is_valid_reference_frame self = false ->
   Plot.__call__ nd_sub self map_data plot_container = Ok map_data) /\
  (forall r reference_map,
     Plot.is_enabled self = true ->
     Plot.reference_frame self = Some r ->
     0 <= r ->
     py_getitem (Plot.map_sequence plot_container) r = Ok reference_map ->
     Plot.__call__ nd_sub self map_data plot_container
     = nd_sub map_data (Plot.data reference_map)).
Proof.
  split; [apply is_valid_reference_frame_false |]. split.
  - intros [H | H]; unfold Plot.__call__; rewrite H; cbn.
    + reflexivity.
    + rewrite orb_true_r. reflexivity.
  - intros r reference_map He Hr H0 Hget.
    unfold Plot.__call__, Plot.is_valid_reference_frame. rewrite He, Hr.
    destruct (r <? 0) eqn:E; [apply Z.ltb_lt in E; lia |].
    cbn. rewrite Hget. reflexivity.
Qed.

(** A reference index at or beyond the number of frames is an
    [IndexError]. *)
Lemma difference_modifier_beyond_sequence
    (self : Plot.DifferenceImageModifier) (map_data : ndarray)
    (plot_container : Plot.MapSequencePlotContainer ndarray color) (r : Z) :
  Plot.is_enabled self = true ->
  Plot.reference_frame self = Some r ->
  Plot.num_frames plot_container <= r ->
  Plot.__call__ nd_sub self map_data plot_container = Raise IndexError.
Proof.
  intros He Hr Hn.
  assert (H0 : 0 <= r) by (unfold Plot.num_frames in Hn; lia).
  unfold Plot.__call__, Plot.is_valid_reference_frame. rewrite He, Hr.
  destruct (r <? 0) eqn:E; [apply Z.ltb_lt in E; lia |].
  cbn. rewrite py_getitem_beyond by exact Hn. reflexivity.
Qed.

End Modifier.

Lemma difference_modifier_apply_witness :
  (Plot.is_valid_reference_frame Examples.fixed_difference0 = false <->
   Plot.reference_frame Examples.fixed_difference0 = None \/
   exists r, Plot.reference_frame Examples.fixed_difference0 = Some r /\ r < 0) /\
  (Plot.is_enabled Examples.fixed_difference0 = false \/
   Plot.is_valid_reference_frame Examples.fixed_difference0 = false ->
   Examples.zcall Examples.fixed_difference0 [4; 5; 6] Examples.container0
   = Ok [4; 5; 6]) /\
  (forall r reference_map,
     Plot.is_enabled Examples.fixed_difference0 = true ->
     Plot.reference_frame Examples.fixed_difference0 = Some r ->
     0 <= r ->
     py_getitem (Plot.map_sequence Examples.container0) r = Ok reference_map ->
     Examples.zcall Examples.fixed_difference0 [4; 5; 6] Examples.container0
     = Examples.zsub [4; 5; 6] (Plot.data reference_map)).
Proof.
  exact (difference_modifier_apply Examples.zarray Examples.zcolor Examples.zsub
           Examples.fixed_difference0 [4; 5; 6] Examples.container0).
Defined.

(** On the example the enabled modifier with reference frame 0 turns the
    data of frame 1 into the difference of the two frames. *)
Example difference_of_two_frames :
  Examples.zcall Examples.fixed_difference0 [4; 5; 6] Examples.container0
  = Ok [3; 3; 3].
Proof. reflexivity. Qed.

Section Update.

Variables (ndarray color : Type).
Variable nd_sub : ndarray -> ndarray -> result ndarray.
Variable nd_border : ndarray -> result ndarray.
Variables nd_min nd_max : ndarray -> option npfloat.
Variable median_rgba :
  option string -> option npfloat -> option npfloat -> ndarray -> result color.

Let update_to_frame :=
  Plot.update_to_frame nd_sub nd_border nd_min nd_max median_rgba.

(** The modifiers read the container only through its map sequence. *)
Lemma run_modifiers_same_sequence
    (ms : list Plot.DifferenceImageModifier)
    (self self' : Plot.MapSequencePlotContainer ndarray color) :
  Plot.map_sequence self' = Plot.map_sequence self ->
  forall map_data,
    Plot.run_modifiers nd_sub ms map_data self'
    = Plot.run_modifiers nd_sub ms map_data self.
Proof.
  intros Hseq. induction ms as [| modifier ms IH]; intros map_data; cbn.
  - reflexivity.
  - unfold Plot.__call__. rewrite Hseq.
    destruct (negb (Plot.is_enabled modifier)
              || negb (Plot.is_valid_reference_frame modifier))%bool; cbn.
    + apply IH.
    + destruct (Plot.reference_frame modifier) as [r |]; [| reflexivity].
      destruct (py_getitem (Plot.map_sequence self) r) as [m |]; cbn;
        [| reflexivity].
      destruct (nd_sub map_data (Plot.data m)); cbn; [apply IH | reflexivity].
Qed.

(** The clamp: the frame a successful [update_to_frame] displays is
    [clip index 0 (num_frames - 1)], which for a sequence of at least one
    frame is 0 below the range, [num_frames - 1] above it and the index
    itself inside it; the sequence, the modifiers and the colorbar state
    are left as they were. *)
Lemma update_to_frame_clamps
    (self self' : Plot.MapSequencePlotContainer ndarray color) (index : Z) :
  update_to_frame self index = Ok self' ->
  Plot.current_frame_index self'
  = Plot.clip index 0 (Plot.num_frames self - 1) /\
  (1 <= Plot.num_frames self -> index < 0 ->
   Plot.current_frame_index self' = 0) /\
  (1 <= Plot.num_frames self -> Plot.num_frames self <= index ->
   Plot.current_frame_index self' = Plot.num_frames self - 1) /\
  (0 <= index < Plot.num_frames self ->
   Plot.current_frame_index self' = index) /\
  Plot.map_sequence self' = Plot.map_sequence self /\
  Plot.modifiers self' = Plot.modifiers self /\
  Plot.colorbar_state self' = Plot.colorbar_state self.
Proof.
  unfold update_to_frame, Plot.update_to_frame. intros H.
  apply bind_Ok in H. destruct H as (data & _ & H).
  apply bind_Ok in H. destruct H as (im1 & _ & H).
  apply bind_Ok in H. destruct H as (border & _ & H).
  apply bind_Ok in H. destruct H as (facecolor & _ & H).
  inversion H. subst self'. clear H. cbn.
  unfold Plot.clip. repeat split; intros; lia.
Qed.

(** Repeating a successful [update_to_frame] reproduces the state when the
    colormap is not ["default"], or when the frame displayed before the
    first call and the frame asked for have the same own colormap. *)
Lemma update_to_frame_idempotent_when_colormap_is_fixed
    (self self1 : Plot.MapSequencePlotContainer ndarray color) (index : Z) :
  update_to_frame self index = Ok self1 ->
  (forall name, Plot.cmap (Plot.colorbar_state self) = Some name ->
                String.eqb name "default" = false) \/
  (exists m m',
     py_getitem (Plot.map_sequence self) (Plot.current_frame_index self) = Ok m /\
     py_getitem (Plot.map_sequence self)
       (Plot.clip index 0 (Plot.num_frames self - 1)) = Ok m' /\
     Plot.map_cmap m = Plot.map_cmap m') ->
  update_to_frame self1 index = Ok self1.
Proof.
  intros H Hcmap.
  destruct self as [seq0 im0 fc0 cb0 cs0 cur0 mods0 dp0].
  unfold update_to_frame, Plot.update_to_frame in *.
  unfold Plot.num_frames in *. cbn [Plot.map_sequence Plot.im Plot.cbar
    Plot.colorbar_state Plot.current_frame_index Plot.modifiers] in *.
  set (frame := Plot.clip index 0 (Z.of_nat (List.length seq0) - 1)) in *.
  apply bind_Ok in H. destruct H as (data & Hdata & H).
  apply bind_Ok in H. destruct H as (im1 & Him1 & H).
  apply bind_Ok in H. destruct H as (border & Hborder & H).
  apply bind_Ok in H. destruct H as (facecolor & Hface & H).
  inversion H. subst self1. clear H.
  cbn [Plot.map_sequence Plot.im Plot.cbar
    Plot.colorbar_state Plot.current_frame_index Plot.modifiers].
  fold frame.
  assert (Hdata' :
    Plot.get_map_data nd_sub
      (Plot.mkMapSequencePlotContainer seq0
         (Plot.autoscale_None nd_min nd_max
            (Plot.set_clim im1 (Plot.vmin cs0) (Plot.vmax cs0)) border)
         facecolor
         match cb0 with
         | Some _ =>
             Some (Plot.update_normal
                     (Plot.autoscale_None nd_min nd_max
                        (Plot.set_clim im1 (Plot.vmin cs0) (Plot.vmax cs0)) border))
         | None => None
         end cs0 frame mods0 true) frame = Ok data).
  { rewrite <- Hdata. unfold Plot.get_map_data. cbn [Plot.map_sequence Plot.modifiers].
    destruct (py_getitem seq0 frame) as [m |]; cbn; [| reflexivity].
    apply run_modifiers_same_sequence. reflexivity. }
  rewrite Hdata'. cbn [bind].
  assert (Him1' :
    (if match Plot.cmap cs0 with
        | Some name => String.eqb name "default"
        | None => false
        end
     then m <- py_getitem seq0 frame ;;
          Ok (Plot.set_cmap
                (Plot.set_data
                   (Plot.autoscale_None nd_min nd_max
                      (Plot.set_clim im1 (Plot.vmin cs0) (Plot.vmax cs0)) border)
                   data) (Some (Plot.map_cmap m)))
     else Ok (Plot.set_cmap
                (Plot.set_data
                   (Plot.autoscale_None nd_min nd_max
                      (Plot.set_clim im1 (Plot.vmin cs0) (Plot.vmax cs0)) border)
                   data) (Plot.cmap cs0)))
    = Ok (Plot.mkAxesImage data (Plot.im_cmap im1)
            (Plot.norm_vmin
               (Plot.autoscale_None nd_min nd_max
                  (Plot.set_clim im1 (Plot.vmin cs0) (Plot.vmax cs0)) border))
            (Plot.norm_vmax
               (Plot.autoscale_None nd_min nd_max
                  (Plot.set_clim im1 (Plot.vmin cs0) (Plot.vmax cs0)) border)))).
  { destruct (Plot.cmap cs0) as [name |] eqn:Ecmap.
    - destruct (String.eqb name "default") eqn:Edef.
      + destruct Hcmap as [Hcmap | (m & m' & Hm & Hm' & Heq)].
        * rewrite (Hcmap name eq_refl) in Edef. discriminate.
        * rewrite Hm in Him1. cbn [bind] in Him1. inversion Him1. subst im1.
          rewrite Hm'. cbn [bind]. cbn. rewrite Heq. reflexivity.
      + inversion Him1. subst im1. reflexivity.
    - inversion Him1. subst im1. reflexivity. }
  rewrite Him1'. cbn [bind]. rewrite Hborder. cbn [bind].
  assert (Him_fix :
    Plot.autoscale_None nd_min nd_max
      (Plot.set_clim
         (Plot.mkAxesImage data (Plot.im_cmap im1)
            (Plot.norm_vmin
               (Plot.autoscale_None nd_min nd_max
                  (Plot.set_clim im1 (Plot.vmin cs0) (Plot.vmax cs0)) border))
            (Plot.norm_vmax
               (Plot.autoscale_None nd_min nd_max
                  (Plot.set_clim im1 (Plot.vmin cs0) (Plot.vmax cs0)) border)))
         (Plot.vmin cs0) (Plot.vmax cs0)) border
    = Plot.autoscale_None nd_min nd_max
        (Plot.set_clim im1 (Plot.vmin cs0) (Plot.vmax cs0)) border).
  { assert (Hd : Plot.im_data im1 = data).
    { destruct (match Plot.cmap cs0 with
                | Some name => String.eqb name "default"
                | None => false
                end).
      - apply bind_Ok in Him1. destruct Him1 as (m & _ & Him1).
        inversion Him1. reflexivity.
      - inversion Him1. reflexivity. }
    destruct im1 as [d c lo hi]. cbn in Hd. subst d.
    unfold Plot.autoscale_None, Plot.set_clim. cbn.
    destruct (Plot.vmin cs0), (Plot.vmax cs0), lo, hi;
      cbn; try reflexivity;
      destruct (nd_min border), (nd_max border); reflexivity. }
  rewrite Him_fix. rewrite Hface. cbn [bind].
  destruct cb0; reflexivity.
Qed.

(** With the colormap at ["default"], a successful [update_to_frame]
    leaves the image under the own colormap of the frame that was on
    display before the call. *)
Lemma update_to_frame_default_colormap
    (self self' : Plot.MapSequencePlotContainer ndarray color) (index : Z) :
  update_to_frame self index = Ok self' ->
  Plot.cmap (Plot.colorbar_state self) = Some "default"%string ->
  exists m,
    py_getitem (Plot.map_sequence self) (Plot.current_frame_index self) = Ok m /\
    Plot.im_cmap (Plot.im self') = Some (Plot.map_cmap m).
Proof.
  unfold update_to_frame, Plot.update_to_frame. intros H Hdef.
  apply bind_Ok in H. destruct H as (data & _ & H).
  apply bind_Ok in H. destruct H as (im1 & Him1 & H).
  apply bind_Ok in H. destruct H as (border & _ & H).
  apply bind_Ok in H. destruct H as (facecolor & _ & H).
  inversion H. subst self'. clear H.
  rewrite Hdef in Him1. cbn in Him1.
  apply bind_Ok in Him1. destruct Him1 as (m & Hm & Him1).
  inversion Him1. subst im1. exists m. split; [exact Hm | reflexivity].
Qed.

(** Hence two calls in a row with the same index show the colormap of the
    old frame first and the colormap of the new frame second. *)
Lemma update_to_frame_default_colormap_lags
    (self c1 c2 : Plot.MapSequencePlotContainer ndarray color) (index : Z) :
  update_to_frame self index = Ok c1 ->
  update_to_frame c1 index = Ok c2 ->
  Plot.cmap (Plot.colorbar_state self) = Some "default"%string ->
  exists m m',
    py_getitem (Plot.map_sequence self) (Plot.current_frame_index self) = Ok m /\
    py_getitem (Plot.map_sequence self)
      (Plot.clip index 0 (Plot.num_frames self - 1)) = Ok m' /\
    Plot.im_cmap (Plot.im c1) = Some (Plot.map_cmap m) /\
    Plot.im_cmap (Plot.im c2) = Some (Plot.map_cmap m').
Proof.
  intros H1 H2 Hdef.
  destruct (update_to_frame_clamps self c1 index H1)
    as (Hcur & _ & _ & _ & Hseq & _ & Hcs).
  destruct (update_to_frame_default_colormap self c1 index H1 Hdef)
    as (m & Hm & Hc1).
  rewrite <- Hcs in Hdef.
  destruct (update_to_frame_default_colormap c1 c2 index H2 Hdef)
    as (m' & Hm' & Hc2).
  rewrite Hseq, Hcur in Hm'.
  exists m, m'. repeat split; assumption.
Qed.

End Update.

(** C6, evaluated.  Two frames with different own colormaps, frame 0 on
    display, the colormap at ["default"]: the first [update_to_frame 1]
    shows the data of frame 1 under the colormap of frame 0, the second
    shows it under the colormap of frame 1.  Both resolve to frame 1, and
    the visible states differ. *)
Theorem update_to_frame_twice_differs :
  exists c1 c2,
    Examples.zupdate_to_frame Examples.container0 1 = Ok c1 /\
    Examples.zupdate_to_frame c1 1 = Ok c2 /\
    Plot.current_frame_index c1 = 1 /\
    Plot.current_frame_index c2 = 1 /\
    Plot.im_data (Plot.im c1) = [4; 5; 6] /\
    Plot.im_data (Plot.im c2) = [4; 5; 6] /\
    Plot.im_cmap (Plot.im c1) = Some "sdoaia171"%string /\
    Plot.im_cmap (Plot.im c2) = Some "soholasco2"%string /\
    Plot.visible_state c1 <> Plot.visible_state c2.
Proof.
  eexists. eexists.
  split; [reflexivity |]. split; [reflexivity |].
  repeat (split; [reflexivity |]).
  cbn. intros H. inversion H.
Qed.

(** The clamp on the same example: an index below the range shows frame 0,
    an index above it shows the last frame. *)
Example update_to_frame_clamps_example :
  (exists c, Examples.zupdate_to_frame Examples.container0 (-3) = Ok c /\
             Plot.current_frame_index c = 0) /\
  (exists c, Examples.zupdate_to_frame Examples.container0 7 = Ok c /\
             Plot.current_frame_index c = 1).
Proof. split; eexists; split; reflexivity. Qed.

End PlotFacts.

(** ** The time synchroniser *)

Module JuxFacts.

Import ResultFacts.
Local Open Scope Z_scope.

(** The example of the specification: A at [0, 10, 20, 30], B at
    [0, 7, 22]; a frame change of the active view A to index 2 (t = 20)
    sets B to index 2 (t = 22). *)
Example time_sync_example :
  exists app',
    Jux.on_frame_change Examples.two_views 2 0 = Ok app' /\
    Jux.frames app' = [2; 2] /\
    Jux.nearest_index [0; 7; 22] 20 2.
Proof.
  eexists. split; [reflexivity |]. split; [reflexivity |].
  exists 22. split; [reflexivity |]. split.
  - intros [| [| [| j]]] e H; cbn in H; inversion H; subst; try lia.
    destruct j; discriminate.
  - intros [| [| [| j]]] e H Hlt; cbn in H; inversion H; subst; try lia.
Qed.

(** A frame change of a view that is not the active one changes nothing,
    and so does any frame change while synchronisation is off. *)
Lemma on_frame_change_ignores_other_views
    (app : Jux.App) (frame : Z) (idx_of_plot : nat) :
  Jux.sync_plots app = false \/ idx_of_plot <> Jux.active_plot app ->
  Jux.on_frame_change app frame idx_of_plot = Ok app.
Proof.
  unfold Jux.on_frame_change. intros [H | H].
  - rewrite H. reflexivity.
  - destruct (Jux.sync_plots app); [| reflexivity].
    apply Nat.eqb_neq in H. rewrite H. reflexivity.
Qed.

(** *** [argmin] returns the first index of the minimum *)

Lemma argmin_from_spec (a : list Z) :
  forall (bi : nat) (b : Z) (ni : nat),
    (Jux.argmin_from bi b ni a = bi /\
     forall i x, nth_error a i = Some x -> b <= x) \/
    (exists j v,
       Jux.argmin_from bi b ni a = (ni + j)%nat /\
       nth_error a j = Some v /\ v < b /\
       (forall i x, nth_error a i = Some x -> v <= x) /\
       (forall i x, nth_error a i = Some x -> (i < j)%nat -> v < x)).
Proof.
  induction a as [| x a IH]; intros bi b ni; cbn [Jux.argmin_from].
  - left. split; [reflexivity |]. intros [| i] y H; discriminate.
  - destruct (x <? b) eqn:E.
    + apply Z.ltb_lt in E. right.
      destruct (IH ni x (S ni)) as [[Hr Hall] | (j & v & Hr & Hj & Hv & Hall & Hfirst)].
      * exists 0%nat, x. rewrite Hr, Nat.add_0_r.
        split; [reflexivity |]. split; [reflexivity |]. split; [exact E |].
        split.
        -- intros [| i] y H; cbn in H; [inversion H; lia |].
           apply (Hall i y H).
        -- intros i y _ Hi. lia.
      * exists (S j), v. rewrite Hr.
        split; [lia |]. split; [exact Hj |]. split; [lia |].
        split.
        -- intros [| i] y H; cbn in H; [inversion H; lia |].
           apply (Hall i y H).
        -- intros [| i] y H Hi; cbn in H; [inversion H; lia |].
           apply (Hfirst i y H). lia.
    + apply Z.ltb_ge in E.
      destruct (IH bi b (S ni)) as [[Hr Hall] | (j & v & Hr & Hj & Hv & Hall & Hfirst)].
      * left. split; [exact Hr |].
        intros [| i] y H; cbn in H; [inversion H; lia |].
        apply (Hall i y H).
      * right. exists (S j), v. rewrite Hr.
        split; [lia |]. split; [exact Hj |]. split; [lia |].
        split.
        -- intros [| i] y H; cbn in H; [inversion H; lia |].
           apply (Hall i y H).
        -- intros [| i] y H Hi; cbn in H; [inversion H; lia |].
           apply (Hfirst i y H). lia.
Qed.

Lemma argmin_spec (a : list Z) :
  a <> [] ->
  exists r v,
    Jux.argmin a = Ok r /\ nth_error a r = Some v /\
    (forall i x, nth_error a i = Some x -> v <= x) /\
    (forall i x, nth_error a i = Some x -> (i < r)%nat -> v < x).
Proof.
  destruct a as [| x a]; [congruence |]. intros _. cbn [Jux.argmin].
  destruct (argmin_from_spec a 0%nat x 1%nat)
    as [[Hr Hall] | (j & v & Hr & Hj & Hv & Hall & Hfirst)].
  - exists 0%nat, x. rewrite Hr.
    split; [reflexivity |]. split; [reflexivity |]. split.
    + intros [| i] y H; cbn in H; [inversion H; lia |]. apply (Hall i y H).
    + intros i y _ Hi. lia.
  - exists (S j), v. rewrite Hr.
    split; [reflexivity |]. split; [exact Hj |]. split.
    + intros [| i] y H; cbn in H; [inversion H; lia |]. apply (Hall i y H).
    + intros [| i] y H Hi; cbn in H; [inversion H; lia |].
      apply (Hfirst i y H). lia.
Qed.

(** The search of one view: the nearest frame to a datetime [t]. *)
Lemma closest_frame_is_nearest (dts : list Z) (t : Z) :
  dts <> [] ->
  exists diffs r,
    Jux.array_minus dts (Jux.PyDatetime t) = Ok diffs /\
    Jux.argmin (Jux.np_abs diffs) = Ok r /\
    Jux.nearest_index dts t r.
Proof.
  intros Hne. exists (map (fun d => d - t) dts).
  assert (Hne' : Jux.np_abs (map (fun d => d - t) dts) <> []).
  { destruct dts; [congruence | discriminate]. }
  destruct (argmin_spec _ Hne') as (r & v & Hr & Hv & Hall & Hfirst).
  exists r. split; [reflexivity |]. split; [exact Hr |].
  unfold Jux.np_abs in Hv, Hall, Hfirst.
  rewrite map_map in Hv, Hall, Hfirst.
  rewrite nth_error_map in Hv.
  destruct (nth_error dts r) as [d |] eqn:Ed; [| discriminate].
  cbn in Hv. inversion Hv. subst v.
  exists d. split; [exact Ed |]. split.
  - intros j e He. apply (Hall j). rewrite nth_error_map, He. reflexivity.
  - intros j e He Hlt. apply (Hfirst j); [| exact Hlt].
    rewrite nth_error_map, He. reflexivity.
Qed.

(** A datetime minus an integer: the search of a view fails. *)
Lemma closest_frame_after_overwrite (dts : list Z) (n : Z) :
  dts <> [] -> Jux.array_minus dts (Jux.PyInt n) = Raise TypeError.
Proof. destruct dts; [congruence | reflexivity]. Qed.

(** *** Updating one entry of a list of reactive values *)

Lemma length_set_item {A : Type} (l : list A) (i : nat) (v : A) :
  List.length (Jux.set_item l i v) = List.length l.
Proof.
  revert i. induction l as [| a l IH]; intros [| i]; cbn; auto.
Qed.

Lemma nth_error_set_item_same {A : Type} (l : list A) (i : nat) (v : A) :
  (i < List.length l)%nat -> nth_error (Jux.set_item l i v) i = Some v.
Proof.
  revert i. induction l as [| a l IH]; intros [| i] H; cbn in *; try lia.
  - reflexivity.
  - apply IH. lia.
Qed.

Lemma nth_error_set_item_other {A : Type} (l : list A) (i j : nat) (v : A) :
  i <> j -> nth_error (Jux.set_item l i v) j = nth_error l j.
Proof.
  revert i j. induction l as [| a l IH]; intros [| i] [| j] H; cbn;
    try reflexivity; try congruence.
  apply IH. congruence.
Qed.

(** *** The loop over the plots *)

Section Synchronise.

Variables (app0 : Jux.App) (t frame : Z).

Hypothesis Hwf : Jux.well_formed app0.

(** Every view other than the active one has at least one frame. *)
Hypothesis Hnonempty :
  forall j dts, j <> Jux.active_plot app0 ->
                nth_error (Jux.datetimes app0) j = Some dts -> dts <> [].

(** Only the last view other than the active one may be in
    running-difference mode. *)
Hypothesis Hoffsets :
  forall j j' o,
    (j < j' < Jux.num_plots app0)%nat ->
    j <> Jux.active_plot app0 -> j' <> Jux.active_plot app0 ->
    nth_error (Jux.running_difference_offsets app0) j = Some o -> o = 0.

Lemma nth_error_in_range {A : Type} (l : list A) (i : nat) :
  (i < List.length l)%nat -> exists a, nth_error l i = Some a.
Proof.
  intros H. destruct (nth_error l i) as [a |] eqn:E.
  - exists a. reflexivity.
  - apply nth_error_None in E. lia.
Qed.

Lemma loop_body_keeps_invariant (k : nat) (st : Jux.App * Jux.pyvalue) :
  (k < Jux.num_plots app0)%nat ->
  Jux.loop_invariant app0 t frame k st ->
  exists st', Jux.loop_body st k = Ok st' /\
              Jux.loop_invariant app0 t frame (S k) st'.
Proof.
  intros Hk Hinv. destruct st as [app target].
  destruct Hinv as (Hd & Ho & Ha & Hlf & Hld & Hact & Hsync & Htarget).
  cbn [fst snd] in *.
  destruct Hwf as (_ & _ & Hlo & _).
  unfold Jux.loop_body. rewrite Ha.
  destruct (Nat.eqb k (Jux.active_plot app0)) eqn:Ek.
  - apply Nat.eqb_eq in Ek. eexists. split; [reflexivity |].
    unfold Jux.loop_invariant. cbn [fst snd].
    repeat (split; [assumption |]). split.
    + intros j Hj Hne. apply Hsync; [lia | exact Hne].
    + destruct Htarget as [Ht | Hrest]; [left; exact Ht |].
      right. intros j Hj. apply Hrest. lia.
  - apply Nat.eqb_neq in Ek.
    destruct Htarget as [Ht | Hrest]; [| exfalso; apply Ek, Hrest; lia].
    subst target.
    destruct (nth_error_in_range (Jux.datetimes app0) k Hk) as (dts & Edts).
    pose proof (Hnonempty k dts Ek Edts) as Hne.
    destruct (closest_frame_is_nearest dts t Hne) as (diffs & r & Hminus & Hargmin & Hnear).
    unfold Jux.item at 1. rewrite Hd, Edts. cbn [bind].
    rewrite Hminus. cbn [bind]. rewrite Hargmin. cbn [bind].
    assert (Hko : (k < List.length (Jux.running_difference_offsets app0))%nat) by lia.
    destruct (nth_error_in_range _ k Hko) as (o & Eo).
    unfold Jux.item at 1. cbn [Jux.set_frame Jux.running_difference_offsets].
    rewrite Ho, Eo. cbn [bind].
    assert (Hsync' :
      forall app',
        Jux.datetimes app' = Jux.datetimes app0 ->
        Jux.frames app' = Jux.set_item (Jux.frames app) k (Z.of_nat r) ->
        forall j, (j < S k)%nat -> j <> Jux.active_plot app0 ->
                  Jux.synced app' t j).
    { intros app' Hd' Hf' j Hj Hneq dts' Hdts'. rewrite Hd' in Hdts'.
      destruct (Nat.eq_dec j k) as [-> | Hjk].
      - rewrite Edts in Hdts'. inversion Hdts'. subst dts'.
        exists r. split; [| exact Hnear].
        rewrite Hf'. apply nth_error_set_item_same. lia.
      - assert (Hjlt : (j < k)%nat) by lia.
        destruct (Hsync j Hjlt Hneq dts') as (r' & Hr' & Hn').
        { rewrite Hd. exact Hdts'. }
        exists r'. split; [| exact Hn'].
        rewrite Hf', nth_error_set_item_other by congruence. exact Hr'. }
    destruct (o =? 0) eqn:Eoz; cbn [negb].
    + eexists. split; [reflexivity |].
      unfold Jux.loop_invariant. cbn [fst snd Jux.set_frame Jux.datetimes
        Jux.running_difference_offsets Jux.active_plot Jux.frames
        Jux.difference_frames].
      split; [exact Hd |]. split; [exact Ho |]. split; [exact Ha |].
      split; [rewrite length_set_item; exact Hlf |]. split; [exact Hld |].
      split; [rewrite nth_error_set_item_other by exact Ek; exact Hact |].
      split; [apply Hsync'; [exact Hd | reflexivity] | left; reflexivity].
    + apply Z.eqb_neq in Eoz.
      unfold Jux.item, Jux.num_frames.
      cbn [Jux.set_frame Jux.datetimes]. rewrite Hd, nth_error_map, Edts.
      cbn [option_map bind].
      eexists. split; [reflexivity |].
      unfold Jux.loop_invariant. cbn [fst snd Jux.set_frame
        Jux.set_difference_frame Jux.datetimes
        Jux.running_difference_offsets Jux.active_plot Jux.frames
        Jux.difference_frames].
      split; [exact Hd |]. split; [exact Ho |]. split; [exact Ha |].
      split; [rewrite length_set_item; exact Hlf |].
      split; [rewrite length_set_item; exact Hld |].
      split; [rewrite nth_error_set_item_other by exact Ek; exact Hact |].
      split; [apply Hsync'; [exact Hd | reflexivity] |].
      right. intros j Hj.
      destruct (Nat.eq_dec j (Jux.active_plot app0)) as [E | Hneq]; [exact E |].
      exfalso. apply Eoz. apply (Hoffsets k j o); [lia | exact Ek | exact Hneq | exact Eo].
Qed.

Lemma loop_keeps_invariant (len : nat) :
  forall (k : nat) (st : Jux.App * Jux.pyvalue),
    (k + len = Jux.num_plots app0)%nat ->
    Jux.loop_invariant app0 t frame k st ->
    exists st', Jux.loop st (seq k len) = Ok st' /\
                Jux.loop_invariant app0 t frame (Jux.num_plots app0) st'.
Proof.
  induction len as [| len IH]; intros k st Hk Hinv; cbn [seq Jux.loop].
  - exists st. split; [reflexivity |].
    replace (Jux.num_plots app0) with k by lia. exact Hinv.
  - destruct (loop_body_keeps_invariant k st) as (st1 & Hbody & Hinv1);
      [lia | exact Hinv |].
    rewrite Hbody. cbn [bind]. apply IH; [lia | exact Hinv1].
Qed.

(** With synchronisation on, a frame change of the active view to a frame
    with datetime [t] returns, leaves the active view on its frame and
    sets every other view to the first frame nearest to [t] -- provided no
    view other than the last of the other views is in running-difference
    mode. *)
Lemma on_frame_change_synchronises (dts_active : list Z) :
  Jux.sync_plots app0 = true ->
  nth_error (Jux.datetimes app0) (Jux.active_plot app0) = Some dts_active ->
  py_getitem dts_active frame = Ok t ->
  nth_error (Jux.frames app0) (Jux.active_plot app0) = Some frame ->
  exists app',
    Jux.on_frame_change app0 frame (Jux.active_plot app0) = Ok app' /\
    nth_error (Jux.frames app') (Jux.active_plot app0) = Some frame /\
    forall j dts,
      j <> Jux.active_plot app0 ->
      nth_error (Jux.datetimes app0) j = Some dts ->
      exists r, nth_error (Jux.frames app') j = Some (Z.of_nat r) /\
                Jux.nearest_index dts t r.
Proof.
  intros Hsync Hdts Ht Hframe.
  unfold Jux.on_frame_change. rewrite Hsync, Nat.eqb_refl. cbn [negb].
  unfold Jux.item. rewrite Hdts. cbn [bind]. rewrite Ht. cbn [bind].
  rewrite Hframe. cbn [bind]. rewrite Z.eqb_refl. cbn [negb].
  destruct Hwf as (Hlf & Hld & Hlo & Hact).
  destruct (loop_keeps_invariant (Jux.num_plots app0) 0 (app0, Jux.PyDatetime t))
    as (st' & Hloop & Hinv).
  - lia.
  - unfold Jux.loop_invariant. cbn [fst snd].
    repeat (split; [first [reflexivity | assumption] |]). split.
    + intros j Hj. lia.
    + left. reflexivity.
  - rewrite Hloop. cbn [bind]. exists (fst st'). split; [reflexivity |].
    destruct Hinv as (Hd & _ & _ & _ & _ & Hact' & Hsynced & _).
    split; [exact Hact' |].
    intros j dts Hj Hdtsj.
    apply (Hsynced j); [| exact Hj | rewrite Hd; exact Hdtsj].
    apply nth_error_Some. rewrite Hdtsj. discriminate.
Qed.

End Synchronise.

(** *** The overwritten [target] *)

(** A view in running-difference mode leaves an integer in [target]. *)
Lemma loop_body_overwrites_target
    (app app' : Jux.App) (t o : Z) (target' : Jux.pyvalue) (k : nat) :
  k <> Jux.active_plot app ->
  nth_error (Jux.running_difference_offsets app) k = Some o ->
  o <> 0 ->
  Jux.loop_body (app, Jux.PyDatetime t) k = Ok (app', target') ->
  exists n, target' = Jux.PyInt n.
Proof.
  intros Hk Ho Hnz. unfold Jux.loop_body.
  apply Nat.eqb_neq in Hk. rewrite Hk.
  intros H.
  apply bind_Ok in H. destruct H as (dts & _ & H).
  apply bind_Ok in H. destruct H as (diffs & _ & H).
  apply bind_Ok in H. destruct H as (r & _ & H).
  unfold Jux.item at 1 in H.
  cbn [Jux.set_frame Jux.running_difference_offsets] in H.
  rewrite Ho in H. cbn [bind] in H.
  apply Z.eqb_neq in Hnz. rewrite Hnz in H. cbn [negb] in H.
  apply bind_Ok in H. destruct H as (nf & _ & H).
  inversion H. eexists. reflexivity.
Qed.

(** With an integer in [target], the next view other than the active one
    raises [TypeError]. *)
Lemma loop_body_after_overwrite
    (app : Jux.App) (n : Z) (k : nat) (dts : list Z) :
  k <> Jux.active_plot app ->
  nth_error (Jux.datetimes app) k = Some dts ->
  dts <> [] ->
  Jux.loop_body (app, Jux.PyInt n) k = Raise TypeError.
Proof.
  intros Hk Hdts Hne. unfold Jux.loop_body.
  apply Nat.eqb_neq in Hk. rewrite Hk.
  unfold Jux.item. rewrite Hdts. cbn [bind].
  rewrite (closest_frame_after_overwrite dts n Hne). reflexivity.
Qed.

(** C9, evaluated.  Three views, A active at frame 2 (t = 20), B in
    running-difference mode with offset 1, C at [0, 5, 19, 25].  The loop
    sets B to its nearest frame, then overwrites [target] with B's new
    reference index; at C the subtraction of an integer from the datetimes
    is a [TypeError], and C is never set to its nearest frame (index 2,
    t = 19). *)
Theorem on_frame_change_fails_after_running_difference :
  Jux.loop_body (Examples.three_views, Jux.PyDatetime 20) 1
  = Ok (Jux.mkApp (Jux.datetimes Examples.three_views) true 0
          [2; 2; 0] [-1; 2; -1] [0; 1; 0],
        Jux.PyInt 2) /\
  Jux.on_frame_change Examples.three_views 2 0 = Raise TypeError /\
  Jux.nearest_index [0; 5; 19; 25] 20 2.
Proof.
  split; [reflexivity |]. split; [reflexivity |].
  exists 19. split; [reflexivity |]. split.
  - intros [| [| [| [| j]]]] e H; cbn in H; inversion H; subst; try lia.
    destruct j; discriminate.
  - intros [| [| [| [| j]]]] e H Hlt; cbn in H; inversion H; subst; try lia.
Qed.

End JuxFacts.

(** ** GCSGeometry: the coupling as an invariant, and the shape of the shell *)

Module GCSShapeFacts.

Import NPFacts GCSFacts.
Local Open Scope R_scope.

Lemma leading_edge_setter_couples (g : GCS.GCSGeometry) (alpha k L : R) :
  GCS.half_angle g = Fin alpha -> GCS.aspect_ratio g = Fin k ->
  0 <= alpha < PI / 2 -> 0 <= k < 1 ->
  exists g', GCS.leading_edge_setter g (Fin L) = Ok g' /\ GCSState.coupled g'.
Proof.
  intros Ha Hk Halpha Hkr.
  pose proof (cos_half_angle_pos _ Halpha) as Hc.
  pose proof (sin_half_angle_nonneg _ Halpha) as Hs.
  destruct g as [a r l c]. unfold GCS.half_angle, GCS.aspect_ratio in Ha, Hk.
  cbn in Ha, Hk. subst a r.
  eexists. split; [reflexivity |].
  exists alpha, k, L, (L * cos alpha * (1 - k) / (1 + sin alpha)).
  unfold GCS.half_angle, GCS.aspect_ratio, GCS.leading_edge, GCS.cone_height,
    GCS.with_cone_height, GCS.with_leading_edge.
  cbn [GCS._half_angle GCS._aspect_ratio GCS._leading_edge GCS._cone_height].
  rewrite compute_cone_height_Fin by lra.
  repeat (split; [first [reflexivity | lra] |]).
  unfold GCSSpec.leading_edge_of. field. split; lra.
Qed.

Lemma cone_height_setter_couples (g : GCS.GCSGeometry) (alpha k h : R) :
  GCS.half_angle g = Fin alpha -> GCS.aspect_ratio g = Fin k ->
  0 <= alpha < PI / 2 -> 0 <= k < 1 ->
  exists g', GCS.cone_height_setter g (Fin h) = Ok g' /\ GCSState.coupled g'.
Proof.
  intros Ha Hk Halpha Hkr.
  pose proof (cos_half_angle_pos _ Halpha) as Hc.
  destruct g as [a r l c]. unfold GCS.half_angle, GCS.aspect_ratio in Ha, Hk.
  cbn in Ha, Hk. subst a r.
  eexists. split; [reflexivity |].
  exists alpha, k, (h * (1 + sin alpha) / (cos alpha * (1 - k))), h.
  unfold GCS.half_angle, GCS.aspect_ratio, GCS.leading_edge, GCS.cone_height,
    GCS.with_cone_height, GCS.with_leading_edge.
  cbn [GCS._half_angle GCS._aspect_ratio GCS._leading_edge GCS._cone_height].
  rewrite compute_leading_edge_Fin by nra.
  repeat (split; [first [reflexivity | lra] |]).
  reflexivity.
Qed.

(** Every setter call inside the domain keeps a coupled geometry coupled. *)
Lemma run_call_keeps_coupled (m : GCS.GCSModel) (c : GCS.call) :
  GCSState.coupled (GCS.geometry m) ->
  GCSState.in_domain c ->
  exists m', GCS.run_call m c = Ok m' /\ GCSState.coupled (GCS.geometry m').
Proof.
  intros (alpha & k & L & h & Ha & Hk & HL & Hh & Halpha & Hkr & Hinv) Hc.
  destruct c as [v | v | v | v | v | v | v]; cbn in Hc; cbn [GCS.run_call].
  - destruct Hc as (a & -> & Hrange).
    unfold GCS.half_angle_setter.
    destruct (leading_edge_setter_couples
                (GCS.with_half_angle (GCS.geometry m) (Fin a)) a k L)
      as (g' & Hset & Hcoupled); try assumption; try reflexivity.
    cbv zeta.
    replace (GCS._leading_edge (GCS.with_half_angle (GCS.geometry m) (Fin a)))
      with (Fin L) by (symmetry; exact HL).
    rewrite Hset. cbn [bind]. eexists. split; [reflexivity | exact Hcoupled].
  - destruct Hc as (k' & -> & Hrange).
    unfold GCS.aspect_ratio_setter.
    destruct (leading_edge_setter_couples
                (GCS.with_aspect_ratio (GCS.geometry m) (Fin k')) alpha k' L)
      as (g' & Hset & Hcoupled); try assumption; try reflexivity.
    cbv zeta.
    replace (GCS._leading_edge (GCS.with_aspect_ratio (GCS.geometry m) (Fin k')))
      with (Fin L) by (symmetry; exact HL).
    rewrite Hset. cbn [bind]. eexists. split; [reflexivity | exact Hcoupled].
  - destruct Hc as (L' & ->).
    destruct (leading_edge_setter_couples (GCS.geometry m) alpha k L')
      as (g' & Hset & Hcoupled); try assumption.
    rewrite Hset. cbn [bind]. eexists. split; [reflexivity | exact Hcoupled].
  - destruct Hc as (h' & ->).
    destruct (cone_height_setter_couples (GCS.geometry m) alpha k h')
      as (g' & Hset & Hcoupled); try assumption.
    rewrite Hset. cbn [bind]. eexists. split; [reflexivity | exact Hcoupled].
  - eexists. split; [reflexivity |]. exists alpha, k, L, h. repeat split; assumption || lra.
  - eexists. split; [reflexivity |]. exists alpha, k, L, h. repeat split; assumption || lra.
  - eexists. split; [reflexivity |]. exists alpha, k, L, h. repeat split; assumption || lra.
Qed.

(** X1.  A model constructed with a half angle in [0, pi/2), an aspect
    ratio in [0, 1) and a finite leading edge, and then driven through any
    sequence of setter calls whose values are finite and inside their
    domains, accepts every call and ends with
    [leading_edge = cone_height * (1 + sin(half_angle)) /
    (cos(half_angle) * (1 - aspect_ratio))]. *)
Theorem coupling_is_invariant
    (alpha k L : R) (lon lat tilt : npfloat) (m0 : GCS.GCSModel)
    (cs : list GCS.call) :
  0 <= alpha < PI / 2 ->
  0 <= k < 1 ->
  GCS.GCSModel__init__ (Fin alpha) (Fin k) (Some (Fin L)) lon lat tilt = Ok m0 ->
  Forall GCSState.in_domain cs ->
  exists m, GCS.run_calls m0 cs = Ok m /\ GCSState.coupled (GCS.geometry m).
Proof.
  intros Halpha Hk Hinit Hcs.
  assert (H0 : GCSState.coupled (GCS.geometry m0)).
  { unfold GCS.GCSModel__init__, GCS.__init__ in Hinit.
    destruct (leading_edge_setter_couples
                (GCS.mkGCSGeometry (Fin alpha) (Fin k) NaN NaN) alpha k L)
      as (g' & Hset & Hcoupled); try assumption; try reflexivity.
    rewrite Hset in Hinit. cbn [bind] in Hinit. inversion Hinit. exact Hcoupled. }
  clear Hinit. revert m0 H0.
  induction Hcs as [| c cs Hc Hcs IH]; intros m0 H0; cbn [GCS.run_calls].
  - exists m0. split; [reflexivity | exact H0].
  - destruct (run_call_keeps_coupled m0 c H0 Hc) as (m1 & Hrun & H1).
    rewrite Hrun. cbn [bind]. apply IH. exact H1.
Qed.

Lemma coupling_is_invariant_witness :
  exists m,
    GCS.run_calls Examples.model_90
      [GCS.SetHalfAngle (Fin (PI / 4)); GCS.SetConeHeight (Fin 3);
       GCS.SetTilt (Fin 1)] = Ok m /\
    GCSState.coupled (GCS.geometry m).
Proof.
  apply (coupling_is_invariant 0 (1 / 2) 2 (Fin (PI / 2)) (Fin 0) (Fin 0)).
  - pose proof PI_RGT_0. lra.
  - lra.
  - reflexivity.
  - repeat constructor.
    + exists (PI / 4). split; [reflexivity |]. pose proof PI_RGT_0. lra.
    + exists 3. reflexivity.
Defined.

(** X2.  Inside the domain, setting the cone height to [h] derives the
    leading edge [h * (1 + sin(half_angle)) / (cos(half_angle) *
    (1 - aspect_ratio))], and setting the leading edge to that derived value
    changes nothing: the cone height it recomputes is [h] again. *)
Theorem cone_height_round_trip (g : GCS.GCSGeometry) (alpha k h : R) :
  GCS.half_angle g = Fin alpha ->
  GCS.aspect_ratio g = Fin k ->
  0 <= alpha < PI / 2 ->
  0 <= k < 1 ->
  exists g1 L,
    GCS.cone_height_setter g (Fin h) = Ok g1 /\
    GCS.cone_height g1 = Fin h /\
    GCS.leading_edge g1 = Fin L /\
    L = GCSSpec.leading_edge_of alpha k h /\
    GCS.leading_edge_setter g1 (Fin L) = Ok g1.
Proof.
  intros Ha Hk Halpha Hkr.
  pose proof (cos_half_angle_pos _ Halpha) as Hc.
  pose proof (sin_half_angle_nonneg _ Halpha) as Hs.
  destruct g as [a r l c]. unfold GCS.half_angle, GCS.aspect_ratio in Ha, Hk.
  cbn in Ha, Hk. subst a r.
  exists (GCS.mkGCSGeometry (Fin alpha) (Fin k)
            (Fin (GCSSpec.leading_edge_of alpha k h)) (Fin h)).
  exists (GCSSpec.leading_edge_of alpha k h).
  assert (E : GCS.compute_leading_edge (Fin alpha) (Fin k) (Fin h)
              = Fin (GCSSpec.leading_edge_of alpha k h)).
  { rewrite compute_leading_edge_Fin by nra. reflexivity. }
  split.
  { unfold GCS.cone_height_setter, GCS.with_cone_height, GCS.with_leading_edge,
      GCS.half_angle, GCS.aspect_ratio.
    cbn [GCS._half_angle GCS._aspect_ratio GCS._leading_edge GCS._cone_height].
    rewrite E. reflexivity. }
  split; [reflexivity |]. split; [reflexivity |]. split; [reflexivity |].
  unfold GCS.leading_edge_setter, GCS.with_cone_height, GCS.with_leading_edge,
    GCS.half_angle, GCS.aspect_ratio.
  cbn [GCS._half_angle GCS._aspect_ratio GCS._leading_edge GCS._cone_height].
  rewrite compute_cone_height_Fin by lra.
  do 3 f_equal. unfold GCSSpec.leading_edge_of. field. split; lra.
Qed.

Lemma cone_height_round_trip_witness :
  exists g1 L,
    GCS.cone_height_setter Examples.geometry0 (Fin 5) = Ok g1 /\
    GCS.cone_height g1 = Fin 5 /\
    GCS.leading_edge g1 = Fin L /\
    L = GCSSpec.leading_edge_of 0 (1 / 2) 5 /\
    GCS.leading_edge_setter g1 (Fin L) = Ok g1.
Proof.
  apply (cone_height_round_trip Examples.geometry0 0 (1 / 2) 5).
  - reflexivity.
  - reflexivity.
  - pose proof PI_RGT_0. lra.
  - lra.
Defined.

(** *** The junctions, the feet and the apex of the shell *)

Lemma tan_asin (k : R) :
  0 <= k < 1 ->
  0 < sqrt (1 - k²) /\ cos (asin k) <> 0 /\
  tan (asin k) = k / sqrt (1 - k²).
Proof.
  intros Hk. assert (Hpos : 0 < 1 - k²) by (unfold Rsqr; nra).
  pose proof (sqrt_lt_R0 _ Hpos) as Hs.
  assert (Hr : -1 <= k <= 1) by lra.
  split; [exact Hs |]. split.
  - rewrite (cos_asin k Hr). lra.
  - unfold tan. rewrite (sin_asin k Hr), (cos_asin k Hr). reflexivity.
Qed.

Lemma delta_Fin (g : GCS.GCSGeometry) (k : R) :
  GCS.aspect_ratio g = Fin k -> 0 <= k < 1 ->
  NP.tan (GCS.delta g) = Fin (k / sqrt (1 - k²)).
Proof.
  intros Hk Hr. destruct (tan_asin k Hr) as (_ & Hc & Ht).
  unfold GCS.delta. rewrite Hk. unfold NP.arcsin.
  rewrite (Rleb_true (-1) k), (Rleb_true k 1) by lra. cbn [andb].
  rewrite (tan_Fin _ Hc), Ht. reflexivity.
Qed.

Section Shape.

Variables (g : GCS.GCSGeometry) (alpha k h : R).
Hypothesis Ha : GCS.half_angle g = Fin alpha.
Hypothesis Hk : GCS.aspect_ratio g = Fin k.
Hypothesis Hh : GCS.cone_height g = Fin h.
Hypothesis Halpha : 0 <= alpha < PI / 2.
Hypothesis Hkr : 0 <= k < 1.

Let Hcos : cos alpha <> 0.
Proof. pose proof (cos_half_angle_pos _ Halpha). lra. Qed.

Let Hk1 : k² <> 1.
Proof. unfold Rsqr. nra. Qed.

Lemma h_Fin : GCS.h g = Fin h.
Proof. exact Hh. Qed.



End Shape.

Ltac triple_eq :=
  repeat match goal with
         | |- Ok _ = Ok _ => apply f_equal
         | |- (_, _) = (_, _) => apply f_equal2
         | |- Fin _ = Fin _ => apply f_equal
         end.



(** X4.  With a half angle in (0, pi/2) both legs start at the origin: at
    [beta = -pi/2] and at [beta = 3 pi/2] the cross section has its centre
    at (0, 0, 0) and radius 0, with the normal along the axis of its leg. *)
Theorem legs_start_at_the_origin (g : GCS.GCSGeometry) (alpha k h : R) :
  GCS.half_angle g = Fin alpha ->
  GCS.aspect_ratio g = Fin k ->
  GCS.cone_height g = Fin h ->
  0 < alpha < PI / 2 ->
  0 <= k < 1 ->
  GCS.cross_section_circle g (Fin (- (PI / 2)))
  = Ok ((Fin 0, Fin 0, Fin 0), Fin 0, (Fin (sin alpha), Fin (cos alpha), Fin 0)) /\
  GCS.cross_section_circle g (Fin (3 * PI / 2))
  = Ok ((Fin 0, Fin 0, Fin 0), Fin 0, (Fin (sin alpha), Fin (- cos alpha), Fin 0)).
Proof.
  intros Ha Hk Hh Halpha Hkr.
  pose proof PI_RGT_0 as Hpi.
  assert (Halpha' : 0 <= alpha < PI / 2) by lra.
  pose proof (cos_half_angle_pos _ Halpha') as Hc.
  assert (Hcos : cos alpha <> 0) by lra.
  assert (Hsin : 0 < sin alpha) by (apply sin_gt_0; lra).
  assert (Hfoot : cos (PI / 2 - alpha) <> 0) by (rewrite cos_shift; lra).
  assert (Etan : tan alpha * tan (PI / 2 - alpha) = 1).
  { unfold tan. rewrite sin_shift, cos_shift. field. lra. }
  assert (EOQ : h - GCSSpec.rho alpha h * tan (PI / 2 - alpha) = 0).
  { unfold GCSSpec.rho. rewrite Rmult_assoc, Etan. ring. }
  split.
  - unfold GCS.cross_section_circle. rewrite Ha, in_rhs_leg_Fin.
    rewrite (Rleb_true _ _) by lra. rewrite (Rleb_true _ _) by lra.
    cbn [andb].
    rewrite (rho_Fin g alpha h Ha Hh Hcos), (delta_Fin g k Hk Hkr).
    unfold GCS.h. fold (GCS.cone_height g). rewrite Hh.
    autorewrite with npfin.
    replace (- (- (PI / 2) + alpha)) with (PI / 2 - alpha) by ring.
    rewrite (tan_Fin _ Hfoot). autorewrite with npfin. rewrite EOQ.
    triple_eq; try reflexivity; ring.
  - unfold GCS.cross_section_circle. rewrite Ha, in_rhs_leg_Fin, in_lhs_leg_Fin.
    rewrite (Rleb_false (3 * PI / 2) (- alpha)) by lra.
    rewrite andb_false_r.
    rewrite (Rleb_true _ _) by lra. rewrite (Rleb_true _ _) by lra.
    cbn [andb].
    rewrite (rho_Fin g alpha h Ha Hh Hcos), (delta_Fin g k Hk Hkr).
    unfold GCS.h. fold (GCS.cone_height g). rewrite Hh.
    unfold NP.pi. autorewrite with npfin.
    replace (3 * PI / 2 - alpha - PI) with (PI / 2 - alpha) by field.
    rewrite (tan_Fin _ Hfoot). autorewrite with npfin. rewrite EOQ.
    triple_eq; try reflexivity; ring.
Qed.

Lemma legs_start_at_the_origin_witness :
  GCS.cross_section_circle Examples.geometry_quarter (Fin (- (PI / 2)))
  = Ok ((Fin 0, Fin 0, Fin 0), Fin 0,
        (Fin (sin (PI / 4)), Fin (cos (PI / 4)), Fin 0)) /\
  GCS.cross_section_circle Examples.geometry_quarter (Fin (3 * PI / 2))
  = Ok ((Fin 0, Fin 0, Fin 0), Fin 0,
        (Fin (sin (PI / 4)), Fin (- cos (PI / 4)), Fin 0)).
Proof.
  apply (legs_start_at_the_origin Examples.geometry_quarter (PI / 4) (1 / 2)
           (2 * cos (PI / 4) * (1 - 1 / 2) / (1 + sin (PI / 4)))).
  - reflexivity.
  - reflexivity.
  - unfold GCS.cone_height, Examples.geometry_quarter.
    cbn [GCS._cone_height].
    apply compute_cone_height_Fin.
    assert (0 <= sin (PI / 4)) by (apply sin_ge_0; pose proof PI_RGT_0; lra).
    lra.
  - pose proof PI_RGT_0. lra.
  - lra.
Defined.



End GCSShapeFacts.

(** ** RotationTransform and the orientation matrix as a rotation *)

Module OrthogonalityFacts.

Import OrientationFacts.
Import RNsatz.
Local Open Scope R_scope.

(** The product [Rz Ry Rx] times its transpose, entry by entry. *)
Lemma Rz_Ry_Rx_orthogonal (gamma beta alpha : R) :
  RotationTransform.dot
    (GCSSpec.finite_matrix (GCSSpec.Rz_Ry_Rx gamma beta alpha))
    (Arrays.transpose (GCSSpec.finite_matrix (GCSSpec.Rz_Ry_Rx gamma beta alpha)))
  = Ok Examples.identity3.
Proof.
  pose proof (sin2_cos2 gamma) as Hz.
  pose proof (sin2_cos2 beta) as Hy.
  pose proof (sin2_cos2 alpha) as Hx.
  unfold Rsqr in Hz, Hy, Hx.
  unfold GCSSpec.Rz_Ry_Rx.
  generalize dependent (cos gamma). generalize dependent (sin gamma).
  generalize dependent (cos beta). generalize dependent (sin beta).
  generalize dependent (cos alpha). generalize dependent (sin alpha).
  intros sx cx Hx sy cy Hy sz cz Hz.
  cbn. unfold Examples.identity3. entrywise; nsatz.
Qed.

End OrthogonalityFacts.

Module RotationFacts.

Import NPFacts OrientationFacts.
Local Open Scope R_scope.

(** X6.  Rotations about one axis add their angles, and the rotation by
    the angle 0 is the identity, for each of the three axes. *)
Theorem rotations_about_one_axis_add (a b : R) :
  RotationTransform.dot (RotationTransform.x (Fin a)) (RotationTransform.x (Fin b))
  = Ok (RotationTransform.x (Fin (a + b))) /\
  RotationTransform.dot (RotationTransform.y (Fin a)) (RotationTransform.y (Fin b))
  = Ok (RotationTransform.y (Fin (a + b))) /\
  RotationTransform.dot (RotationTransform.z (Fin a)) (RotationTransform.z (Fin b))
  = Ok (RotationTransform.z (Fin (a + b))) /\
  RotationTransform.x (Fin 0) = Examples.identity3 /\
  RotationTransform.y (Fin 0) = Examples.identity3 /\
  RotationTransform.z (Fin 0) = Examples.identity3.
Proof.
  rewrite !x_Fin, !y_Fin, !z_Fin.
  rewrite !cos_plus, !sin_plus, cos_0, sin_0.
  repeat split; cbn; unfold Examples.identity3; entrywise; ring.
Qed.

Lemma tmatrix_of_reachable
    (ha ar : npfloat) (le : option npfloat) (lon0 lat0 tilt0 : npfloat)
    (cs : list GCS.call) (m0 m : GCS.GCSModel) (lon lat tilt : R) :
  GCS.GCSModel__init__ ha ar le lon0 lat0 tilt0 = Ok m0 ->
  GCS.run_calls m0 cs = Ok m ->
  GCS.longitude m = Fin lon -> GCS.latitude m = Fin lat ->
  GCS.tilt m = Fin tilt ->
  GCS.tmatrix m
  = Ok (GCSSpec.finite_matrix (GCSSpec.Rz_Ry_Rx (- (0.5) * PI + lon) tilt lat)).
Proof.
  intros Hinit Hrun Hlon Hlat Htilt.
  destruct (init_sets_rotations _ _ _ _ _ _ _ Hinit) as [Hinv0 _].
  pose proof (run_calls_keep_rotations cs m0 m Hinv0 Hrun) as Hinv.
  rewrite (tmatrix_in_step m Hinv), Hlon, Hlat, Htilt.
  apply composition_Fin.
Qed.

(** X7.  The orientation matrix of a model with finite angles is
    orthogonal: multiplied by its transpose it gives the identity, whatever
    setter calls the model went through. *)
Theorem tmatrix_is_orthogonal
    (ha ar : npfloat) (le : option npfloat) (lon0 lat0 tilt0 : npfloat)
    (cs : list GCS.call) (m0 m : GCS.GCSModel) (lon lat tilt : R) :
  GCS.GCSModel__init__ ha ar le lon0 lat0 tilt0 = Ok m0 ->
  GCS.run_calls m0 cs = Ok m ->
  GCS.longitude m = Fin lon -> GCS.latitude m = Fin lat ->
  GCS.tilt m = Fin tilt ->
  (t <- GCS.tmatrix m ;; RotationTransform.dot t (Arrays.transpose t))
  = Ok Examples.identity3.
Proof.
  intros Hinit Hrun Hlon Hlat Htilt.
  rewrite (tmatrix_of_reachable _ _ _ _ _ _ _ _ _ _ _ _ Hinit Hrun Hlon Hlat Htilt).
  cbn [bind]. apply OrthogonalityFacts.Rz_Ry_Rx_orthogonal.
Qed.

Lemma tmatrix_is_orthogonal_witness :
  (t <- GCS.tmatrix Examples.model_180_90 ;;
   RotationTransform.dot t (Arrays.transpose t))
  = Ok Examples.identity3.
Proof.
  apply (tmatrix_is_orthogonal (Fin 0) (Fin (1 / 2)) (Some (Fin 2))
           (Fin (PI / 2)) (Fin 0) (Fin 0)
           [GCS.SetLongitude (Fin PI); GCS.SetLatitude (Fin (PI / 2))]
           Examples.model_90 Examples.model_180_90 PI (PI / 2) 0);
    reflexivity.
Defined.

(** X8.  With tilt 0 the orientation matrix turns the axis of the shell,
    the y axis on which the apex lies, into the direction of the model's
    longitude and latitude:
    (cos(lat) cos(lon), cos(lat) sin(lon), sin(lat)). *)
Theorem apex_axis_points_to_longitude_and_latitude
    (ha ar : npfloat) (le : option npfloat) (lon0 lat0 tilt0 : npfloat)
    (cs : list GCS.call) (m0 m : GCS.GCSModel) (lon lat : R) :
  GCS.GCSModel__init__ ha ar le lon0 lat0 tilt0 = Ok m0 ->
  GCS.run_calls m0 cs = Ok m ->
  GCS.longitude m = Fin lon -> GCS.latitude m = Fin lat ->
  GCS.tilt m = Fin 0 ->
  (t <- GCS.tmatrix m ;; Arrays.rotate [[Fin 0; Fin 1; Fin 0]] t)
  = Ok [[Fin (cos lat * cos lon); Fin (cos lat * sin lon); Fin (sin lat)]].
Proof.
  intros Hinit Hrun Hlon Hlat Htilt.
  rewrite (tmatrix_of_reachable _ _ _ _ _ _ _ _ _ _ _ _ Hinit Hrun Hlon Hlat Htilt).
  cbn [bind]. unfold GCSSpec.Rz_Ry_Rx.
  replace (- (0.5) * PI + lon) with (- (PI / 2 - lon)) by lra.
  rewrite cos_neg, sin_neg, cos_shift, sin_shift, cos_0, sin_0.
  cbn. entrywise; ring.
Qed.

Lemma apex_axis_points_to_longitude_and_latitude_witness :
  (t <- GCS.tmatrix Examples.model_180_90 ;;
   Arrays.rotate [[Fin 0; Fin 1; Fin 0]] t)
  = Ok [[Fin (cos (PI / 2) * cos PI); Fin (cos (PI / 2) * sin PI);
         Fin (sin (PI / 2))]].
Proof.
  apply (apex_axis_points_to_longitude_and_latitude
           (Fin 0) (Fin (1 / 2)) (Some (Fin 2))
           (Fin (PI / 2)) (Fin 0) (Fin 0)
           [GCS.SetLongitude (Fin PI); GCS.SetLatitude (Fin (PI / 2))]
           Examples.model_90 Examples.model_180_90 PI (PI / 2));
    reflexivity.
Defined.

End RotationFacts.

(** ** [circle]: the points it returns *)

Module VectorFacts.

Import RNsatz.
Local Open Scope R_scope.

(** For orthonormal [e1], [e2] and [e3 = e1 x e2], the vector
    [A e2 + B e3] is orthogonal to [e1] and has the squared length
    [A^2 + B^2]. *)
Lemma in_plane_generic (e1x e1y e1z e2x e2y e2z A B : R) :
  e1x * e1x + e1y * e1y + e1z * e1z = 1 ->
  e2x * e2x + e2y * e2y + e2z * e2z = 1 ->
  e1x * e2x + e1y * e2y + e1z * e2z = 0 ->
  (A * e2x + B * (e1y * e2z - e1z * e2y)) * e1x
  + (A * e2y + B * (e1z * e2x - e1x * e2z)) * e1y
  + (A * e2z + B * (e1x * e2y - e1y * e2x)) * e1z = 0.
Proof. intros H1 H2 H12. nsatz. Qed.

Lemma on_sphere_generic (e1x e1y e1z e2x e2y e2z A B : R) :
  e1x * e1x + e1y * e1y + e1z * e1z = 1 ->
  e2x * e2x + e2y * e2y + e2z * e2z = 1 ->
  e1x * e2x + e1y * e2y + e1z * e2z = 0 ->
  (A * e2x + B * (e1y * e2z - e1z * e2y)) * (A * e2x + B * (e1y * e2z - e1z * e2y))
  + (A * e2y + B * (e1z * e2x - e1x * e2z)) * (A * e2y + B * (e1z * e2x - e1x * e2z))
  + (A * e2z + B * (e1x * e2y - e1y * e2x)) * (A * e2z + B * (e1x * e2y - e1y * e2x))
  = A * A + B * B.
Proof. intros H1 H2 H12. nsatz. Qed.

End VectorFacts.

Module CircleFacts.

Import NPFacts.
Local Open Scope R_scope.

(** Scaling a non-zero vector by the inverse of its norm gives a unit
    vector. *)
Lemma normalised (x y z : R) :
  0 < x * x + y * y + z * z ->
  let s := 1 / sqrt (x * x + y * y + z * z) in
  0 < s /\
  (x * s) * (x * s) + (y * s) * (y * s) + (z * s) * (z * s) = 1.
Proof.
  intros Hpos s.
  pose proof (sqrt_lt_R0 _ Hpos) as Hs.
  pose proof (sqrt_sqrt (x * x + y * y + z * z) (Rlt_le _ _ Hpos)) as Hss.
  split.
  - unfold s. apply Rdiv_lt_0_compat; lra.
  - unfold s.
    transitivity ((x * x + y * y + z * z)
                  / (sqrt (x * x + y * y + z * z) * sqrt (x * x + y * y + z * z))).
    + field. lra.
    + rewrite Hss. field. lra.
Qed.

Lemma norm_Fin (x y z : R) :
  Geometry.norm (Fin x, Fin y, Fin z) = Fin (sqrt (x * x + y * y + z * z)).
Proof.
  unfold Geometry.norm. autorewrite with npfin. apply sqrt_Fin.
  nra.
Qed.

Lemma normalise_Fin (x y z : R) :
  0 < x * x + y * y + z * z ->
  Geometry.scale (Fin x, Fin y, Fin z)
    (NP.div (Fin 1) (Geometry.norm (Fin x, Fin y, Fin z)))
  = Geometry.finite
      (let s := 1 / sqrt (x * x + y * y + z * z) in (x * s, y * s, z * s)).
Proof.
  intros Hpos. pose proof (sqrt_lt_R0 _ Hpos) as Hs.
  rewrite norm_Fin, div_Fin by lra. reflexivity.
Qed.

(** The samples of [linspace] between finite bounds are finite. *)
Lemma In_set_last (l : list npfloat) (v x : npfloat) :
  In x (Geometry.set_last l v) -> In x l \/ x = v.
Proof.
  unfold Geometry.set_last. destruct l as [| a l]; [intros [] |].
  intros H. apply in_app_or in H. destruct H as [H | [H | []]].
  - left. revert a H. induction l as [| b l IH]; intros a H; [destruct H |].
    cbn [removelast] in H. destruct H as [H | H]; [left; exact H | right].
    apply (IH b H).
  - right. symmetry. exact H.
Qed.

Lemma linspace_finite (a b : R) (num : nat) (endpoint : bool) (t : npfloat) :
  In t (Geometry.linspace (Fin a) (Fin b) num endpoint) ->
  exists tau, t = Fin tau.
Proof.
  unfold Geometry.linspace.
  set (div := if endpoint then Nat.pred num else num).
  assert (Hmap : forall x,
    In x (map (fun i =>
                 if Nat.ltb 0 div
                 then NP.add (NP.mul (Fin (INR i))
                                (NP.div (NP.sub (Fin b) (Fin a)) (Fin (INR div))))
                             (Fin a)
                 else NP.add (NP.mul (Fin (INR i)) (NP.sub (Fin b) (Fin a)))
                             (Fin a)) (seq 0 num)) ->
    exists tau, x = Fin tau).
  { intros x Hx. apply in_map_iff in Hx. destruct Hx as (i & <- & _).
    destruct (Nat.ltb 0 div) eqn:E.
    - apply Nat.ltb_lt in E.
      assert (INR div <> 0) by (apply not_0_INR; lia).
      autorewrite with npfin. rewrite div_Fin by assumption.
      autorewrite with npfin. eexists. reflexivity.
    - autorewrite with npfin. eexists. reflexivity. }
  destruct (endpoint && Nat.ltb 1 num)%bool.
  - intros H. apply In_set_last in H. destruct H as [H | ->].
    + apply Hmap. exact H.
    + eexists. reflexivity.
  - apply Hmap.
Qed.

(** Without [perp] the second axis is a non-zero vector orthogonal to a
    unit [e_1]. *)
Lemma second_axis_None (x y z : R) :
  x * x + y * y + z * z = 1 ->
  exists ux uy uz,
    Geometry.second_axis (Fin x, Fin y, Fin z) None
    = Geometry.finite (ux, uy, uz) /\
    0 < ux * ux + uy * uy + uz * uz /\
    ux * x + uy * y + uz * z = 0.
Proof.
  intros Hunit. unfold Geometry.second_axis, Geometry.absolute, NP.gt, NP.lt.
  unfold Rltb. destruct (Rlt_dec 0.9 (Rabs x)) as [Hbig | Hsmall].
  - exists (- z), 0, x. split; [reflexivity |]. split; [| ring].
    assert (0.81 < x * x).
    { replace (x * x) with (Rabs x * Rabs x)
        by (unfold Rabs; destruct (Rcase_abs x); ring).
      pose proof (Rabs_pos x). nra. }
    nra.
  - exists 0, z, (- y). split; [reflexivity |]. split; [| ring].
    assert (x * x <= 0.81).
    { replace (x * x) with (Rabs x * Rabs x)
        by (unfold Rabs; destruct (Rcase_abs x); ring).
      pose proof (Rabs_pos x). nra. }
    nra.
Qed.

(** The points of a circle on an orthonormal pair of axes. *)
Lemma circle_on_basis (cx cy cz nx ny nz ux uy uz r toff : R)
    (num : nat) (end_point : bool) (perp : option Geometry.vec3)
    (p : Geometry.vec3) :
  0 < nx * nx + ny * ny + nz * nz ->
  (let s := 1 / sqrt (nx * nx + ny * ny + nz * nz) in
   Geometry.second_axis (Geometry.finite (nx * s, ny * s, nz * s)) perp
   = Geometry.finite (ux, uy, uz)) ->
  0 < ux * ux + uy * uy + uz * uz ->
  ux * nx + uy * ny + uz * nz = 0 ->
  In p (Geometry.circle (Fin cx, Fin cy, Fin cz) (Fin nx, Fin ny, Fin nz)
          (Fin r) num end_point perp (Fin toff)) ->
  exists x y z,
    p = (Fin x, Fin y, Fin z) /\
    (x - cx) * nx + (y - cy) * ny + (z - cz) * nz = 0 /\
    (x - cx) * (x - cx) + (y - cy) * (y - cy) + (z - cz) * (z - cz) = r * r.
Proof.
  intros Hn Haxis Hu Horth Hin.
  destruct (normalised nx ny nz Hn) as (Hs1 & Hunit1).
  destruct (normalised ux uy uz Hu) as (Hs2 & Hunit2).
  cbv zeta in Haxis, Hunit1, Hunit2.
  set (s1 := 1 / sqrt (nx * nx + ny * ny + nz * nz)) in *.
  set (s2 := 1 / sqrt (ux * ux + uy * uy + uz * uz)) in *.
  unfold Geometry.circle in Hin.
  rewrite (normalise_Fin nx ny nz Hn) in Hin. cbv zeta in Hin. fold s1 in Hin.
  rewrite Haxis in Hin.
  change (Geometry.finite (ux, uy, uz)) with (Fin ux, Fin uy, Fin uz) in Hin.
  rewrite (normalise_Fin ux uy uz Hu) in Hin. cbv zeta in Hin. fold s2 in Hin.
  apply in_map_iff in Hin. destruct Hin as (theta & <- & Htheta).
  apply in_map_iff in Htheta. destruct Htheta as (t & <- & Ht).
  unfold NP.pi in Ht. rewrite mul_Fin in Ht.
  destruct (linspace_finite _ _ _ _ _ Ht) as (tau & ->).
  autorewrite with npfin.
  unfold Geometry.finite, Geometry.cross, Geometry.row.
  autorewrite with npfin.
  eexists. eexists. eexists. split; [reflexivity |].
  set (A := r * cos (toff + tau)). set (B := r * sin (toff + tau)).
  assert (H12 : nx * s1 * (ux * s2) + ny * s1 * (uy * s2) + nz * s1 * (uz * s2) = 0).
  { replace (nx * s1 * (ux * s2) + ny * s1 * (uy * s2) + nz * s1 * (uz * s2))
      with ((ux * nx + uy * ny + uz * nz) * (s1 * s2)) by ring.
    rewrite Horth. ring. }
  pose proof (VectorFacts.in_plane_generic _ _ _ _ _ _ A B Hunit1 Hunit2 H12) as Hplane.
  pose proof (VectorFacts.on_sphere_generic _ _ _ _ _ _ A B Hunit1 Hunit2 H12) as Hsphere.
  split.
  - apply (Rmult_eq_reg_r s1); [| lra]. rewrite Rmult_0_l.
    rewrite <- Hplane. ring.
  - transitivity (A * A + B * B).
    + rewrite <- Hsphere. ring.
    + unfold A, B. pose proof (sin2_cos2 (toff + tau)) as Hsc.
      unfold Rsqr in Hsc.
      replace (r * cos (toff + tau) * (r * cos (toff + tau))
               + r * sin (toff + tau) * (r * sin (toff + tau)))
        with (r * r * (sin (toff + tau) * sin (toff + tau)
                       + cos (toff + tau) * cos (toff + tau))) by ring.
      rewrite Hsc. ring.
Qed.

(** X9.  For finite arguments and a non-zero normal, every point that
    [circle] returns lies on the circle: in the plane through the centre
    orthogonal to the normal, at the distance [radius] from the centre.
    This holds without [perp], and with a non-zero [perp] orthogonal to the
    normal. *)
Theorem circle_points_lie_on_the_circle
    (cx cy cz nx ny nz r toff : R) (num : nat) (end_point : bool)
    (perp : option (R * R * R)) (p : Geometry.vec3) :
  0 < nx * nx + ny * ny + nz * nz ->
  match perp with
  | None => True
  | Some (px, py, pz) =>
      0 < px * px + py * py + pz * pz /\ px * nx + py * ny + pz * nz = 0
  end ->
  In p (Geometry.circle (Fin cx, Fin cy, Fin cz) (Fin nx, Fin ny, Fin nz)
          (Fin r) num end_point (option_map Geometry.finite perp) (Fin toff)) ->
  exists x y z,
    p = (Fin x, Fin y, Fin z) /\
    (x - cx) * nx + (y - cy) * ny + (z - cz) * nz = 0 /\
    (x - cx) * (x - cx) + (y - cy) * (y - cy) + (z - cz) * (z - cz) = r * r.
Proof.
  intros Hn Hperp Hin.
  destruct (normalised nx ny nz Hn) as (Hs1 & Hunit1). cbv zeta in Hunit1.
  destruct perp as [[[px py] pz] |].
  - destruct Hperp as (Hp & Horth).
    apply (circle_on_basis cx cy cz nx ny nz px py pz r toff num end_point
             (Some (Geometry.finite (px, py, pz)))); try assumption.
    reflexivity.
  - destruct (second_axis_None _ _ _ Hunit1) as (ux & uy & uz & Haxis & Hu & Horth).
    apply (circle_on_basis cx cy cz nx ny nz ux uy uz r toff num end_point None);
      try assumption.
    apply (Rmult_eq_reg_r (1 / sqrt (nx * nx + ny * ny + nz * nz))); [| lra].
    rewrite Rmult_0_l, <- Horth. ring.
Qed.

(** [circle] returns [num_points] points. *)
Lemma length_set_last (l : list npfloat) (v : npfloat) :
  List.length (Geometry.set_last l v) = List.length l.
Proof.
  unfold Geometry.set_last. destruct l as [| a l]; [reflexivity |].
  rewrite length_app. cbn [List.length].
  assert (H : forall (b : npfloat) (m : list npfloat),
             List.length (removelast (b :: m)) = List.length m).
  { intros b m. revert b. induction m as [| c m IH]; intros b; [reflexivity |].
    cbn [removelast List.length] in *. rewrite IH. reflexivity. }
  rewrite H. lia.
Qed.

Lemma length_linspace (a b : npfloat) (num : nat) (endpoint : bool) :
  List.length (Geometry.linspace a b num endpoint) = num.
Proof.
  unfold Geometry.linspace.
  destruct (endpoint && Nat.ltb 1 num)%bool;
    [rewrite length_set_last |]; rewrite length_map, length_seq; reflexivity.
Qed.

Lemma length_circle (center normal : Geometry.vec3) (radius : npfloat)
    (num : nat) (end_point : bool) (perp : option Geometry.vec3)
    (toffset : npfloat) :
  List.length (Geometry.circle center normal radius num end_point perp toffset)
  = num.
Proof.
  unfold Geometry.circle. rewrite !length_map. apply length_linspace.
Qed.

Lemma hd_In {A : Type} (d : A) (l : list A) : l <> [] -> In (hd d l) l.
Proof. destruct l; [congruence | intros _; left; reflexivity]. Qed.

Lemma circle_points_lie_on_the_circle_witness :
  exists x y z,
    hd (NaN, NaN, NaN)
       (Geometry.circle (Fin 0, Fin 2, Fin 0) (Fin 1, Fin 0, Fin 0)
          (Fin 3) 4 false (option_map Geometry.finite (Some (0, 0, 1)))
          (Fin 0))
    = (Fin x, Fin y, Fin z) /\
    (x - 0) * 1 + (y - 2) * 0 + (z - 0) * 0 = 0 /\
    (x - 0) * (x - 0) + (y - 2) * (y - 2) + (z - 0) * (z - 0) = 3 * 3.
Proof.
  apply (circle_points_lie_on_the_circle 0 2 0 1 0 0 3 0 4 false
           (Some (0, 0, 1))).
  - lra.
  - split; lra.
  - apply hd_In. intros E.
    pose proof (length_circle (Fin 0, Fin 2, Fin 0) (Fin 1, Fin 0, Fin 0)
                  (Fin 3) 4 false (option_map Geometry.finite (Some (0, 0, 1)))
                  (Fin 0)) as H.
    rewrite E in H. discriminate.
Defined.

Lemma last_set_last (l : list npfloat) (v d : npfloat) :
  l <> [] -> last (Geometry.set_last l v) d = v.
Proof.
  unfold Geometry.set_last. destruct l as [| a l]; [congruence |].
  intros _. apply last_last.
Qed.

Lemma last_map {A B : Type} (f : A -> B) (l : list A) (d : A) :
  last (map f l) (f d) = f (last l d).
Proof.
  induction l as [| a l IH]; [reflexivity |].
  destruct l as [| b l]; [reflexivity |]. exact IH.
Qed.

(** X10.  With [end_point] and at least two points, [circle] returns
    [num_points] points and closes the loop: its last point is its first
    point again. *)
Theorem circle_is_closed
    (center normal : Geometry.vec3) (radius : npfloat) (num : nat)
    (perp : option Geometry.vec3) (toff : R) (d : Geometry.vec3) :
  (2 <= num)%nat ->
  let points :=
    Geometry.circle center normal radius num true perp (Fin toff) in
  List.length points = num /\ last points d = hd d points.
Proof.
  intros Hnum points. split; [apply length_circle |].
  unfold points, Geometry.circle.
  set (e_1 := Geometry.scale normal (NP.div (Fin 1) (Geometry.norm normal))).
  set (e_2 := Geometry.scale (Geometry.second_axis e_1 perp)
                (NP.div (Fin 1) (Geometry.norm (Geometry.second_axis e_1 perp)))).
  set (e_3 := Geometry.cross e_1 e_2).
  set (f := fun t => Geometry.row center (NP.mul radius (NP.cos t)) e_2
                       (NP.mul radius (NP.sin t)) e_3).
  set (g := fun t => NP.add (Fin toff) t).
  destruct num as [| [| n]]; try lia.
  assert (Hlast : f (g (Fin (2 * PI))) = f (g (Fin 0))).
  { unfold f, g. autorewrite with npfin.
    rewrite cos_plus, sin_plus, cos_2PI, sin_2PI, Rplus_0_r.
    do 2 f_equal; f_equal; ring. }
  unfold Geometry.linspace.
  replace (true && Nat.ltb 1 (S (S n)))%bool with true by reflexivity.
  cbn [Nat.pred seq map].
  replace (Nat.ltb 0 (S n)) with true by reflexivity.
  set (rest := map _ (seq 2 n)).
  set (y0 := NP.add (NP.mul (Fin (INR 0)) _) (Fin 0)).
  set (y1 := NP.add (NP.mul (Fin (INR 1)) _) (Fin 0)).
  assert (E0 : y0 = Fin 0).
  { unfold y0, NP.pi. autorewrite with npfin.
    rewrite div_Fin by (apply not_0_INR; lia).
    autorewrite with npfin. f_equal. cbn [INR]. ring. }
  cbn [hd map].
  transitivity (f (g (Fin (2 * PI)))).
  - assert (Hne : y0 :: y1 :: rest <> []) by discriminate.
    pose proof (last_set_last (y0 :: y1 :: rest) (NP.mul (Fin 2) NP.pi)
                  (Fin 0) Hne) as Hl.
    set (l := Geometry.set_last (y0 :: y1 :: rest) (NP.mul (Fin 2) NP.pi)) in *.
    assert (Hl_ne : l <> []).
    { unfold l, Geometry.set_last. intros H. apply app_eq_nil in H.
      destruct H as [_ H]. discriminate. }
    assert (Hany : forall (A : Type) (m : list A) (d1 d2 : A),
               m <> [] -> last m d1 = last m d2).
    { intros A m. induction m as [| a m IH]; intros d1 d2 H; [congruence |].
      destruct m as [| b m]; [reflexivity |]. apply IH. discriminate. }
    rewrite (Hany _ (map f (map g l)) d (f (g (Fin 0)))).
    + rewrite !last_map, Hl. unfold NP.pi. rewrite mul_Fin. reflexivity.
    + destruct l; [congruence | discriminate].
  - rewrite Hlast. unfold Geometry.set_last. cbn [removelast app map hd].
    rewrite E0. reflexivity.
Qed.

Lemma circle_is_closed_witness :
  let points :=
    Geometry.circle (Fin 0, Fin 2, Fin 0) (Fin 1, Fin 0, Fin 0) (Fin 3) 5 true
      None (Fin 0) in
  List.length points = 5%nat /\ last points (NaN, NaN, NaN) = hd (NaN, NaN, NaN) points.
Proof.
  apply (circle_is_closed (Fin 0, Fin 2, Fin 0) (Fin 1, Fin 0, Fin 0) (Fin 3)
           5 None 0 (NaN, NaN, NaN)).
  lia.
Defined.

End CircleFacts.

(** ** The samplers never leave the range of [cross_section_circle] *)

Module SamplerFacts.

Import ResultFacts NPFacts GCSFacts OrientationFacts CircleFacts.
Local Open Scope R_scope.

(** Between [-pi/2] and [3 pi/2] one of the three branches is taken. *)
Lemma cross_section_circle_returns (g : GCS.GCSGeometry) (alpha beta : R) :
  GCS.half_angle g = Fin alpha ->
  0 < alpha < PI / 2 ->
  - (PI / 2) <= beta <= 3 * PI / 2 ->
  exists csn, GCS.cross_section_circle g (Fin beta) = Ok csn.
Proof.
  intros Ha Halpha Hbeta. pose proof PI_RGT_0 as Hpi.
  unfold GCS.cross_section_circle. rewrite Ha.
  rewrite in_rhs_leg_Fin, in_lhs_leg_Fin, in_curved_section_Fin.
  destruct (Rle_dec beta (- alpha)) as [H1 | H1].
  - rewrite (Rleb_true _ _) by lra. rewrite (Rleb_true _ _ H1).
    cbn [andb]. eexists. reflexivity.
  - rewrite (Rleb_false beta (- alpha)) by lra. rewrite andb_false_r.
    destruct (Rle_dec (PI + alpha) beta) as [H2 | H2].
    + rewrite (Rleb_true _ _ H2). rewrite (Rleb_true _ _) by lra.
      cbn [andb]. eexists. reflexivity.
    + rewrite (Rleb_false (PI + alpha) beta) by lra. cbn [andb].
      rewrite (Rltb_true _ _) by lra. rewrite (Rltb_true _ _) by lra.
      cbn [andb]. unfold GCS.R, GCS.X0. cbn [bind]. eexists. reflexivity.
Qed.

(** The samples of [linspace] with its end point lie between its bounds. *)
Lemma linspace_between (a b : R) (num : nat) (t : npfloat) :
  a <= b ->
  In t (Geometry.linspace (Fin a) (Fin b) num true) ->
  exists tau, t = Fin tau /\ a <= tau <= b.
Proof.
  intros Hab. unfold Geometry.linspace.
  assert (Hmap : forall x,
    In x (map (fun i =>
                 if Nat.ltb 0 (Nat.pred num)
                 then NP.add (NP.mul (Fin (INR i))
                                (NP.div (NP.sub (Fin b) (Fin a))
                                        (Fin (INR (Nat.pred num)))))
                             (Fin a)
                 else NP.add (NP.mul (Fin (INR i)) (NP.sub (Fin b) (Fin a)))
                             (Fin a)) (seq 0 num)) ->
    exists tau, x = Fin tau /\ a <= tau <= b).
  { intros x Hx. apply in_map_iff in Hx. destruct Hx as (i & <- & Hi).
    apply in_seq in Hi.
    destruct (Nat.ltb 0 (Nat.pred num)) eqn:E.
    - apply Nat.ltb_lt in E.
      assert (Hd : 0 < INR (Nat.pred num)) by (apply lt_0_INR; exact E).
      assert (Hi' : 0 <= INR i <= INR (Nat.pred num)).
      { split; [apply pos_INR | apply le_INR; lia]. }
      autorewrite with npfin. rewrite div_Fin by lra.
      autorewrite with npfin. eexists. split; [reflexivity |].
      set (d := INR (Nat.pred num)) in *. set (q := INR i) in *.
      assert (Hq : 0 <= q / d <= 1).
      { split.
        - apply Rmult_le_pos; [lra | apply Rlt_le, Rinv_0_lt_compat; exact Hd].
        - apply (Rmult_le_reg_r d); [exact Hd |].
          replace (q / d * d) with q by (field; lra). lra. }
      replace (q * ((b - a) / d) + a) with (q / d * (b - a) + a) by (field; lra).
      nra.
    - apply Nat.ltb_ge in E. assert (i = 0%nat) by lia. subst i.
      autorewrite with npfin. eexists. split; [reflexivity |].
      cbn [INR]. lra. }
  destruct (true && Nat.ltb 1 num)%bool.
  - intros H. apply In_set_last in H. destruct H as [H | ->].
    + apply Hmap. exact H.
    + exists b. split; [reflexivity | lra].
  - apply Hmap.
Qed.

(** A loop whose body returns on every element returns. *)
Lemma for_each_returns {A B : Type} (f : A -> result B) (P : B -> Prop)
    (l : list A) :
  (forall a, In a l -> exists b, f a = Ok b /\ P b) ->
  exists bs, Sampler.for_each f l = Ok bs /\
             List.length bs = List.length l /\ Forall P bs.
Proof.
  induction l as [| a l IH]; intros H; cbn [Sampler.for_each].
  - exists []. repeat split. constructor.
  - destruct (H a (or_introl eq_refl)) as (b & Hb & HP).
    destruct IH as (bs & Hbs & Hlen & Hall).
    { intros a' Ha'. apply H. right. exact Ha'. }
    rewrite Hb. cbn [bind]. rewrite Hbs. cbn [bind].
    exists (b :: bs). split; [reflexivity |]. split.
    + cbn [List.length]. rewrite Hlen. reflexivity.
    + constructor; assumption.
Qed.

(** The orientation matrix of a model whose rotations are in step has
    three rows of three entries. *)
Lemma tmatrix_shape (m : GCS.GCSModel) :
  GCSSpec.rotations_in_step m ->
  exists a b c d e f g h i,
    GCS.tmatrix m = Ok [[a; b; c]; [d; e; f]; [g; h; i]].
Proof.
  intros (Hx & Hy & Hz). unfold GCS.tmatrix. rewrite Hx, Hy, Hz.
  unfold RotationTransform.x, RotationTransform.y, RotationTransform.z.
  cbn. repeat eexists.
Qed.

(** Rotating rows of three entries by a 3 x 3 matrix keeps their number. *)
Lemma rotate_rows (rows : list Geometry.vec3) (a b c d e f g h i : npfloat) :
  exists out,
    Arrays.rotate (map Sampler.as_row rows) [[a; b; c]; [d; e; f]; [g; h; i]]
    = Ok out /\
    List.length out = List.length rows.
Proof.
  unfold Arrays.rotate, RotationTransform.dot.
  assert (Hal : RotationTransform.aligned (map Sampler.as_row rows)
                  (Arrays.transpose [[a; b; c]; [d; e; f]; [g; h; i]]) = true).
  { unfold RotationTransform.aligned. apply forallb_forall.
    intros row Hrow. apply in_map_iff in Hrow.
    destruct Hrow as ([[x y] z] & <- & _). reflexivity. }
  rewrite Hal. eexists. split; [reflexivity |].
  rewrite !length_map. reflexivity.
Qed.

Lemma length_concat_uniform {A : Type} (n : nat) (l : list (list A)) :
  Forall (fun c => List.length c = n) l ->
  List.length (List.concat l) = (List.length l * n)%nat.
Proof.
  induction 1 as [| c l Hc Hl IH]; cbn [List.concat List.length]; [reflexivity |].
  rewrite length_app, Hc, IH. lia.
Qed.

Section Range.

Variables (g : GCS.GCSGeometry) (alpha h sun : R).
Hypothesis Ha : GCS.half_angle g = Fin alpha.
Hypothesis Hh : GCS.cone_height g = Fin h.
Hypothesis Halpha : 0 < alpha < PI / 2.
Hypothesis Hhpos : 0 < h.
Hypothesis Hsun : 0 < sun.

(** The surface angle is finite and strictly between -90 and 90
    degrees. *)
Lemma surface_angle_bound :
  exists sa, Sampler.surface_angle_deg (Fin sun) g = Fin sa /\ -90 < sa < 90.
Proof.
  pose proof PI_RGT_0 as Hpi.
  assert (Halpha' : 0 <= alpha < PI / 2) by lra.
  pose proof (cos_half_angle_pos _ Halpha') as Hc.
  assert (Hcos : cos alpha <> 0) by lra.
  assert (Hsin : 0 < sin alpha) by (apply sin_gt_0; lra).
  assert (Htan : 0 < tan alpha) by (apply tan_gt_0; lra).
  assert (Hrho : GCSSpec.rho alpha h <> 0) by (unfold GCSSpec.rho; nra).
  unfold Sampler.surface_angle_deg, Sampler.to_deg, NP.pi.
  rewrite (rho_Fin g alpha h Ha Hh Hcos), Ha.
  unfold GCS.h. fold (GCS.cone_height g). rewrite Hh.
  autorewrite with npfin. rewrite (div_Fin _ _ Hrho), (div_Fin 180 PI) by lra.
  unfold Sampler.arctan. autorewrite with npfin.
  eexists. split; [reflexivity |].
  set (xi := (h - sun) / GCSSpec.rho alpha h).
  assert (Hxi : xi < tan (PI / 2 - alpha)).
  { unfold xi, GCSSpec.rho, tan. rewrite sin_shift, cos_shift.
    apply (Rmult_lt_reg_r (h * (sin alpha / cos alpha))).
    { apply Rmult_lt_0_compat; [lra | apply Rdiv_lt_0_compat; lra]. }
    replace ((h - sun) / (h * (sin alpha / cos alpha)) * (h * (sin alpha / cos alpha)))
      with (h - sun) by (field; repeat split; lra).
    replace (cos alpha / sin alpha * (h * (sin alpha / cos alpha)))
      with h by (field; split; lra).
    lra. }
  assert (Hup : atan xi < PI / 2 - alpha).
  { rewrite <- (atan_tan (PI / 2 - alpha)) by lra.
    apply atan_increasing. exact Hxi. }
  pose proof (atan_bound xi) as Hlow.
  assert (Hc180 : 0 < 180 / PI) by (apply Rdiv_lt_0_compat; lra).
  assert (E : 180 / PI * atan xi + alpha * (180 / PI)
              = (atan xi + alpha) * (180 / PI)) by ring.
  rewrite E.
  assert (E90 : PI / 2 * (180 / PI) = 90) by (field; lra).
  assert (L : - (PI / 2) * (180 / PI) < (atan xi + alpha) * (180 / PI)).
  { apply Rmult_lt_compat_r; [exact Hc180 | lra]. }
  assert (U : (atan xi + alpha) * (180 / PI) < PI / 2 * (180 / PI)).
  { apply Rmult_lt_compat_r; [exact Hc180 | lra]. }
  replace (- (PI / 2) * (180 / PI)) with (- (PI / 2 * (180 / PI))) in L by ring.
  rewrite E90 in L, U. lra.
Qed.

(** Every azimuth the samplers ask for has a cross section. *)
Lemma sampled_azimuths_return (num : nat) (beta : npfloat) :
  In beta
     (Geometry.linspace
        (NP.neg (Sampler.surface_angle_deg (Fin sun) g))
        (NP.add (Fin 180) (Sampler.surface_angle_deg (Fin sun) g)) num true) ->
  exists b csn,
    beta = Fin b /\
    GCS.cross_section_circle g (Sampler.to_rad beta) = Ok csn.
Proof.
  pose proof PI_RGT_0 as Hpi.
  destruct surface_angle_bound as (sa & -> & Hsa).
  autorewrite with npfin. intros Hin.
  apply linspace_between in Hin; [| lra].
  destruct Hin as (tau & -> & Htau).
  unfold Sampler.to_rad. autorewrite with npfin.
  destruct (cross_section_circle_returns g alpha (tau * (PI / 180)) Ha Halpha)
    as (csn & Hcsn).
  - assert (Hc : 0 < PI / 180) by lra.
    split.
    + replace (- (PI / 2)) with (-90 * (PI / 180)) by field.
      apply Rmult_le_compat_r; lra.
    + replace (3 * PI / 2) with (270 * (PI / 180)) by field.
      apply Rmult_le_compat_r; lra.
  - exists tau, csn. split; [reflexivity | exact Hcsn].
Qed.

End Range.

(** X11.  On a model reached from the constructor whose half angle lies
    strictly between 0 and 90 degrees and whose cone height is positive,
    with a positive solar radius, [points] never meets the error of
    [cross_section_circle]: all 54 azimuths it samples lie in the range of
    the three branches, and it returns 54 * 38 rotated points. *)
Theorem points_samples_stay_in_range
    (ha ar : npfloat) (le : option npfloat) (lon0 lat0 tilt0 : npfloat)
    (cs : list GCS.call) (m0 m : GCS.GCSModel) (alpha h sun : R) :
  GCS.GCSModel__init__ ha ar le lon0 lat0 tilt0 = Ok m0 ->
  GCS.run_calls m0 cs = Ok m ->
  GCS.half_angle (GCS.geometry m) = Fin alpha ->
  GCS.cone_height (GCS.geometry m) = Fin h ->
  0 < alpha < PI / 2 ->
  0 < h ->
  0 < sun ->
  exists pts,
    Sampler.points (Fin sun) m = Ok pts /\
    List.length pts = (54 * 38)%nat.
Proof.
  intros Hinit Hrun Ha Hh Halpha Hhpos Hsun.
  destruct (init_sets_rotations _ _ _ _ _ _ _ Hinit) as (Hrot0 & _).
  pose proof (run_calls_keep_rotations cs m0 m Hrot0 Hrun) as Hrot.
  destruct (tmatrix_shape m Hrot) as (a & b & c & d & e & f & g & k & i & Ht).
  unfold Sampler.points. cbv zeta.
  match goal with
  | |- context [Sampler.for_each ?f ?l] =>
      destruct (for_each_returns f (fun c => List.length c = 38%nat) l)
        as (bs & Hbs & Hlen & Hall)
  end.
  { intros beta Hin.
    destruct (sampled_azimuths_return _ alpha h sun Ha Hh Halpha Hhpos Hsun
                54 beta Hin) as (b0 & csn & -> & Hcsn).
    rewrite Hcsn. cbn [bind]. destruct csn as [[ctr r] n].
    eexists. split; [reflexivity | apply length_circle]. }
  rewrite Hbs. cbn [bind]. rewrite Ht. cbn [bind].
  destruct (rotate_rows (List.concat bs) a b c d e f g k i)
    as (out & Hout & Hlen').
  exists out. split; [exact Hout |].
  rewrite Hlen', (length_concat_uniform 38 bs Hall), Hlen, length_linspace.
  reflexivity.
Qed.

Lemma points_samples_stay_in_range_witness :
  exists pts,
    Sampler.points (Fin 1)
      (GCS.with_geometry Examples.model_90
         (GCS.mkGCSGeometry (Fin (PI / 4)) (Fin (1 / 2))
            (GCS.compute_leading_edge (Fin (PI / 4)) (Fin (1 / 2)) (Fin 3))
            (Fin 3)))
    = Ok pts /\
    List.length pts = (54 * 38)%nat.
Proof.
  apply (points_samples_stay_in_range
           (Fin 0) (Fin (1 / 2)) (Some (Fin 2)) (Fin (PI / 2)) (Fin 0) (Fin 0)
           [GCS.SetHalfAngle (Fin (PI / 4)); GCS.SetConeHeight (Fin 3)]
           Examples.model_90 _ (PI / 4) 3 1).
  - reflexivity.
  - reflexivity.
  - reflexivity.
  - reflexivity.
  - pose proof PI_RGT_0. lra.
  - lra.
  - lra.
Defined.

(** X12.  Under the same conditions [outline] never meets the error of
    [cross_section_circle] either: it returns 8 curves, each of them joining
    one point of each of the 64 cross sections. *)
Theorem outline_samples_stay_in_range
    (ha ar : npfloat) (le : option npfloat) (lon0 lat0 tilt0 : npfloat)
    (cs : list GCS.call) (m0 m : GCS.GCSModel) (alpha h sun : R) :
  GCS.GCSModel__init__ ha ar le lon0 lat0 tilt0 = Ok m0 ->
  GCS.run_calls m0 cs = Ok m ->
  GCS.half_angle (GCS.geometry m) = Fin alpha ->
  GCS.cone_height (GCS.geometry m) = Fin h ->
  0 < alpha < PI / 2 ->
  0 < h ->
  0 < sun ->
  exists curves,
    Sampler.outline (Fin sun) m = Ok curves /\
    List.length curves = 8%nat /\
    Forall (fun curve => List.length curve = 64%nat) curves.
Proof.
  intros Hinit Hrun Ha Hh Halpha Hhpos Hsun.
  destruct (init_sets_rotations _ _ _ _ _ _ _ Hinit) as (Hrot0 & _).
  pose proof (run_calls_keep_rotations cs m0 m Hrot0 Hrun) as Hrot.
  destruct (tmatrix_shape m Hrot) as (a & b & c & d & e & f & g & k & i & Ht).
  unfold Sampler.outline. cbv zeta.
  match goal with
  | |- context [bind (Sampler.for_each ?f ?l) _] =>
      destruct (for_each_returns f (fun c => List.length c = 8%nat) l)
        as (bs & Hbs & Hlen & _)
  end.
  { intros beta Hin.
    destruct (sampled_azimuths_return _ alpha h sun Ha Hh Halpha Hhpos Hsun
                64 beta Hin) as (b0 & csn & -> & Hcsn).
    rewrite Hcsn. cbn [bind]. destruct csn as [[ctr r] n].
    eexists. split; [reflexivity | apply length_circle]. }
  rewrite Hbs. cbn [bind]. rewrite length_linspace in Hlen.
  match goal with
  | |- context [Sampler.for_each ?f ?l] =>
      destruct (for_each_returns f (fun c => List.length c = 64%nat) l)
        as (curves & Hcurves & Hlen' & Hall)
  end.
  { intros p Hp. apply in_map_iff in Hp. destruct Hp as (j & <- & _).
    rewrite Ht. cbn [bind].
    rewrite <- (map_map (fun _circle => nth j _circle (NaN, NaN, NaN))
                        Sampler.as_row bs).
    destruct (rotate_rows (map (fun _circle => nth j _circle (NaN, NaN, NaN)) bs)
                a b c d e f g k i) as (out & Hout & Hlen').
    exists out. split; [exact Hout |].
    rewrite Hlen', length_map. exact Hlen. }
  exists curves. split; [exact Hcurves |]. split; [| exact Hall].
  rewrite Hlen', length_map, length_seq. reflexivity.
Qed.

Lemma outline_samples_stay_in_range_witness :
  exists curves,
    Sampler.outline (Fin 1)
      (GCS.with_geometry Examples.model_90
         (GCS.mkGCSGeometry (Fin (PI / 4)) (Fin (1 / 2))
            (GCS.compute_leading_edge (Fin (PI / 4)) (Fin (1 / 2)) (Fin 3))
            (Fin 3)))
    = Ok curves /\
    List.length curves = 8%nat /\
    Forall (fun curve => List.length curve = 64%nat) curves.
Proof.
  apply (outline_samples_stay_in_range
           (Fin 0) (Fin (1 / 2)) (Some (Fin 2)) (Fin (PI / 2)) (Fin 0) (Fin 0)
           [GCS.SetHalfAngle (Fin (PI / 4)); GCS.SetConeHeight (Fin 3)]
           Examples.model_90 _ (PI / 4) 3 1).
  - reflexivity.
  - reflexivity.
  - reflexivity.
  - reflexivity.
  - pose proof PI_RGT_0. lra.
  - lra.
  - lra.
Defined.

End SamplerFacts.

(** ** The shell is symmetric about the plane x = 0 *)

Module SymmetryFacts.

Import NPFacts GCSFacts.
Local Open Scope R_scope.

Lemma Rltb_opp (x : R) : x <> 0 -> Rltb (- x) 0 = negb (Rltb x 0).
Proof.
  intros Hx. unfold Rltb.
  destruct (Rlt_dec (- x) 0), (Rlt_dec x 0); try reflexivity; lra.
Qed.

Lemma Reqb_opp (x : R) : Reqb (- x) 0 = Reqb x 0.
Proof.
  unfold Reqb.
  destruct (Req_dec_T (- x) 0), (Req_dec_T x 0); try reflexivity; lra.
Qed.

Lemma neg_neg (a : npfloat) : NP.neg (NP.neg a) = a.
Proof.
  destruct a as [x | s |]; cbn; [rewrite Ropp_involutive | rewrite negb_involutive |];
    reflexivity.
Qed.

Lemma neg_mul_l (a b : npfloat) : NP.neg (NP.mul a b) = NP.mul (NP.neg a) b.
Proof.
  destruct a as [x | s |], b as [y | t |]; cbn; try reflexivity.
  - f_equal. ring.
  - rewrite Reqb_opp. destruct (Reqb x 0) eqn:E; [reflexivity |].
    rewrite Rltb_opp.
    + cbn. destruct (Rltb x 0), t; reflexivity.
    + intros ->. unfold Reqb in E. destruct (Req_dec_T 0 0); [discriminate | lra].
  - destruct (Reqb y 0); [reflexivity |]. cbn.
    destruct s, (Rltb y 0); reflexivity.
  - destruct s, t; reflexivity.
Qed.

Lemma neg_mul_r (a b : npfloat) : NP.neg (NP.mul a b) = NP.mul a (NP.neg b).
Proof.
  destruct a as [x | s |], b as [y | t |]; cbn; try reflexivity.
  - f_equal. ring.
  - destruct (Reqb x 0); [reflexivity |]. cbn.
    destruct (Rltb x 0), t; reflexivity.
  - rewrite Reqb_opp. destruct (Reqb y 0) eqn:E; [reflexivity |].
    rewrite Rltb_opp.
    + cbn. destruct s, (Rltb y 0); reflexivity.
    + intros ->. unfold Reqb in E. destruct (Req_dec_T 0 0); [discriminate | lra].
  - destruct s, t; reflexivity.
Qed.

Lemma cos_PI_minus (x : R) : cos (PI - x) = - cos x.
Proof.
  replace (PI - x) with (- x + PI) by ring. rewrite neg_cos, cos_neg. reflexivity.
Qed.

Ltac curved_at_both :=
  match goal with
  | |- context [GCS.h ?g] =>
      match goal with
      | |- context [Rleb (PI + ?alpha) ?beta && Rleb ?beta (3 * PI / 2)] =>
          rewrite (Rleb_false (PI + alpha) beta) by lra;
          try (rewrite (Rleb_false beta (- alpha)) by lra);
          rewrite (Rleb_false (PI - beta) (- alpha)) by lra;
          rewrite (Rleb_false (PI + alpha) (PI - beta)) by lra;
          rewrite ?andb_false_r; cbn [andb];
          rewrite (Rltb_true (- alpha) beta) by lra;
          rewrite (Rltb_true beta (PI + alpha)) by lra;
          rewrite (Rltb_true (- alpha) (PI - beta)) by lra;
          rewrite (Rltb_true (PI - beta) (PI + alpha)) by lra;
          cbn [andb]; unfold GCS.R, GCS.X0; cbn [bind];
          unfold Symmetry.mirror, Symmetry.reflect, Symmetry.opposite;
          autorewrite with npfin; rewrite sin_PI_x, cos_PI_minus;
          rewrite <- neg_Fin, <- neg_mul_r;
          rewrite neg_Fin, !Ropp_involutive, Ropp_0; reflexivity
      end
  end.

(** X13.  For a half angle that is not negative, the cross section at the
    azimuth [pi - beta] is the mirror image, in the plane [x = 0], of the
    cross section at [beta]: the centre is reflected and the radius is the
    same; and [pi - beta] is outside the accepted range exactly when
    [beta] is. *)
Theorem cross_sections_are_mirror_symmetric
    (g : GCS.GCSGeometry) (alpha beta : R) :
  GCS.half_angle g = Fin alpha ->
  0 <= alpha ->
  GCS.cross_section_circle g (Fin (PI - beta))
  = (csn <- GCS.cross_section_circle g (Fin beta) ;; Ok (Symmetry.mirror csn)).
Proof.
  intros Ha Halpha. pose proof PI_RGT_0 as Hpi.
  unfold GCS.cross_section_circle. rewrite Ha.
  rewrite !in_rhs_leg_Fin, !in_lhs_leg_Fin, !in_curved_section_Fin.
  destruct (Rle_dec (- (0.5) * PI) beta) as [H1 | H1];
    destruct (Rle_dec beta (- alpha)) as [H2 | H2].
  - (* the right leg at beta, the left leg at pi - beta *)
    rewrite (Rleb_true _ _ H1), (Rleb_true _ _ H2).
    rewrite (Rleb_false (PI - beta) (- alpha)) by lra. rewrite andb_false_r.
    rewrite (Rleb_true (PI + alpha) (PI - beta)) by lra.
    rewrite (Rleb_true (PI - beta) (3 * PI / 2)) by lra.
    cbn [andb bind]. unfold Symmetry.mirror, Symmetry.reflect, Symmetry.opposite, NP.pi.
    autorewrite with npfin.
    replace (PI - beta - alpha - PI) with (- (beta + alpha)) by ring.
    rewrite <- neg_mul_l. rewrite Ropp_involutive, Ropp_0. reflexivity.
  - rewrite (Rleb_true _ _ H1).
    rewrite (Rleb_false beta (- alpha)) by lra. rewrite andb_false_r.
    rewrite (Rleb_true (PI - beta) (3 * PI / 2)) by lra. rewrite andb_true_r.
    destruct (Rle_dec (PI + alpha) beta) as [H3 | H3];
      destruct (Rle_dec beta (3 * PI / 2)) as [H4 | H4].
    + (* the left leg at beta, the right leg at pi - beta *)
      rewrite (Rleb_true _ _ H3), (Rleb_true _ _ H4).
      rewrite (Rleb_true (- (0.5) * PI) (PI - beta)) by lra.
      rewrite (Rleb_true (PI - beta) (- alpha)) by lra.
      cbn [andb bind]. unfold Symmetry.mirror, Symmetry.reflect, Symmetry.opposite, NP.pi.
      autorewrite with npfin.
      replace (- (PI - beta + alpha)) with (beta - alpha - PI) by ring.
      rewrite <- neg_mul_l, neg_neg.
      rewrite !Ropp_involutive, Ropp_0. reflexivity.
    + (* beyond 3 pi / 2 at beta, before - pi / 2 at pi - beta *)
      rewrite (Rleb_false beta (3 * PI / 2)) by lra. rewrite andb_false_r.
      rewrite (Rleb_false (- (0.5) * PI) (PI - beta)) by lra.
      rewrite (Rleb_false (PI + alpha) (PI - beta)) by lra.
      rewrite (Rltb_false beta (PI + alpha)) by lra.
      rewrite (Rltb_false (- alpha) (PI - beta)) by lra.
      rewrite !andb_false_r. cbn. reflexivity.
    + (* the curved section at both *)
      curved_at_both.
    + (* the curved section at both, for a half angle beyond pi / 2 *)
      curved_at_both.
  - (* before - pi / 2 at beta, beyond 3 pi / 2 at pi - beta *)
    rewrite (Rleb_false (- (0.5) * PI) beta) by lra.
    rewrite (Rleb_false (PI - beta) (- alpha)) by lra.
    rewrite (Rleb_false (PI + alpha) beta) by lra.
    rewrite (Rleb_false (PI - beta) (3 * PI / 2)) by lra.
    rewrite (Rltb_false (- alpha) beta) by lra.
    rewrite (Rltb_false (PI - beta) (PI + alpha)) by lra.
    rewrite !andb_false_r. cbn. reflexivity.
  - (* the curved section at both, for a half angle beyond pi / 2 *)
    curved_at_both.
Qed.

Lemma cross_sections_are_mirror_symmetric_witness :
  GCS.cross_section_circle Examples.geometry_quarter (Fin (PI - PI / 3))
  = (csn <- GCS.cross_section_circle Examples.geometry_quarter (Fin (PI / 3)) ;;
     Ok (Symmetry.mirror csn)).
Proof.
  apply (cross_sections_are_mirror_symmetric Examples.geometry_quarter (PI / 4)).
  - reflexivity.
  - pose proof PI_RGT_0. lra.
Defined.

End SymmetryFacts.

(** ** The difference controller and the plot it drives *)

Module ControllerFacts.

Import ResultFacts JuxFacts.
Local Open Scope Z_scope.

Lemma item_Some {A : Type} (l : list A) (i : nat) (a : A) :
  nth_error l i = Some a -> Jux.item l i = Ok a.
Proof. intros H. unfold Jux.item. rewrite H. reflexivity. Qed.

Lemma set_item_same_value {A : Type} (l : list A) :
  forall i v, nth_error l i = Some v -> Jux.set_item l i v = l.
Proof.
  induction l as [| a l IH]; intros [| i] v H; cbn in *; try discriminate.
  - inversion H. reflexivity.
  - rewrite IH by exact H. reflexivity.
Qed.

Lemma set_item_twice {A : Type} (l : list A) :
  forall i v w, Jux.set_item (Jux.set_item l i v) i w = Jux.set_item l i w.
Proof.
  induction l as [| a l IH]; intros [| i] v w; cbn; try reflexivity.
  rewrite IH. reflexivity.
Qed.

Lemma nth_error_num_frames (app : Jux.App) (idx : nat) (dts : list Z) :
  nth_error (Jux.datetimes app) idx = Some dts ->
  nth_error (Jux.num_frames app) idx = Some (Z.of_nat (List.length dts)).
Proof.
  intros H. unfold Jux.num_frames. rewrite nth_error_map, H. reflexivity.
Qed.

Lemma py_getitem_in_range {A : Type} (l : list A) (i : Z) :
  0 <= i < Z.of_nat (List.length l) ->
  exists a, py_getitem l i = Ok a /\ nth_error l (Z.to_nat i) = Some a.
Proof.
  intros Hi. unfold py_getitem.
  destruct (i <? 0) eqn:E; [apply Z.ltb_lt in E; lia |].
  assert (Hb : ((0 <=? i) && (i <? Z.of_nat (List.length l)))%bool = true).
  { apply andb_true_iff. split; [apply Z.leb_le | apply Z.ltb_lt]; lia. }
  rewrite Hb.
  destruct (nth_error l (Z.to_nat i)) as [a |] eqn:En.
  - exists a. split; reflexivity.
  - apply nth_error_None in En. lia.
Qed.

Lemma nth_error_Some_lt {A : Type} (l : list A) (i : nat) (a : A) :
  nth_error l i = Some a -> (i < List.length l)%nat.
Proof. intros H. apply nth_error_Some. congruence. Qed.

(** The widgets find what they read when the difference frame, if it is
    not negative, is a frame of the plot. *)
Lemma widgets_return (app : Jux.App) (idx : nat) (mode : string)
    (dts : list Z) (df off : Z) :
  nth_error (Jux.datetimes app) idx = Some dts ->
  nth_error (Jux.difference_frames app) idx = Some df ->
  nth_error (Jux.running_difference_offsets app) idx = Some off ->
  df < Z.of_nat (List.length dts) ->
  Controller.widgets app idx mode = Ok tt.
Proof.
  intros Hdts Hdf Hoff Hlt. unfold Controller.widgets.
  destruct (negb (String.eqb mode "None")); [| reflexivity].
  rewrite (item_Some _ _ _ Hdf). cbn [bind].
  rewrite (item_Some _ _ _ (nth_error_num_frames _ _ _ Hdts)). cbn [bind].
  rewrite (item_Some _ _ _ Hoff). cbn [bind].
  destruct (0 <=? df) eqn:E; [| reflexivity].
  apply Z.leb_le in E.
  rewrite (item_Some _ _ _ Hdts). cbn [bind].
  destruct (py_getitem_in_range dts df) as (a & Ha & _); [lia |].
  rewrite Ha. reflexivity.
Qed.

(** One rendering, in closed form. *)
Lemma rendering (app : Jux.App) (mods : list string) (mode : string)
    (dts : list Z) (fr df off : Z) :
  nth_error mods (Jux.active_plot app) = Some mode ->
  nth_error (Jux.datetimes app) (Jux.active_plot app) = Some dts ->
  nth_error (Jux.frames app) (Jux.active_plot app) = Some fr ->
  nth_error (Jux.difference_frames app) (Jux.active_plot app) = Some df ->
  nth_error (Jux.running_difference_offsets app) (Jux.active_plot app)
  = Some off ->
  df < Z.of_nat (List.length dts) ->
  Controller.DifferenceController app mods
  = Ok (Jux.mkApp (Jux.datetimes app) (Jux.sync_plots app) (Jux.active_plot app)
          (Jux.frames app)
          (Jux.set_item (Jux.difference_frames app) (Jux.active_plot app)
             (Controller.next_difference_frame mode fr df off
                (Z.of_nat (List.length dts))))
          (Jux.set_item (Jux.running_difference_offsets app)
             (Jux.active_plot app) (Controller.next_offset mode off))).
Proof.
  intros Hmode Hdts Hfr Hdf Hoff Hlt.
  pose proof (nth_error_Some_lt _ _ _ Hoff) as Hloff.
  unfold Controller.DifferenceController. cbv zeta.
  rewrite (item_Some _ _ _ Hmode). cbn [bind].
  rewrite (widgets_return app _ mode dts df off Hdts Hdf Hoff Hlt). cbn [bind].
  unfold Controller.next_difference_frame, Controller.next_offset.
  destruct (String.eqb mode "None") eqn:E1.
  - rewrite (item_Some _ _ _ Hoff). cbn [bind].
    unfold Controller.set_running_difference_offset. cbn [Jux.difference_frames].
    rewrite (item_Some _ _ _ Hdf). cbn [bind].
    destruct (df =? -1) eqn:E; cbn [negb].
    + apply Z.eqb_eq in E. subst df.
      rewrite (set_item_same_value _ _ _ Hdf). reflexivity.
    + reflexivity.
  - destruct (Controller.contains "Fixed" mode) eqn:E2.
    + rewrite (item_Some _ _ _ Hoff). cbn [bind].
      rewrite (set_item_same_value _ _ _ Hdf). reflexivity.
    + rewrite (item_Some _ _ _ Hoff). cbn [bind].
      unfold Controller.running_offset.
      destruct (off =? 0) eqn:E3.
      * set (app1 := Controller.set_running_difference_offset app
                        (Jux.active_plot app) 1).
        assert (H1 : nth_error (Jux.running_difference_offsets app1)
                       (Jux.active_plot app) = Some 1)
          by (apply nth_error_set_item_same; exact Hloff).
        assert (Hdts1 : nth_error (Jux.datetimes app1) (Jux.active_plot app)
                        = Some dts) by exact Hdts.
        rewrite (item_Some _ _ _ H1). cbn [bind].
        rewrite (item_Some (Jux.frames app1) _ _ Hfr). cbn [bind].
        rewrite (item_Some _ _ _ (nth_error_num_frames app1 _ _ Hdts1)).
        cbn [bind].
        rewrite (item_Some (Jux.difference_frames app1) _ _ Hdf). cbn [bind].
        destruct (df =? _) eqn:E; cbn [negb].
        -- apply Z.eqb_eq in E. rewrite <- E.
           rewrite (set_item_same_value _ _ _ Hdf). reflexivity.
        -- reflexivity.
      * rewrite (item_Some _ _ _ Hoff). cbn [bind].
        rewrite (item_Some _ _ _ Hfr). cbn [bind].
        rewrite (item_Some _ _ _ (nth_error_num_frames _ _ _ Hdts)). cbn [bind].
        rewrite (item_Some _ _ _ Hdf). cbn [bind].
        rewrite (set_item_same_value _ _ _ Hoff).
        destruct (df =? _) eqn:E; cbn [negb].
        -- apply Z.eqb_eq in E. rewrite <- E.
           rewrite (set_item_same_value _ _ _ Hdf).
           destruct app; reflexivity.
        -- reflexivity.
Qed.

Lemma next_is_stable (mode : string) (fr df off nf : Z) :
  Controller.next_offset mode (Controller.next_offset mode off)
  = Controller.next_offset mode off /\
  Controller.next_difference_frame mode fr
    (Controller.next_difference_frame mode fr df off nf)
    (Controller.next_offset mode off) nf
  = Controller.next_difference_frame mode fr df off nf.
Proof.
  unfold Controller.next_offset, Controller.next_difference_frame.
  destruct (String.eqb mode "None"); [split; reflexivity |].
  destruct (Controller.contains "Fixed" mode); [split; reflexivity |].
  assert (H : Controller.running_offset (Controller.running_offset off)
              = Controller.running_offset off).
  { unfold Controller.running_offset.
    destruct (off =? 0) eqn:E; [reflexivity | rewrite E; reflexivity]. }
  rewrite H. split; reflexivity.
Qed.

Lemma next_in_range (mode : string) (fr df off nf : Z) :
  1 <= nf -> -1 <= df < nf ->
  -1 <= Controller.next_difference_frame mode fr df off nf < nf.
Proof.
  intros Hnf Hdf. unfold Controller.next_difference_frame.
  destruct (String.eqb mode "None"); [lia |].
  destruct (Controller.contains "Fixed" mode); lia.
Qed.

(** X14.  When the difference frame of the active plot is -1 or a frame
    of that plot, and the plot has at least one frame, a rendering of the
    controller returns; the difference frame it leaves is again -1 or a
    frame of the plot; and a second rendering changes nothing, whatever the
    mode, the frame and the offset are. *)
Theorem difference_controller_settles (app : Jux.App) (mods : list string)
    (mode : string) (dts : list Z) (fr df off : Z) :
  nth_error mods (Jux.active_plot app) = Some mode ->
  nth_error (Jux.datetimes app) (Jux.active_plot app) = Some dts ->
  nth_error (Jux.frames app) (Jux.active_plot app) = Some fr ->
  nth_error (Jux.difference_frames app) (Jux.active_plot app) = Some df ->
  nth_error (Jux.running_difference_offsets app) (Jux.active_plot app)
  = Some off ->
  dts <> [] ->
  -1 <= df < Z.of_nat (List.length dts) ->
  exists app' df',
    Controller.DifferenceController app mods = Ok app' /\
    nth_error (Jux.difference_frames app') (Jux.active_plot app) = Some df' /\
    -1 <= df' < Z.of_nat (List.length dts) /\
    Controller.DifferenceController app' mods = Ok app'.
Proof.
  intros Hmode Hdts Hfr Hdf Hoff Hne Hrange.
  assert (Hnf : 1 <= Z.of_nat (List.length dts)).
  { destruct dts; [congruence | cbn [List.length]; lia]. }
  pose proof (nth_error_Some_lt _ _ _ Hoff) as Hloff.
  pose proof (nth_error_Some_lt _ _ _ Hdf) as Hldf.
  set (n := Z.of_nat (List.length dts)) in *.
  set (df' := Controller.next_difference_frame mode fr df off n).
  set (off' := Controller.next_offset mode off).
  pose proof (next_in_range mode fr df off n Hnf Hrange) as Hrange'.
  fold df' in Hrange'.
  eexists. exists df'.
  split; [apply (rendering app mods mode dts fr df off); try assumption; lia |].
  cbn [Jux.difference_frames Jux.active_plot].
  split; [apply nth_error_set_item_same; exact Hldf |].
  split; [exact Hrange' |].
  rewrite (rendering _ mods mode dts fr df' off');
    cbn [Jux.difference_frames Jux.active_plot Jux.datetimes Jux.frames
         Jux.running_difference_offsets Jux.sync_plots];
    try assumption.
  - fold n. destruct (next_is_stable mode fr df off n) as (E1 & E2).
    fold off' in E1. fold df' off' in E2. rewrite E1, E2, !set_item_twice.
    reflexivity.
  - apply nth_error_set_item_same. exact Hldf.
  - apply nth_error_set_item_same. exact Hloff.
  - fold n. lia.
Qed.

Lemma difference_controller_settles_witness :
  exists app' df',
    Controller.DifferenceController Examples.three_views
      ["Running difference"; "None"; "Fixed difference"]%string = Ok app' /\
    nth_error (Jux.difference_frames app')
      (Jux.active_plot Examples.three_views) = Some df' /\
    -1 <= df' < Z.of_nat (List.length [0; 10; 20; 30]) /\
    Controller.DifferenceController app'
      ["Running difference"; "None"; "Fixed difference"]%string = Ok app'.
Proof.
  apply (difference_controller_settles Examples.three_views
           ["Running difference"; "None"; "Fixed difference"]%string
           "Running difference"%string [0; 10; 20; 30] 2 (-1) 0).
  - reflexivity.
  - reflexivity.
  - reflexivity.
  - reflexivity.
  - reflexivity.
  - discriminate.
  - cbn. lia.
Defined.

End ControllerFacts.

(** ** From the controller to the image *)

Module PlotUIFacts.

Import ResultFacts JuxFacts ControllerFacts.
Local Open Scope Z_scope.

Lemma bind_assoc {A B C : Type} (m : result A) (f : A -> result B)
    (g : B -> result C) :
  bind (bind m f) g = bind m (fun x => bind (f x) g).
Proof. destruct m; reflexivity. Qed.

Section Update.

Variables (ndarray color : Type).
Variable nd_sub : ndarray -> ndarray -> result ndarray.
Variable nd_border : ndarray -> result ndarray.
Variables nd_min nd_max : ndarray -> option npfloat.
Variable median_rgba :
  option string -> option npfloat -> option npfloat -> ndarray -> result color.

(** X15.  In running-difference mode, with the frame of the active plot
    inside its sequence: the controller leaves the difference frame
    [max(0, min(frame + offset, n - 1))], where an offset of 0 counts as 1;
    both that frame and the displayed frame exist in the sequence; and
    [update] with these values first subtracts the data of the one from the
    data of the other, and if it returns, the image holds that difference
    and the container displays the frame. *)
Theorem running_difference_shows_frame_minus_offset_frame
    (app : Jux.App) (mods : list string) (mode : string) (dts : list Z)
    (fr df off : Z)
    (plot : Plot.MapSequencePlotContainer ndarray color)
    (modifier : Plot.DifferenceImageModifier)
    (vmin vmax : option npfloat) (cmap : option string) :
  nth_error mods (Jux.active_plot app) = Some mode ->
  nth_error (Jux.datetimes app) (Jux.active_plot app) = Some dts ->
  nth_error (Jux.frames app) (Jux.active_plot app) = Some fr ->
  nth_error (Jux.difference_frames app) (Jux.active_plot app) = Some df ->
  nth_error (Jux.running_difference_offsets app) (Jux.active_plot app)
  = Some off ->
  String.eqb mode "None" = false ->
  Controller.contains "Fixed" mode = false ->
  -1 <= df < Z.of_nat (List.length dts) ->
  0 <= fr < Z.of_nat (List.length dts) ->
  Plot.modifiers plot = [modifier] ->
  List.length (Plot.map_sequence plot) = List.length dts ->
  exists app' df' fm rm rest,
    Controller.DifferenceController app mods = Ok app' /\
    nth_error (Jux.difference_frames app') (Jux.active_plot app) = Some df' /\
    df' = Z.max 0 (Z.min (fr + Controller.running_offset off)
                         (Z.of_nat (List.length dts) - 1)) /\
    nth_error (Plot.map_sequence plot) (Z.to_nat fr) = Some fm /\
    nth_error (Plot.map_sequence plot) (Z.to_nat df') = Some rm /\
    PlotUI.update nd_sub nd_border nd_min nd_max median_rgba
      plot fr df' vmin vmax cmap
    = (data <- nd_sub (Plot.data fm) (Plot.data rm) ;; rest data) /\
    forall data plot',
      rest data = Ok plot' ->
      Plot.im_data (Plot.im plot') = data /\
      Plot.current_frame_index plot' = fr.
Proof.
  intros Hmode Hdts Hfr Hdf Hoff E1 E2 Hdfr Hfrr Hmods Hlen.
  pose proof (nth_error_Some_lt _ _ _ Hdf) as Hldf.
  set (n := Z.of_nat (List.length dts)) in *.
  set (df' := Z.max 0 (Z.min (fr + Controller.running_offset off) (n - 1))).
  assert (Hnext : Controller.next_difference_frame mode fr df off n = df').
  { unfold Controller.next_difference_frame. rewrite E1, E2. reflexivity. }
  assert (Hdf' : 0 <= df' < n) by (unfold df'; lia).
  assert (Hn : Z.of_nat (List.length (Plot.map_sequence plot)) = n)
    by (unfold n; rewrite Hlen; reflexivity).
  destruct (py_getitem_in_range (Plot.map_sequence plot) fr)
    as (fm & Hfm & Hfm'); [lia |].
  destruct (py_getitem_in_range (Plot.map_sequence plot) df')
    as (rm & Hrm & Hrm'); [lia |].
  pose proof (rendering app mods mode dts fr df off Hmode Hdts Hfr Hdf Hoff
                (proj2 Hdfr)) as Hpass.
  fold n in Hpass. rewrite Hnext in Hpass.
  eexists. exists df', fm, rm. eexists.
  split; [exact Hpass |].
  split; [cbn [Jux.difference_frames]; apply nth_error_set_item_same; exact Hldf |].
  split; [reflexivity |].
  split; [exact Hfm' |]. split; [exact Hrm' |].
  split.
  - unfold PlotUI.update, PlotUI.configure. rewrite Hmods.
    cbn [List.length Nat.ltb Nat.leb bind].
    unfold Plot.update_to_frame, Plot.get_map_data, Plot.num_frames.
    cbn [Plot.map_sequence Plot.modifiers Plot.im Plot.colorbar_state
         Plot.current_frame_index Plot.cbar].
    rewrite Hn.
    replace (Plot.clip fr 0 (n - 1)) with fr by (unfold Plot.clip; lia).
    rewrite Hfm. cbn [bind Plot.run_modifiers].
    unfold Plot.__call__, Plot.is_valid_reference_frame, Plot.is_enabled,
      Plot.reference_frame.
    cbn [Plot._is_enabled Plot._reference_frame Plot.map_sequence].
    replace (0 <=? df') with true by (symmetry; apply Z.leb_le; lia).
    replace (df' <? 0) with false by (symmetry; apply Z.ltb_ge; lia).
    cbn [negb orb]. rewrite Hrm. cbn [bind].
    rewrite !bind_assoc. reflexivity.
  - intros data plot' H. cbn beta in H. cbn [bind] in H.
    apply bind_Ok in H. destruct H as (im1 & Him1 & H).
    apply bind_Ok in H. destruct H as (border & _ & H).
    apply bind_Ok in H. destruct H as (facecolor & _ & H).
    inversion H. subst plot'. clear H.
    cbn [Plot.im Plot.current_frame_index Plot.autoscale_None Plot.set_clim
         Plot.im_data].
    split; [| reflexivity].
    cbn [Plot.cmap] in Him1. revert Him1.
    destruct (match cmap with
              | Some name => String.eqb name "default"
              | None => false
              end); intros Him1.
    + apply bind_Ok in Him1. destruct Him1 as (m0 & _ & Him1).
      inversion Him1. reflexivity.
    + inversion Him1. reflexivity.
Qed.

End Update.

Lemma running_difference_shows_frame_minus_offset_frame_witness :
  exists app' df' fm rm rest,
    Controller.DifferenceController
      (Jux.mkApp [[0; 10]] false 0 [1] [-1] [-1]) ["Running difference"%string]
    = Ok app' /\
    nth_error (Jux.difference_frames app') 0 = Some df' /\
    df' = Z.max 0 (Z.min (1 + Controller.running_offset (-1))
                         (Z.of_nat (List.length [0; 10]) - 1)) /\
    nth_error (Plot.map_sequence Examples.container0) (Z.to_nat 1) = Some fm /\
    nth_error (Plot.map_sequence Examples.container0) (Z.to_nat df') = Some rm /\
    PlotUI.update Examples.zsub Examples.zborder Examples.zmin Examples.zmax
      Examples.zmedian_rgba Examples.container0 1 df' None None
      (Some "gray"%string)
    = (data <- Examples.zsub (Plot.data fm) (Plot.data rm) ;; rest data) /\
    forall data plot',
      rest data = Ok plot' ->
      Plot.im_data (Plot.im plot') = data /\
      Plot.current_frame_index plot' = 1.
Proof.
  apply (running_difference_shows_frame_minus_offset_frame
           Examples.zarray Examples.zcolor Examples.zsub Examples.zborder
           Examples.zmin Examples.zmax Examples.zmedian_rgba
           (Jux.mkApp [[0; 10]] false 0 [1] [-1] [-1])
           ["Running difference"%string] "Running difference"%string
           [0; 10] 1 (-1) (-1)
           Examples.container0 Plot.DifferenceImageModifier__init__).
  - reflexivity.
  - reflexivity.
  - reflexivity.
  - reflexivity.
  - reflexivity.
  - reflexivity.
  - reflexivity.
  - cbn. lia.
  - cbn. lia.
  - reflexivity.
  - reflexivity.
Defined.

(** On the example the image then holds frame 1 minus frame 0. *)
Example running_difference_of_two_frames :
  exists plot',
    PlotUI.update Examples.zsub Examples.zborder Examples.zmin Examples.zmax
      Examples.zmedian_rgba Examples.container0 1 0 None None
      (Some "gray"%string) = Ok plot' /\
    Plot.im_data (Plot.im plot') = [3; 3; 3].
Proof. eexists. split; reflexivity. Qed.

End PlotUIFacts.

(** ** Synchronising the views in time *)

Module SyncFacts.

Import ResultFacts.
Local Open Scope Z_scope.

(** X16.  With synchronisation on, when every list of reactive values has
    one entry per plot, every other view has at least one frame and no
    view other than the last of the other views is in running-difference
    mode: a frame change of the active view to a frame with datetime [t]
    returns, leaves the active view on its frame, and sets every other view
    to the first of its frames nearest in time to [t]. *)
Theorem frame_change_synchronises_the_other_views
    (app : Jux.App) (dts_active : list Z) (frame t : Z) :
  Jux.well_formed app ->
  (forall j dts, j <> Jux.active_plot app ->
                 nth_error (Jux.datetimes app) j = Some dts -> dts <> []) ->
  (forall j j' o,
     (j < j' < Jux.num_plots app)%nat ->
     j <> Jux.active_plot app -> j' <> Jux.active_plot app ->
     nth_error (Jux.running_difference_offsets app) j = Some o -> o = 0) ->
  Jux.sync_plots app = true ->
  nth_error (Jux.datetimes app) (Jux.active_plot app) = Some dts_active ->
  py_getitem dts_active frame = Ok t ->
  nth_error (Jux.frames app) (Jux.active_plot app) = Some frame ->
  exists app',
    Jux.on_frame_change app frame (Jux.active_plot app) = Ok app' /\
    nth_error (Jux.frames app') (Jux.active_plot app) = Some frame /\
    forall j dts,
      j <> Jux.active_plot app ->
      nth_error (Jux.datetimes app) j = Some dts ->
      exists r, nth_error (Jux.frames app') j = Some (Z.of_nat r) /\
                Jux.nearest_index dts t r.
Proof.
  intros Hwf Hne Hoff Hsync Hdts Ht Hframe.
  exact (JuxFacts.on_frame_change_synchronises app t frame Hwf Hne Hoff
           dts_active Hsync Hdts Ht Hframe).
Qed.

Lemma frame_change_synchronises_the_other_views_witness :
  exists app',
    Jux.on_frame_change Examples.two_views 2
      (Jux.active_plot Examples.two_views) = Ok app' /\
    nth_error (Jux.frames app') (Jux.active_plot Examples.two_views) = Some 2 /\
    forall j dts,
      j <> Jux.active_plot Examples.two_views ->
      nth_error (Jux.datetimes Examples.two_views) j = Some dts ->
      exists r, nth_error (Jux.frames app') j = Some (Z.of_nat r) /\
                Jux.nearest_index dts 20 r.
Proof.
  apply (frame_change_synchronises_the_other_views
           Examples.two_views [0; 10; 20; 30] 2 20).
  - unfold Jux.well_formed. cbn. lia.
  - intros [| [| j]] dts Hj H; cbn in *.
    + congruence.
    + inversion H. discriminate.
    + destruct j; discriminate.
  - cbn. intros j j' o Hlt Hj Hj' _. lia.
  - reflexivity.
  - reflexivity.
  - reflexivity.
  - reflexivity.
Defined.

End SyncFacts.
